(** * Structured-row indexing and query core: a shallow embedding

    The Python processors of the row pipeline (Cassandra row writer, row
    embeddings computer, Qdrant row embeddings writer, Cassandra row query
    service, Qdrant row embeddings query service) are transcribed as Rocq
    functions; store clients are modelled by the list of calls they receive.

    Python [str] values are modelled by [string]; a character stands for a
    code point below 256.  Python [dict]s whose iteration order is irrelevant
    are [gmap]s, sets are [gset]s, lists and insertion-ordered dicts are
    lists. *)

From Stdlib Require Import ZArith Ascii String Floats.
From stdpp Require Import base gmap strings pretty list fin_maps.

Local Open Scope string_scope.

(** ** Python string primitives *)

Module Py.

Definition code (c : ascii) : nat := nat_of_ascii c.

Definition between (lo hi n : nat) : bool := (lo <=? n)%nat && (n <=? hi)%nat.

Definition is_upper (c : ascii) : bool := between 65 90 (code c).
Definition is_lower (c : ascii) : bool := between 97 122 (code c).
Definition is_digit (c : ascii) : bool := between 48 57 (code c).
Definition is_underscore (c : ascii) : bool := (code c =? 95)%nat.

(** The character class [[a-zA-Z0-9_]]. *)
Definition in_word_class (c : ascii) : bool :=
  is_lower c || is_upper c || is_digit c || is_underscore c.

(** [str.isalpha] on one character (Unicode letters below 256). *)
Definition isalpha (c : ascii) : bool :=
  let n := code c in
  between 65 90 n || between 97 122 n
  || (n =? 170)%nat || (n =? 181)%nat || (n =? 186)%nat
  || between 192 214 n || between 216 246 n || between 248 255 n.

(** [str.lower] on one character (below 256 the mapping is 1-to-1). *)
Definition lower_char (c : ascii) : ascii :=
  let n := code c in
  if between 65 90 n || between 192 214 n || between 216 222 n
  then ascii_of_nat (n + 32) else c.

(** [str.isspace] on one character. *)
Definition isspace (c : ascii) : bool :=
  let n := code c in
  between 9 13 n || between 28 32 n || (n =? 133)%nat || (n =? 160)%nat.

Fixpoint map_chars (f : ascii -> ascii) (s : string) : string :=
  match s with
  | EmptyString => EmptyString
  | String c r => String (f c) (map_chars f r)
  end.

Fixpoint all_chars (p : ascii -> bool) (s : string) : bool :=
  match s with
  | EmptyString => true
  | String c r => p c && all_chars p r
  end.

Definition lower (s : string) : string := map_chars lower_char s.

(** The replacement [re.sub(r'[^a-zA-Z0-9_]', '_', s)] makes of one
    character. *)
Definition substitute (c : ascii) : ascii :=
  if in_word_class c then c else "_"%char.

(** [re.sub(r'[^a-zA-Z0-9_]', '_', s)] *)
Definition re_sub_nonword (s : string) : string := map_chars substitute s.

(** [sep.join(parts)] *)
Fixpoint join (sep : string) (parts : list string) : string :=
  match parts with
  | [] => ""
  | [p] => p
  | p :: rest => p ++ sep ++ join sep rest
  end.

(** [s.split(sep)] for a one-character separator: never the empty list. *)
Fixpoint split (sep : ascii) (s : string) : list string :=
  match s with
  | EmptyString => [""]
  | String c r =>
      if Ascii.eqb c sep then "" :: split sep r
      else match split sep r with
           | p :: ps => String c p :: ps
           | [] => [String c ""]
           end
  end.

Fixpoint lstrip (s : string) : string :=
  match s with
  | EmptyString => EmptyString
  | String c r => if isspace c then lstrip r else s
  end.

Fixpoint rstrip (s : string) : string :=
  match s with
  | EmptyString => EmptyString
  | String c r =>
      match rstrip r with
      | EmptyString => if isspace c then EmptyString else String c EmptyString
      | r' => String c r'
      end
  end.

(** [s.strip()] *)
Definition strip (s : string) : string := rstrip (lstrip s).

(** [s.rsplit(sep, 1)] when [sep in s]: the parts around the last
    separator; [None] when the separator does not occur. *)
Fixpoint rsplit1 (sep : ascii) (s : string) : option (string * string) :=
  match s with
  | EmptyString => None
  | String c r =>
      match rsplit1 sep r with
      | Some (a, b) => Some (String c a, b)
      | None => if Ascii.eqb c sep then Some ("", r) else None
      end
  end.

(** [sep in s] for a one-character separator. *)
Fixpoint has_char (sep : ascii) (s : string) : bool :=
  match s with
  | EmptyString => false
  | String c r => Ascii.eqb c sep || has_char sep r
  end.

(** [s.startswith(p)] *)
Fixpoint startswith (s p : string) : bool :=
  match p, s with
  | EmptyString, _ => true
  | String a p', String b s' => Ascii.eqb a b && startswith s' p'
  | String _ _, EmptyString => false
  end.

(** [needle in hay] on strings. *)
Fixpoint contains (hay needle : string) : bool :=
  startswith hay needle ||
  match hay with
  | EmptyString => false
  | String _ r => contains r needle
  end.

(** Truthiness of a string: non-empty. *)
Definition truthy (s : string) : bool :=
  match s with EmptyString => false | _ => true end.

(** [str(n)] for an [int]. *)
Definition str_of_int (n : Z) : string := pretty n.

End Py.

(** ** Name sanitisation (write.py, service.py, qdrant write.py and service.py
    carry the same method) *)

Definition sanitize_name (name : string) : string :=
  let safe_name := Py.re_sub_nonword name in
  let safe_name :=
    match safe_name with
    | String c _ =>
        if negb (Py.isalpha c) then "r_" ++ safe_name else safe_name
    | EmptyString => safe_name
    end in
  Py.lower safe_name.

(** The regular expression [^[a-z][a-z0-9_]*$] of the specification, as a
    matcher. *)
Definition ident_char (c : ascii) : bool :=
  Py.is_lower c || Py.is_digit c || Py.is_underscore c.

Definition matches_identifier (s : string) : bool :=
  match s with
  | EmptyString => false
  | String c r => Py.is_lower c && Py.all_chars ident_char r
  end.

(** ** Shared data model (trustgraph.schema) *)

(** Outcome of a call that may raise: [Raise msg] carries [str(e)]. *)
Inductive result (A : Type) : Type :=
| Ok (a : A)
| Raise (msg : string).
Arguments Ok {A} a.
Arguments Raise {A} msg.

Module Field.
Record t : Type := make {
  name : string;
  type : string;
  size : Z;
  primary : bool;
  description : string;
  required : bool;
  enum_values : list string;
  indexed : bool
}.
End Field.

Module RowSchema.
Record t : Type := make {
  name : string;
  description : string;
  fields : list Field.t
}.
End RowSchema.

Module Metadata.
Record t : Type := make {
  id : string;
  user : string;
  collection : string;
  source : option string
}.
End Metadata.

Module ExtractedObject.
Record t : Type := make {
  metadata : Metadata.t;
  schema_name : string;
  values : list (gmap string string);
  confidence : float;
  source_span : string
}.
End ExtractedObject.

Module RowIndexEmbedding.
Record t : Type := make {
  index_name : string;
  index_value : list string;
  text : string;
  vectors : list (list float)
}.
End RowIndexEmbedding.

Module RowEmbeddings.
Record t : Type := make {
  metadata : Metadata.t;
  schema_name : string;
  embeddings : list RowIndexEmbedding.t
}.
End RowEmbeddings.

Module Error.
Record t : Type := make { type : string; message : string }.
End Error.

(** [all(v == "" for v in index_value)] *)
Definition all_empty (index_value : list string) : bool :=
  forallb (fun v => String.eqb v "") index_value.

(** [not index_value or all(v == "" for v in index_value)]: the test that
    makes the writer and the embeddings computer skip an index. *)
Definition skip_index_value (index_value : list string) : bool :=
  match index_value with
  | [] => true
  | _ => all_empty index_value
  end.

(** [build_index_value] (same body in write.py and embeddings.py): the
    values of the comma-separated field names, [""] for a missing one. *)
Definition build_index_value
  (value_map : gmap string string) (index_name : string) : list string :=
  let field_names := map Py.strip (Py.split "," index_name) in
  map (fun field_name =>
         match value_map !! field_name with
         | Some value => value
         | None => ""
         end) field_names.

(** Modelled from the spec: [CollectionConfigHandler.collection_exists] is
    not among the sources; the collection registry is the set of known
    (user, collection) pairs, as the tests populate [known_collections]. *)
Definition collection_exists
  (known_collections : gset (string * string)) (user collection : string) : bool :=
  bool_decide ((user, collection) ∈ known_collections).

(** ** Row writer for Cassandra (storage/rows/cassandra/write.py) *)

Module RowsWrite.

(** The statements the writer passes to [session.execute]. *)
Inductive cql : Type :=
| CreateKeyspace (safe_keyspace : string)
| CreateRowsTable (safe_keyspace : string)
| CreatePartitionsTable (safe_keyspace : string)
| InsertPartition (safe_keyspace collection schema_name index_name : string)
| InsertRow (safe_keyspace collection schema_name index_name : string)
    (index_value : list string) (data : gmap string string) (source : string).

Definition is_rows_insert (q : cql) : bool :=
  match q with InsertRow _ _ _ _ _ _ _ => true | _ => false end.

Definition is_partition_insert (q : cql) : bool :=
  match q with InsertPartition _ _ _ _ => true | _ => false end.

(** The processor's mutable attributes; [executed] is the sequence of
    statements the Cassandra session has been asked to execute. *)
Record Processor : Type := make {
  known_keyspaces : gset string;
  tables_initialized : gset string;
  registered_partitions : gset (string * string);
  schemas : gmap string RowSchema.t;
  known_collections : gset (string * string);
  config_key : string;
  executed : list cql
}.

Definition set_known_keyspaces (v : gset string) (p : Processor) : Processor :=
  make v (tables_initialized p) (registered_partitions p) (schemas p)
       (known_collections p) (config_key p) (executed p).

Definition set_tables_initialized (v : gset string) (p : Processor) : Processor :=
  make (known_keyspaces p) v (registered_partitions p) (schemas p)
       (known_collections p) (config_key p) (executed p).

Definition set_registered_partitions
  (v : gset (string * string)) (p : Processor) : Processor :=
  make (known_keyspaces p) (tables_initialized p) v (schemas p)
       (known_collections p) (config_key p) (executed p).

Definition set_schemas (v : gmap string RowSchema.t) (p : Processor) : Processor :=
  make (known_keyspaces p) (tables_initialized p) (registered_partitions p) v
       (known_collections p) (config_key p) (executed p).

Definition set_executed (v : list cql) (p : Processor) : Processor :=
  make (known_keyspaces p) (tables_initialized p) (registered_partitions p)
       (schemas p) (known_collections p) (config_key p) v.

(** [get_index_names]: primary fields and indexed fields, in field order. *)
Definition get_index_names (schema : RowSchema.t) : list string :=
  flat_map (fun field =>
              if Field.primary field then [Field.name field]
              else if Field.indexed field then [Field.name field]
              else []) (RowSchema.fields schema).

(** The [data_map] built for one row: every schema field that has a value. *)
Definition build_data_map
  (schema : RowSchema.t) (value_map : gmap string string) : gmap string string :=
  fold_left (fun data_map field =>
               match value_map !! Field.name field with
               | Some raw_value => <[Field.name field := raw_value]> data_map
               | None => data_map
               end) (RowSchema.fields schema) ∅.

(** State and exception monad of the handlers. *)
Definition M (A : Type) : Type := Processor -> Processor * result A.

Definition ret {A : Type} (a : A) : M A := fun st => (st, Ok a).

Definition raise {A : Type} (msg : string) : M A := fun st => (st, Raise msg).

Definition bind {A B : Type} (m : M A) (k : A -> M B) : M B :=
  fun st =>
    match m st with
    | (st', Ok a) => k a st'
    | (st', Raise msg) => (st', Raise msg)
    end.

Definition gets {A : Type} (f : Processor -> A) : M A := fun st => (st, Ok (f st)).

Definition modify (f : Processor -> Processor) : M unit := fun st => (f st, Ok tt).

(** [try: m except Exception: log] — the exception is swallowed. *)
Definition swallow (m : M unit) : M unit :=
  fun st => (fst (m st), Ok tt).

Fixpoint for_each {X : Type} (xs : list X) (body : X -> M unit) : M unit :=
  match xs with
  | [] => ret tt
  | x :: rest => bind (body x) (fun _ => for_each rest body)
  end.

Notation "x <- m ;; k" := (bind m (fun x => k))
  (at level 100, m at next level, right associativity).
Notation "m ;; k" := (bind m (fun _ => k))
  (at level 100, right associativity).

Section Handlers.

(** The Cassandra session: whether executing a statement succeeds. *)
Variable session_execute : cql -> result unit.

(** The body of the [try] in the loop of [on_schema_config]: [json.loads] of
    a schema definition (given its name and its JSON text) followed by the
    construction of the [Field]s and the [RowSchema]; [None] when it raises. *)
Variable parse_schema : string -> string -> option RowSchema.t.

Definition execute (q : cql) : M unit :=
  fun st => (set_executed (executed st ++ [q]) st, session_execute q).

Definition ensure_keyspace (keyspace : string) : M unit :=
  known <- gets known_keyspaces ;;
  if bool_decide (keyspace ∈ known) then ret tt
  else
    let safe_keyspace := sanitize_name keyspace in
    execute (CreateKeyspace safe_keyspace) ;;
    modify (fun st => set_known_keyspaces ({[keyspace]} ∪ known_keyspaces st) st).

Definition ensure_tables (keyspace : string) : M unit :=
  initialized <- gets tables_initialized ;;
  if bool_decide (keyspace ∈ initialized) then ret tt
  else
    ensure_keyspace keyspace ;;
    let safe_keyspace := sanitize_name keyspace in
    execute (CreateRowsTable safe_keyspace) ;;
    execute (CreatePartitionsTable safe_keyspace) ;;
    modify (fun st =>
              set_tables_initialized ({[keyspace]} ∪ tables_initialized st) st).

Definition register_partitions (keyspace collection schema_name : string) : M unit :=
  let cache_key := (collection, schema_name) in
  registered <- gets registered_partitions ;;
  if bool_decide (cache_key ∈ registered) then ret tt
  else
    known_schemas <- gets schemas ;;
    match known_schemas !! schema_name with
    | None => ret tt
    | Some schema =>
        let safe_keyspace := sanitize_name keyspace in
        let index_names := get_index_names schema in
        for_each index_names (fun index_name =>
          swallow (execute (InsertPartition safe_keyspace collection
                                            schema_name index_name))) ;;
        modify (fun st =>
          set_registered_partitions ({[cache_key]} ∪ registered_partitions st) st)
    end.

Definition on_object (obj : ExtractedObject.t) : M unit :=
  let metadata := ExtractedObject.metadata obj in
  collections <- gets known_collections ;;
  if negb (collection_exists collections (Metadata.user metadata)
                             (Metadata.collection metadata))
  then raise ("Collection " ++ Metadata.collection metadata ++
              " does not exist. Create it first via collection management API.")
  else
    known_schemas <- gets schemas ;;
    match known_schemas !! ExtractedObject.schema_name obj with
    | None => ret tt
    | Some schema =>
        let keyspace := Metadata.user metadata in
        let collection := Metadata.collection metadata in
        let schema_name := ExtractedObject.schema_name obj in
        let source := default "" (Metadata.source metadata) in
        ensure_tables keyspace ;;
        register_partitions keyspace collection schema_name ;;
        let safe_keyspace := sanitize_name keyspace in
        let index_names := get_index_names schema in
        match index_names with
        | [] => ret tt
        | _ =>
            for_each (ExtractedObject.values obj) (fun value_map =>
              let data_map := build_data_map schema value_map in
              for_each index_names (fun index_name =>
                let index_value := build_index_value value_map index_name in
                if skip_index_value index_value then ret tt
                else execute (InsertRow safe_keyspace collection schema_name
                                        index_name index_value data_map source)))
        end
    end.

(** [old.symmetric_difference(new)] *)
Definition symmetric_difference (a b : gset string) : gset string :=
  (a ∖ b) ∪ (b ∖ a).

Definition on_schema_config
  (config : gmap string (gmap string string)) (st : Processor) : Processor :=
  let old_schema_names := dom (schemas st) in
  let st := set_schemas ∅ st in
  match config !! config_key st with
  | None => st
  | Some schemas_config =>
      let st := set_schemas (map_imap parse_schema schemas_config) st in
      let new_schema_names := dom (schemas st) in
      let changed_schemas := symmetric_difference old_schema_names new_schema_names in
      if bool_decide (changed_schemas = ∅) then st
      else
        set_registered_partitions
          (filter (fun '(col, sch) => sch ∉ changed_schemas)
                  (registered_partitions st)) st
  end.

End Handlers.

End RowsWrite.

(** ** Python [range] and slices *)

(** [range(0, stop, step)]: raises for a zero step. *)
Definition py_range0 (stop step : Z) : result (list Z) :=
  if (step =? 0)%Z then Raise "range() arg 3 must not be zero"
  else
    let count :=
      if (0 <? step)%Z then Z.max 0 ((stop + step - 1) / step)
      else Z.max 0 ((- stop - step - 1) / (- step)) in
    Ok (map (fun k => (Z.of_nat k * step)%Z) (seq 0 (Z.to_nat count))).

(** A slice bound clamped to [0, n], negative bounds counted from the end. *)
Definition slice_index (n i : Z) : Z :=
  if (i <? 0)%Z then Z.max (i + n) 0 else Z.min i n.

(** [l[i:j]] *)
Definition py_slice {A : Type} (l : list A) (i j : Z) : list A :=
  let n := Z.of_nat (length l) in
  let lo := slice_index n i in
  let hi := slice_index n j in
  take (Z.to_nat (hi - lo)) (drop (Z.to_nat lo) l).

(** ** Row embeddings computer (embeddings/row_embeddings/embeddings.py) *)

Module RowEmbeddingsCompute.

Definition default_batch_size : Z := 10.

Record Processor : Type := make {
  batch_size : Z;
  config_key : string;
  schemas : gmap string RowSchema.t;
  known_collections : gset (string * string)
}.

Definition get_index_names (schema : RowSchema.t) : list string :=
  flat_map (fun field =>
              if Field.primary field || Field.indexed field
              then [Field.name field] else [])
           (RowSchema.fields schema).

Definition build_text_for_embedding (index_value : list string) : string :=
  Py.join " " index_value.

(** [texts_to_embed]: a dict in insertion order, text -> (index_name,
    index_value). *)
Definition text_dict : Type := list (string * (string * list string)).

(** [text in texts_to_embed] *)
Definition dict_mem (text : string) (d : text_dict) : bool :=
  existsb (fun entry => String.eqb (fst entry) text) d.

(** The body of the inner loop that collects the texts. *)
Definition collect_index
  (value_map : gmap string string) (texts_to_embed : text_dict)
  (index_name : string) : text_dict :=
  let index_value := build_index_value value_map index_name in
  if skip_index_value index_value then texts_to_embed
  else
    let text := build_text_for_embedding index_value in
    if Py.truthy text && negb (dict_mem text texts_to_embed)
    then (texts_to_embed ++ [(text, (index_name, index_value))])%list
    else texts_to_embed.

Definition collect_texts
  (index_names : list string) (values : list (gmap string string)) : text_dict :=
  fold_left (fun texts_to_embed value_map =>
               fold_left (collect_index value_map) index_names texts_to_embed)
            values [].

(** What one run of [on_message] did: the texts passed to [embed], in call
    order; the [embeddings_list] built; the messages sent on "output", in
    send order; and whether the handler returned or raised. *)
Record Run : Type := mkRun {
  embed_calls : list string;
  embeddings_list : list RowIndexEmbedding.t;
  sent : list RowEmbeddings.t;
  outcome : result unit
}.

Definition dropped : Run := mkRun [] [] [] (Ok tt).

Section Handlers.

(** The embeddings service: [flow("embeddings-request").embed(text=text)]. *)
Variable embed : string -> result (list (list float)).

(** The loop that embeds every collected text; stops at the first failure. *)
Fixpoint embed_all (items : text_dict)
  : list string * list RowIndexEmbedding.t * result unit :=
  match items with
  | [] => ([], [], Ok tt)
  | (text, (index_name, index_value)) :: rest =>
      match embed text with
      | Raise msg => ([text], [], Raise msg)
      | Ok vectors =>
          let '(calls, embeddings, r) := embed_all rest in
          (text :: calls,
           RowIndexEmbedding.make index_name index_value text vectors :: embeddings,
           r)
      end
  end.

Definition on_message (obj : ExtractedObject.t) (st : Processor) : Run :=
  let metadata := ExtractedObject.metadata obj in
  if negb (collection_exists (known_collections st) (Metadata.user metadata)
                             (Metadata.collection metadata))
  then dropped
  else
    match schemas st !! ExtractedObject.schema_name obj with
    | None => dropped
    | Some schema =>
        let index_names := get_index_names schema in
        match index_names with
        | [] => dropped
        | _ =>
            let texts_to_embed :=
              collect_texts index_names (ExtractedObject.values obj) in
            match texts_to_embed with
            | [] => dropped
            | _ =>
                let '(calls, embeddings_list, r) := embed_all texts_to_embed in
                match r with
                | Raise msg => mkRun calls embeddings_list [] (Raise msg)
                | Ok _ =>
                    match py_range0 (Z.of_nat (length embeddings_list))
                                    (batch_size st) with
                    | Raise msg => mkRun calls embeddings_list [] (Raise msg)
                    | Ok starts =>
                        mkRun calls embeddings_list
                          (map (fun i =>
                                  RowEmbeddings.make metadata
                                    (ExtractedObject.schema_name obj)
                                    (py_slice embeddings_list i
                                              (i + batch_size st)))
                               starts)
                          (Ok tt)
                    end
                end
            end
        end
    end.

End Handlers.

End RowEmbeddingsCompute.

(** ** Row embeddings writer for Qdrant (storage/row_embeddings/qdrant/write.py) *)

Module RowEmbeddingsWrite.

Inductive Distance : Type := COSINE | EUCLID | DOT.

Record VectorParams : Type := mkVectorParams {
  size : Z;
  distance : Distance
}.

(** A point as passed to [upsert]; [id] stands for [str(uuid.uuid4())], drawn
    from a supply of identifiers that never repeats. *)
Record PointStruct : Type := mkPoint {
  id : nat;
  vector : list float;
  payload_index_name : string;
  payload_index_value : list string;
  payload_text : string
}.

(** The vector store as the client sees it: the collections that exist and
    the [upsert] calls received, in order. *)
Record Qdrant : Type := mkQdrant {
  collections : gmap string VectorParams;
  upserts : list (string * PointStruct)
}.

Record Processor : Type := make {
  created_collections : gset string;
  known_collections : gset (string * string);
  qdrant : Qdrant;
  next_uuid : nat
}.

Definition get_collection_name
  (user collection schema_name : string) (dimension : Z) : string :=
  let safe_user := sanitize_name user in
  let safe_collection := sanitize_name collection in
  let safe_schema := sanitize_name schema_name in
  "rows_" ++ safe_user ++ "_" ++ safe_collection ++ "_" ++ safe_schema ++ "_"
          ++ Py.str_of_int dimension.

Definition ensure_collection
  (collection_name : string) (dimension : Z) (st : Processor) : Processor :=
  if bool_decide (collection_name ∈ created_collections st) then st
  else
    let store := qdrant st in
    let store :=
      match collections store !! collection_name with
      | Some _ => store
      | None =>
          mkQdrant (<[collection_name := mkVectorParams dimension COSINE]>
                      (collections store))
                   (upserts store)
      end in
    make ({[collection_name]} ∪ created_collections st)
         (known_collections st) store (next_uuid st).

Definition upsert
  (collection_name : string) (vector : list float)
  (row_emb : RowIndexEmbedding.t) (st : Processor) : Processor :=
  let point := mkPoint (next_uuid st) vector
                       (RowIndexEmbedding.index_name row_emb)
                       (RowIndexEmbedding.index_value row_emb)
                       (RowIndexEmbedding.text row_emb) in
  make (created_collections st) (known_collections st)
       (mkQdrant (collections (qdrant st))
                 (upserts (qdrant st) ++ [(collection_name, point)]))
       (S (next_uuid st)).

(** The body of the loop over one embedding's vectors; the local variable
    [qdrant_collection] is carried along with the processor. *)
Definition write_vector
  (user collection schema_name : string) (row_emb : RowIndexEmbedding.t)
  (acc : option string * Processor) (vector : list float)
  : option string * Processor :=
  let '(qdrant_collection, st) := acc in
  let dimension := Z.of_nat (length vector) in
  let '(name, st) :=
    match qdrant_collection with
    | None =>
        let name := get_collection_name user collection schema_name dimension in
        (name, ensure_collection name dimension st)
    | Some name => (name, st)
    end in
  (Some name, upsert name vector row_emb st).

Definition write_embedding
  (user collection schema_name : string)
  (acc : option string * Processor) (row_emb : RowIndexEmbedding.t)
  : option string * Processor :=
  match RowIndexEmbedding.vectors row_emb with
  | [] => acc
  | vectors =>
      fold_left (write_vector user collection schema_name row_emb) vectors acc
  end.

Definition on_embeddings (embeddings : RowEmbeddings.t) (st : Processor) : Processor :=
  let metadata := RowEmbeddings.metadata embeddings in
  if negb (collection_exists (known_collections st) (Metadata.user metadata)
                             (Metadata.collection metadata))
  then st
  else
    let user := Metadata.user metadata in
    let collection := Metadata.collection metadata in
    let schema_name := RowEmbeddings.schema_name embeddings in
    snd (fold_left (write_embedding user collection schema_name)
                   (RowEmbeddings.embeddings embeddings) (None, st)).

End RowEmbeddingsWrite.

(** ** Row embeddings query service for Qdrant
    (query/row_embeddings/qdrant/service.py) *)

Module RowEmbeddingsQuery.

Record RowEmbeddingsRequest : Type := mkRequest {
  vectors : list (list float);
  limit : Z;
  user : string;
  collection : string;
  schema_name : string;
  index_name : option string
}.

Record RowIndexMatch : Type := mkMatch {
  match_index_name : string;
  match_index_value : list string;
  match_text : string;
  match_score : float
}.

Record RowEmbeddingsResponse : Type := mkResponse {
  error : option Error.t;
  matches : list RowIndexMatch
}.

(** The payload of a stored point: each key may be missing. *)
Record Payload : Type := mkPayload {
  payload_index_name : option string;
  payload_index_value : option (list string);
  payload_text : option string
}.

Record ScoredPoint : Type := mkScoredPoint {
  payload : option Payload;
  score : float
}.

Section Service.

(** [qdrant.get_collections().collections], as the list of names. *)
Variable get_collections : result (list string).

(** [qdrant.query_points(collection_name, query, limit, with_payload=True,
    query_filter).points]; the filter is the [index_name] to match, if any. *)
Variable query_points :
  string -> list float -> Z -> option string -> result (list ScoredPoint).

Definition collection_prefix (user collection schema_name : string) : string :=
  "rows_" ++ sanitize_name user ++ "_" ++ sanitize_name collection ++ "_"
          ++ sanitize_name schema_name ++ "_".

Definition find_collection (user collection schema_name : string) : option string :=
  let prefix := collection_prefix user collection schema_name in
  match get_collections with
  | Ok all_collections =>
      let matching :=
        List.filter (fun name => Py.startswith name prefix) all_collections in
      match matching with
      | first :: _ => Some first
      | [] => None
      end
  | Raise _ => None
  end.

Definition to_match (point : ScoredPoint) : RowIndexMatch :=
  let payload := default (mkPayload None None None) (payload point) in
  mkMatch (default "" (payload_index_name payload))
          (default [] (payload_index_value payload))
          (default "" (payload_text payload))
          (score point).

(** The loop over the query vectors; a failing search raises. *)
Fixpoint query_vectors
  (qdrant_collection : string) (request : RowEmbeddingsRequest)
  (vecs : list (list float)) (matches : list RowIndexMatch)
  : result (list RowIndexMatch) :=
  match vecs with
  | [] => Ok matches
  | vec :: rest =>
      let query_filter :=
        match index_name request with
        | Some name => if Py.truthy name then Some name else None
        | None => None
        end in
      match query_points qdrant_collection vec (limit request) query_filter with
      | Raise msg => Raise msg
      | Ok search_result =>
          query_vectors qdrant_collection request rest
                        (matches ++ map to_match search_result)
      end
  end.

Definition query_row_embeddings
  (request : RowEmbeddingsRequest) : result (list RowIndexMatch) :=
  let matches := [] in
  match find_collection (user request) (collection request)
                        (schema_name request) with
  | None => Ok matches
  | Some qdrant_collection =>
      if negb (Py.truthy qdrant_collection) then Ok matches
      else query_vectors qdrant_collection request (vectors request) matches
  end.

(** [on_message]: the response sent on "response". *)
Definition on_message (request : RowEmbeddingsRequest) : RowEmbeddingsResponse :=
  match query_row_embeddings request with
  | Ok matches => mkResponse None matches
  | Raise msg =>
      mkResponse (Some (Error.make "row-embeddings-query-error" msg)) []
  end.

End Service.

End RowEmbeddingsQuery.

(** ** GraphQL filter normalisation (query/graphql/filters.py) *)

(** Values a filter can carry: a string, an int, a float, or a list of
    those; [VNone] for an absent value. *)
Inductive scalar : Type :=
| SStr (s : string)
| SInt (n : Z)
| SFloat (x : float).

Inductive pyval : Type :=
| VNone
| VScalar (a : scalar)
| VList (items : list scalar).

Module Filters.

(** The key under which [parse_where_clause] stores one operator of a
    filter object; [None] for an attribute it does not map. *)
Definition condition_key (field_name operator : string) : option string :=
  if String.eqb operator "eq" then Some field_name
  else if existsb (String.eqb operator) ["gt"; "gte"; "lt"; "lte"]
  then Some (field_name ++ "_" ++ operator)
  else if String.eqb operator "in_" then Some (field_name ++ "_in")
  else if String.eqb operator "contains" then Some (field_name ++ "_contains")
  else if String.eqb operator "startsWith" then Some (field_name ++ "_startsWith")
  else if String.eqb operator "endsWith" then Some (field_name ++ "_endsWith")
  else if String.eqb operator "not_" then Some (field_name ++ "_not")
  else if String.eqb operator "not_in" then Some (field_name ++ "_not_in")
  else None.

(** A filter object ([StringFilter], [IntFilter], [FloatFilter]): its
    attributes in declaration order. *)
Definition filter_obj : Type := list (string * pyval).

Definition add_operator
  (field_name : string) (conditions : gmap string pyval)
  (attr : string * pyval) : gmap string pyval :=
  match snd attr with
  | VNone => conditions
  | value =>
      match condition_key field_name (fst attr) with
      | Some key => <[key := value]> conditions
      | None => conditions
      end
  end.

Definition add_field
  (conditions : gmap string pyval) (entry : string * option filter_obj)
  : gmap string pyval :=
  match snd entry with
  | None => conditions
  | Some obj => fold_left (add_operator (fst entry)) obj conditions
  end.

(** [parse_where_clause]: the where object is the list of its attributes
    (field name, filter object or [None]). *)
Definition parse_where_clause
  (where_obj : option (list (string * option filter_obj))) : gmap string pyval :=
  match where_obj with
  | None => ∅
  | Some attrs => fold_left add_field attrs ∅
  end.

End Filters.

(** ** Row query service (query/rows/cassandra/service.py) *)

Module RowsQuery.

Inductive SortDirection : Type := ASC | DESC.

(** The two queries the service sends to Cassandra: the direct read of one
    index value (with its LIMIT clause, if any) and the ALLOW FILTERING scan
    of one index partition. *)
Inductive select : Type :=
| DirectRead (safe_keyspace collection schema_name index_name : string)
    (index_value : list string) (limit_clause : option Z)
| ScanRead (safe_keyspace collection schema_name index_name : string).

(** A result row: the [data] map (absent for an empty map) and [source]. *)
Record Row : Type := mkRow {
  data : option (gmap string string);
  source : string
}.

Inductive operator : Type := Eq | Gt | Gte | Lt | Lte | Contains | In.

(** The list [['gt', 'gte', 'lt', 'lte', 'contains', 'in']] of the key parse. *)
Definition recognised_suffixes : list string :=
  ["gt"; "gte"; "lt"; "lte"; "contains"; "in"].

(** Membership of the suffix in [recognised_suffixes], with the operator it
    names. *)
Definition known_operator (suffix : string) : option operator :=
  if String.eqb suffix "gt" then Some Gt
  else if String.eqb suffix "gte" then Some Gte
  else if String.eqb suffix "lt" then Some Lt
  else if String.eqb suffix "lte" then Some Lte
  else if String.eqb suffix "contains" then Some Contains
  else if String.eqb suffix "in" then Some In
  else None.

(** The parse of a filter key at the head of the loop of [_matches_filters]. *)
Definition split_filter_key (filter_key : string) : string * operator :=
  if Py.has_char "_" filter_key then
    match Py.rsplit1 "_" filter_key with
    | Some (part0, part1) =>
        match known_operator part1 with
        | Some op => (part0, op)
        | None => (filter_key, Eq)
        end
    | None => (filter_key, Eq)
    end
  else (filter_key, Eq).

(** [dict(row.data) if row.data else {}] *)
Definition row_dict_of (row : Row) : gmap string string :=
  match data row with
  | Some d => d
  | None => ∅
  end.

(** Truthiness of [limit] (an optional int). *)
Definition limit_truthy (limit : option Z) : bool :=
  match limit with
  | Some n => negb (n =? 0)%Z
  | None => false
  end.

(** The execution result of the GraphQL engine. *)
Record GraphQLError : Type := mkGraphQLError {
  gql_message : string;
  gql_path : list string;
  gql_extensions : gmap string string
}.

Record RowsQueryRequest : Type := mkRequest {
  user : string;
  collection : string;
  query : string;
  variables : gmap string string;
  operation_name : option string
}.

Record RowsQueryResponse : Type := mkResponse {
  error : option Error.t;
  response_data : option string;
  errors : list GraphQLError;
  extensions : gmap string string
}.

(** The schema [GraphQLSchemaBuilder.build] generates: one query field per
    registered row schema. *)
Record GraphQLSchema : Type := mkGraphQLSchema {
  query_fields : gmap string RowSchema.t
}.

(** [GraphQLSchemaBuilder.build]: [None] when no schemas are loaded. *)
Definition build (builder_schemas : gmap string RowSchema.t) : option GraphQLSchema :=
  if bool_decide (builder_schemas = ∅) then None
  else Some (mkGraphQLSchema builder_schemas).

Record Processor : Type := make {
  config_key : string;
  schemas : gmap string RowSchema.t;
  builder_schemas : gmap string RowSchema.t;
  graphql_schema : option GraphQLSchema
}.

(** The state [__init__] leaves. *)
Definition init (config_key : string) : Processor := make config_key ∅ ∅ None.

Section Service.

(** [str(x)] for a float and for a list. *)
Variable float_str : float -> string.
Variable list_str : list scalar -> string.

(** [float(s)] for a string ([None]: ValueError) and for an int. *)
Variable float_of_str : string -> option float.
Variable float_of_int : Z -> float.

(** The Cassandra session: the rows a query returns, or the exception. *)
Variable session_execute : select -> result (list Row).

(** [results.sort(key=lambda x: x.get(order_by, ""), reverse=reverse_order)]
    inside its [try]: the list as the call leaves it. *)
Variable sort_results :
  string -> option SortDirection -> list (gmap string string) ->
  list (gmap string string).

(** JSON values of GraphQL results, with [json.dumps] and truthiness. *)
Variable Json : Type.
Variable json_dumps : Json -> string.
Variable json_truthy : Json -> bool.

Record ExecutionResult : Type := mkExecutionResult {
  result_data : option Json;
  result_errors : list GraphQLError;
  result_extensions : option (gmap string string)
}.

(** [graphql_schema.execute(query, variable_values, operation_name,
    context_value)] of the GraphQL engine, which may raise. *)
Variable graphql_execute :
  GraphQLSchema -> string -> gmap string string -> option string ->
  string -> string -> result ExecutionResult.

(** The body of the [try] in the loop of [on_schema_config], as in the
    writer; the GraphQL types of a parsed schema are taken to be generated
    without error. *)
Variable parse_schema : string -> string -> option RowSchema.t.

Definition str_scalar (a : scalar) : string :=
  match a with
  | SStr s => s
  | SInt n => Py.str_of_int n
  | SFloat x => float_str x
  end.

(** [str(value)] *)
Definition py_str (value : pyval) : string :=
  match value with
  | VNone => "None"
  | VScalar a => str_scalar a
  | VList items => list_str items
  end.

(** [float(value)]; [None] when it raises ValueError or TypeError. *)
Definition py_float (value : pyval) : option float :=
  match value with
  | VScalar (SStr s) => float_of_str s
  | VScalar (SInt n) => Some (float_of_int n)
  | VScalar (SFloat x) => Some x
  | VList _ => None
  | VNone => None
  end.

(** [[str(v) for v in value]]; [None] when the value is not iterable. *)
Definition str_items (value : pyval) : option (list string) :=
  match value with
  | VList items => Some (map str_scalar items)
  | VScalar (SStr s) =>
      Some (map (fun c => String c EmptyString) (list_ascii_of_string s))
  | VScalar _ => None
  | VNone => None
  end.

Definition get_index_names (schema : RowSchema.t) : list string :=
  flat_map (fun field =>
              if Field.primary field || Field.indexed field
              then [Field.name field] else [])
           (RowSchema.fields schema).

(** The loop of [find_matching_index] over the index names. *)
Fixpoint first_filtered_index
  (index_names : list string) (filters : gmap string pyval)
  : option (string * list string) :=
  match index_names with
  | [] => None
  | index_name :: rest =>
      match filters !! index_name with
      | Some value => Some (index_name, [py_str value])
      | None => first_filtered_index rest filters
      end
  end.

Definition find_matching_index
  (schema : RowSchema.t) (filters : gmap string pyval)
  : option (string * list string) :=
  first_filtered_index (get_index_names schema) filters.

(** A comparison of [float(row_value)] with [float(filter_value)]; the row
    is rejected when either conversion raises or [reject] holds. *)
Definition compare_floats
  (reject : float -> float -> bool) (row_value : string) (filter_value : pyval)
  : bool :=
  match float_of_str row_value, py_float filter_value with
  | Some a, Some b => negb (reject a b)
  | _, _ => false
  end.

(** One iteration of the loop of [_matches_filters]: [true] when the loop
    goes on, [false] when it returns False. *)
Definition filter_passes
  (row_dict : gmap string string) (filter_key : string) (filter_value : pyval)
  : bool :=
  match filter_value with
  | VNone => true
  | _ =>
      let '(field_name, op) := split_filter_key filter_key in
      match row_dict !! field_name with
      | None => false
      | Some row_value =>
          match op with
          | Eq => String.eqb row_value (py_str filter_value)
          | Gt => compare_floats PrimFloat.leb row_value filter_value
          | Gte => compare_floats PrimFloat.ltb row_value filter_value
          | Lt => compare_floats (fun a b => PrimFloat.leb b a) row_value filter_value
          | Lte => compare_floats (fun a b => PrimFloat.ltb b a) row_value filter_value
          | Contains => Py.contains row_value (py_str filter_value)
          | In =>
              match str_items filter_value with
              | Some items => existsb (String.eqb row_value) items
              | None => false
              end
          end
      end
  end.

Definition _matches_filters
  (row_dict : gmap string string) (filters : gmap string pyval)
  (row_schema : RowSchema.t) : bool :=
  forallb (fun item => filter_passes row_dict (fst item) (snd item))
          (map_to_list filters).

(** The scan loop: post-filter each row, stop once [limit] rows matched. *)
Fixpoint scan_rows
  (filters : gmap string pyval) (row_schema : RowSchema.t) (limit : option Z)
  (rows : list Row) (results : list (gmap string string))
  : list (gmap string string) :=
  match rows with
  | [] => results
  | row :: rest =>
      let row_dict := row_dict_of row in
      if _matches_filters row_dict filters row_schema then
        let results := (results ++ [row_dict])%list in
        if limit_truthy limit
           && (default 0 limit <=? Z.of_nat (length results))%Z
        then results
        else scan_rows filters row_schema limit rest results
      else scan_rows filters row_schema limit rest results
  end.

Definition sort_if_requested
  (order_by : option string) (direction : option SortDirection)
  (results : list (gmap string string)) : list (gmap string string) :=
  match order_by, results with
  | Some field, _ :: _ =>
      if Py.truthy field then sort_results field direction results else results
  | _, _ => results
  end.

(** [query_cassandra]: the queries sent to the session, and the rows
    returned (or the exception raised). *)
Definition query_cassandra
  (user collection schema_name : string) (row_schema : RowSchema.t)
  (filters : gmap string pyval) (limit : option Z)
  (order_by : option string) (direction : option SortDirection)
  : list select * result (list (gmap string string)) :=
  let safe_keyspace := sanitize_name user in
  match find_matching_index row_schema filters with
  | Some (index_name, index_value) =>
      let q := DirectRead safe_keyspace collection schema_name index_name
                          index_value
                          (if limit_truthy limit then limit else None) in
      match session_execute q with
      | Raise msg => ([q], Raise msg)
      | Ok rows =>
          ([q], Ok (sort_if_requested order_by direction (map row_dict_of rows)))
      end
  | None =>
      match get_index_names row_schema with
      | [] => ([], Ok [])
      | primary_index :: _ =>
          let q := ScanRead safe_keyspace collection schema_name primary_index in
          match session_execute q with
          | Raise msg => ([q], Raise msg)
          | Ok rows =>
              ([q], Ok (sort_if_requested order_by direction
                          (scan_rows filters row_schema limit rows [])))
          end
      end
  end.

Definition on_schema_config
  (config : gmap string (gmap string string)) (st : Processor) : Processor :=
  let st := make (config_key st) ∅ ∅ (graphql_schema st) in
  match config !! config_key st with
  | None => st
  | Some schemas_config =>
      let loaded := map_imap parse_schema schemas_config in
      make (config_key st) loaded loaded (build loaded)
  end.

(** The dict [execute_graphql_query] returns. *)
Record QueryResult : Type := mkQueryResult {
  qr_data : option Json;
  qr_errors : list GraphQLError;
  qr_extensions : option (gmap string string)
}.

Definition execute_graphql_query
  (st : Processor) (query : string) (variables : gmap string string)
  (operation_name : option string) (user collection : string)
  : result QueryResult :=
  match graphql_schema st with
  | None => Raise "No GraphQL schema available - no schemas loaded"
  | Some schema =>
      match graphql_execute schema query variables operation_name
                            user collection with
      | Raise msg => Raise msg
      | Ok r =>
          let data :=
            match result_data r with
            | Some d => if json_truthy d then Some d else None
            | None => None
            end in
          let extensions :=
            match result_extensions r with
            | Some e => if bool_decide (e = ∅) then None else Some e
            | None => None
            end in
          Ok (mkQueryResult data (result_errors r) extensions)
      end
  end.

(** [on_message]: the response sent on "response". *)
Definition on_message (st : Processor) (request : RowsQueryRequest)
  : RowsQueryResponse :=
  match execute_graphql_query st (query request) (variables request)
                              (operation_name request)
                              (user request) (collection request) with
  | Ok r =>
      mkResponse None
                 (Some (match qr_data r with
                        | Some d => json_dumps d
                        | None => "null"
                        end))
                 (qr_errors r)
                 (default ∅ (qr_extensions r))
  | Raise msg =>
      mkResponse (Some (Error.make "rows-query-error" msg)) None [] ∅
  end.

End Service.

End RowsQuery.

(** ** Vocabulary of the specification *)

(** An active index: a field with [primary] or [indexed] set. *)
Definition active_index (field : Field.t) : bool :=
  Field.primary field || Field.indexed field.

(** The rows a scan keeps: those passing the post-filter, in order, up to
    the limit when there is one (a single row for a negative limit). *)
Definition post_filtered
  (passes : gmap string string -> bool) (limit : option Z)
  (rows : list (gmap string string)) : list (gmap string string) :=
  let matched := List.filter passes rows in
  if RowsQuery.limit_truthy limit
  then take (Z.to_nat (Z.max (default 0%Z limit) 1)) matched
  else matched.

(** The statements an accepted write adds to the session, by table.
    [log] appends statements to the session's record. *)
Module WriterSpec.
Import RowsWrite.

Definition log (qs : list cql) (st : Processor) : Processor :=
  set_executed (executed st ++ qs) st.

(** Keyspace and table creation, for a keyspace not yet initialised. *)
Definition setup_statements (st : Processor) (keyspace : string) : list cql :=
  if bool_decide (keyspace ∈ tables_initialized st) then []
  else
    (if bool_decide (keyspace ∈ known_keyspaces st) then []
     else [CreateKeyspace (sanitize_name keyspace)])
    ++ [CreateRowsTable (sanitize_name keyspace);
        CreatePartitionsTable (sanitize_name keyspace)].

(** One [row_partitions] insert per active index of the schema. *)
Definition partition_inserts
  (keyspace collection schema_name : string) (schema : RowSchema.t) : list cql :=
  map (fun field =>
         InsertPartition (sanitize_name keyspace) collection schema_name
                         (Field.name field))
      (List.filter active_index (RowSchema.fields schema)).

(** The [index_value] of a row for a single-field index. *)
Definition index_value_of
  (value_map : gmap string string) (field : Field.t) : list string :=
  build_index_value value_map (Field.name field).

(** The active indexes of a row whose index value is not entirely empty. *)
Definition non_empty_indexes
  (schema : RowSchema.t) (value_map : gmap string string) : list Field.t :=
  List.filter (fun field => negb (all_empty (index_value_of value_map field)))
              (List.filter active_index (RowSchema.fields schema)).

(** One [rows] insert per row and per non-empty index of that row. *)
Definition row_inserts
  (keyspace collection schema_name source : string) (schema : RowSchema.t)
  (values : list (gmap string string)) : list cql :=
  flat_map (fun value_map =>
              map (fun field =>
                     InsertRow (sanitize_name keyspace) collection schema_name
                               (Field.name field)
                               (index_value_of value_map field)
                               (build_data_map schema value_map) source)
                  (non_empty_indexes schema value_map))
           values.

End WriterSpec.

(** The index values a batch offers for embedding. *)
Module ComputeSpec.
Import RowEmbeddingsCompute.

(** The (index_name, index_value) pairs of a batch in iteration order — rows,
    then indexes — without the entirely empty index values. *)
Definition observed
  (index_names : list string) (values : list (gmap string string))
  : list (string * list string) :=
  flat_map (fun value_map =>
              flat_map (fun index_name =>
                          let index_value :=
                            build_index_value value_map index_name in
                          if all_empty index_value then []
                          else [(index_name, index_value)])
                       index_names)
           values.

(** The text of a pair: the space-join of its index value. *)
Definition text_of (pair : string * list string) : string :=
  build_text_for_embedding (snd pair).

(** The first pair observed with a given text. *)
Definition first_observed
  (text : string) (pairs : list (string * list string))
  : option (string * list string) :=
  List.find (fun pair => String.eqb (text_of pair) text) pairs.

End ComputeSpec.

(** The vectors a row embeddings message carries, and where they go. *)
Module EmbeddingsWriteSpec.
Import RowEmbeddingsWrite.

(** The vectors of a message, each with its embedding, in processing order. *)
Definition all_vectors
  (embeddings : list RowIndexEmbedding.t)
  : list (RowIndexEmbedding.t * list float) :=
  flat_map (fun row_emb =>
              map (fun vector => (row_emb, vector))
                  (RowIndexEmbedding.vectors row_emb))
           embeddings.

(** The dimension of a vector. *)
Definition dimension_of (vector : list float) : Z := Z.of_nat (length vector).

(** The point stored for the [i]th vector of a message. *)
Definition point_of
  (first_id i : nat) (item : RowIndexEmbedding.t * list float) : PointStruct :=
  mkPoint (first_id + i) (snd item)
          (RowIndexEmbedding.index_name (fst item))
          (RowIndexEmbedding.index_value (fst item))
          (RowIndexEmbedding.text (fst item)).

(** Upserting every vector of a list into one collection. *)
Definition upsert_all
  (collection_name : string) (items : list (RowIndexEmbedding.t * list float))
  (st : Processor) : Processor :=
  fold_left (fun st item => upsert collection_name (snd item) (fst item) st)
            items st.

End EmbeddingsWriteSpec.

(** ** Scenario data (the customer_records schema of the specification) *)

Module Scenario.

Definition field (name : string) (primary indexed required : bool) : Field.t :=
  Field.make name "string" 0 primary "" required [] indexed.

(** [customer_records]: customer_id primary, name required, email indexed,
    age plain. *)
Definition customer_records : RowSchema.t :=
  RowSchema.make "customer_records" ""
    [field "customer_id" true false false; field "name" false false true;
     field "email" false true false; field "age" false false false].

(** An earlier definition of the same schema, before email was indexed. *)
Definition customer_records_v1 : RowSchema.t :=
  RowSchema.make "customer_records" ""
    [field "customer_id" true false false; field "name" false false true;
     field "email" false false false; field "age" false false false].

Definition john : gmap string string :=
  {[ "customer_id" := "CUST001"; "name" := "John Doe";
     "email" := "john@example.com"; "age" := "30" ]}.

Definition metadata : Metadata.t := Metadata.make "doc-1" "tenant" "col" None.

Definition one_customer : ExtractedObject.t :=
  ExtractedObject.make metadata "customer_records" [john] 1%float "".

(** JSON text, written with apostrophes for the double quotes. *)
Definition json_text (s : string) : string :=
  Py.map_chars (fun c => if Ascii.eqb c "'" then ascii_of_nat 34 else c) s.

Definition customer_records_json : string :=
  json_text ("{'name': 'customer_records', 'fields': [" ++
             "{'name': 'customer_id', 'type': 'string', 'primary_key': true}, " ++
             "{'name': 'name', 'type': 'string', 'required': true}, " ++
             "{'name': 'email', 'type': 'string', 'indexed': true}, " ++
             "{'name': 'age', 'type': 'string'}]}").

Definition customer_records_v1_json : string :=
  json_text ("{'name': 'customer_records', 'fields': [" ++
             "{'name': 'customer_id', 'type': 'string', 'primary_key': true}, " ++
             "{'name': 'name', 'type': 'string', 'required': true}, " ++
             "{'name': 'email', 'type': 'string'}, " ++
             "{'name': 'age', 'type': 'string'}]}").

(** The schema parser on the two texts above. *)
Definition parse_schema (schema_name json : string) : option RowSchema.t :=
  if String.eqb json customer_records_json then Some customer_records
  else if String.eqb json customer_records_v1_json then Some customer_records_v1
  else None.

(** A store that accepts every statement. *)
Definition accept_all (q : RowsWrite.cql) : result unit := Ok tt.

(** A writer just started, holding one schema under customer_records and
    knowing the collection (tenant, col). *)
Definition fresh_writer (schema : RowSchema.t) : RowsWrite.Processor :=
  RowsWrite.make ∅ ∅ ∅ {[ "customer_records" := schema ]}
                 {[ ("tenant", "col") ]} "schema" [].

(** The writer after one write for (col, customer_records). *)
Definition writer_after_write (schema : RowSchema.t) : RowsWrite.Processor :=
  fst (RowsWrite.on_object accept_all one_customer (fresh_writer schema)).

(** A writer that has served one write for (col, customer_records) under the
    earlier schema definition. *)
Definition writer_after_first_write : RowsWrite.Processor :=
  writer_after_write customer_records_v1.

(** The configuration update that redefines customer_records with the email
    index. *)
Definition config_with_email_index : gmap string (gmap string string) :=
  {[ "schema" := {[ "customer_records" := customer_records_json ]} ]}.

(** A second customer sharing John's e-mail address, and a batch of both. *)
Definition jane : gmap string string :=
  {[ "customer_id" := "CUST002"; "name" := "Jane Doe";
     "email" := "john@example.com" ]}.

Definition two_customers : ExtractedObject.t :=
  ExtractedObject.make metadata "customer_records" [john; jane] 1%float "".

(** The embeddings computer with the default batch size, and an embeddings
    service that answers every text with one two-dimensional vector. *)
Definition computer : RowEmbeddingsCompute.Processor :=
  RowEmbeddingsCompute.make RowEmbeddingsCompute.default_batch_size "schema"
    {[ "customer_records" := customer_records ]} {[ ("tenant", "col") ]}.

Definition embed (text : string) : result (list (list float)) :=
  Ok [[0.5%float; 0.25%float]].

(** The embeddings writer just started, on an empty vector store. *)
Definition embeddings_writer : RowEmbeddingsWrite.Processor :=
  RowEmbeddingsWrite.make ∅ {[ ("tenant", "col") ]}
                          (RowEmbeddingsWrite.mkQdrant ∅ []) 0.

(** A message whose embedding carries a two-dimensional and a
    three-dimensional vector (two embedding models). *)
Definition mixed_dimensions : RowEmbeddings.t :=
  RowEmbeddings.make metadata "customer_records"
    [RowIndexEmbedding.make "email" ["john@example.com"] "john@example.com"
       [[0.5%float; 0.25%float]; [0.5%float; 0.25%float; 0.125%float]]].

(** The semantic request of scenario S7, against a store holding only a
    collection of another schema. *)
Definition email_request : RowEmbeddingsQuery.RowEmbeddingsRequest :=
  RowEmbeddingsQuery.mkRequest [[0.5%float; 0.25%float]] 5 "tenant" "col"
                               "customer_records" (Some "email").

Definition other_collections : result (list string) :=
  Ok ["rows_tenant_col_orders_2"].

Definition no_points
  (collection_name : string) (vec : list float) (limit : Z)
  (index_name : option string)
  : result (list RowEmbeddingsQuery.ScoredPoint) := Ok [].

(** The GraphQL request of scenario S5. *)
Definition graphql_request : RowsQuery.RowsQueryRequest :=
  RowsQuery.mkRequest "tenant" "col" "{ customer_records { customer_id name } }"
                      ∅ None.

(** Parameters of the query service for the scenarios: no float is printed
    or parsed in them, the session returns John's row, and no sort is
    requested. *)
Definition float_str (x : float) : string := "".
Definition list_str (items : list scalar) : string := "".
Definition float_of_str (s : string) : option float := None.
Definition float_of_int (n : Z) : float := 0%float.
Definition session (q : RowsQuery.select) : result (list RowsQuery.Row) :=
  Ok [RowsQuery.mkRow (Some john) ""].
Definition keep_order
  (order_by : string) (direction : option RowsQuery.SortDirection)
  (rows : list (gmap string string)) : list (gmap string string) := rows.
Definition no_execution
  (schema : RowsQuery.GraphQLSchema) (query : string)
  (variables : gmap string string) (operation_name : option string)
  (user collection : string)
  : result (RowsQuery.ExecutionResult string) := Raise "not reached".

End Scenario.

(** ** The rest of the processors *)

(** More string primitives. *)
Module PyMore.

(** [s[::-1]] *)
Fixpoint reverse (s : string) : string :=
  match s with
  | EmptyString => EmptyString
  | String c r => reverse r ++ String c EmptyString
  end.

(** [s.endswith(suffix)]: the suffix read backwards starts [s] read
    backwards. *)
Definition endswith (s suffix : string) : bool :=
  Py.startswith (reverse s) (reverse suffix).

(** [s[k:]] for [0 <= k]. *)
Fixpoint drop_chars (k : nat) (s : string) : string :=
  match k, s with
  | O, _ => s
  | S k', String _ r => drop_chars k' r
  | S _, EmptyString => EmptyString
  end.

(** [s[:-k]] for [0 < k]. *)
Definition drop_last (k : nat) (s : string) : string :=
  reverse (drop_chars k (reverse s)).

End PyMore.

(** [parse_filter_key] of query/graphql/filters.py. *)
Module FilterKeys.

(** [operators = ["_gte", "_lte", "_gt", "_lt", "_in", "_eq"]] *)
Definition operators : list string :=
  ["_gte"; "_lte"; "_gt"; "_lt"; "_in"; "_eq"].

(** The loop over the operator suffixes. *)
Fixpoint first_suffix (filter_key : string) (suffixes : list string)
  : option (string * string) :=
  match suffixes with
  | [] => None
  | op_suffix :: rest =>
      if PyMore.endswith filter_key op_suffix
      then Some (PyMore.drop_last (String.length op_suffix) filter_key,
                 PyMore.drop_chars 1 op_suffix)
      else first_suffix filter_key rest
  end.

Definition parse_filter_key (filter_key : string) : string * string :=
  if negb (Py.truthy filter_key) then ("", "eq")
  else
    match first_suffix filter_key operators with
    | Some parsed => parsed
    | None => (filter_key, "eq")
    end.

End FilterKeys.

(** The deletion protocol of the row writer ([delete_collection],
    [delete_collection_schema] and [create_collection] of write.py).  The
    statements of a deletion are returned beside the processor, in the order
    the session receives them. *)
Module RowsDelete.
Import RowsWrite.
Local Open Scope list_scope.

Inductive statement : Type :=
| SelectKeyspace (safe_keyspace : string)
| SelectPartitions (safe_keyspace collection : string)
| SelectSchemaPartitions (safe_keyspace collection schema_name : string)
| DeleteRows (safe_keyspace collection schema_name index_name : string)
| DeletePartitions (safe_keyspace collection : string)
| DeleteSchemaPartitions (safe_keyspace collection schema_name : string).

Section Protocol.

(** The answers of the session: whether [system_schema.keyspaces] holds the
    keyspace, the (schema_name, index_name) rows of [row_partitions] for a
    collection, the index_name rows for a collection and schema, and whether
    a DELETE succeeds. *)
Variable keyspace_found : string -> result bool.
Variable partitions_of : string -> string -> result (list (string * string)).
Variable schema_partitions_of : string -> string -> string -> result (list string).
Variable execute_delete : statement -> result unit.

(** A loop of DELETEs that stops at the first failure: the statements sent,
    and the outcome. *)
Fixpoint delete_each (qs : list statement) : list statement * result unit :=
  match qs with
  | [] => ([], Ok tt)
  | q :: rest =>
      match execute_delete q with
      | Raise msg => ([q], Raise msg)
      | Ok _ => let '(sent, r) := delete_each rest in (q :: sent, r)
      end
  end.

Definition delete_collection (user collection : string) (st : Processor)
  : list statement * Processor * result unit :=
  let safe_keyspace := sanitize_name user in
  let known := bool_decide (user ∈ known_keyspaces st) in
  let probe := if known then [] else [SelectKeyspace safe_keyspace] in
  match (if known then Ok true else keyspace_found safe_keyspace) with
  | Raise msg => (probe, st, Raise msg)
  | Ok false => (probe, st, Ok tt)
  | Ok true =>
      let st :=
        if known then st
        else set_known_keyspaces ({[user]} ∪ known_keyspaces st) st in
      let select := SelectPartitions safe_keyspace collection in
      match partitions_of safe_keyspace collection with
      | Raise msg => (probe ++ [select], st, Raise msg)
      | Ok partition_list =>
          let deletes :=
            map (fun partition =>
                   DeleteRows safe_keyspace collection
                              (fst partition) (snd partition))
                partition_list in
          match delete_each deletes with
          | (sent, Raise msg) => (probe ++ [select] ++ sent, st, Raise msg)
          | (sent, Ok _) =>
              let cleanup := DeletePartitions safe_keyspace collection in
              match execute_delete cleanup with
              | Raise msg =>
                  (probe ++ [select] ++ sent ++ [cleanup], st, Raise msg)
              | Ok _ =>
                  (probe ++ [select] ++ sent ++ [cleanup],
                   set_registered_partitions
                     (filter (fun '(col, sch) => col <> collection)
                             (registered_partitions st)) st,
                   Ok tt)
              end
          end
      end
  end.

Definition delete_collection_schema
  (user collection schema_name : string) (st : Processor)
  : list statement * Processor * result unit :=
  let safe_keyspace := sanitize_name user in
  let select := SelectSchemaPartitions safe_keyspace collection schema_name in
  match schema_partitions_of safe_keyspace collection schema_name with
  | Raise msg => ([select], st, Raise msg)
  | Ok partition_list =>
      let deletes :=
        map (fun index_name =>
               DeleteRows safe_keyspace collection schema_name index_name)
            partition_list in
      match delete_each deletes with
      | (sent, Raise msg) => ([select] ++ sent, st, Raise msg)
      | (sent, Ok _) =>
          let cleanup :=
            DeleteSchemaPartitions safe_keyspace collection schema_name in
          match execute_delete cleanup with
          | Raise msg => ([select] ++ sent ++ [cleanup], st, Raise msg)
          | Ok _ =>
              ([select] ++ sent ++ [cleanup],
               set_registered_partitions
                 (registered_partitions st ∖ {[(collection, schema_name)]}) st,
               Ok tt)
          end
      end
  end.

End Protocol.

(** [create_collection]: the tables of the user's keyspace are ensured. *)
Definition create_collection
  (session_execute : cql -> result unit) (user collection : string) : M unit :=
  ensure_tables session_execute user.

End RowsDelete.

(** Deletion in the row embeddings writer ([delete_collection] and
    [delete_collection_schema] of qdrant/write.py), on the vector store of
    [RowEmbeddingsWrite], whose calls succeed (the source re-raises the
    exception of a call that fails). *)
Module EmbeddingsDelete.
Import RowEmbeddingsWrite.

(** [qdrant.get_collections().collections], as the list of names. *)
Definition collection_names (store : Qdrant) : list string :=
  map fst (map_to_list (collections store)).

(** [qdrant.delete_collection(name)] followed by
    [created_collections.discard(name)]. *)
Definition drop_collection (st : Processor) (collection_name : string) : Processor :=
  make (created_collections st ∖ {[collection_name]})
       (known_collections st)
       (mkQdrant (delete collection_name (collections (qdrant st)))
                 (upserts (qdrant st)))
       (next_uuid st).

(** The body shared by the two deletions: every listed collection whose
    name starts with the prefix is deleted. *)
Definition delete_matching (prefix : string) (st : Processor) : Processor :=
  let all_collections := collection_names (qdrant st) in
  let matching_collections :=
    List.filter (fun name => Py.startswith name prefix) all_collections in
  fold_left drop_collection matching_collections st.

Definition collection_prefix (user collection : string) : string :=
  "rows_" ++ sanitize_name user ++ "_" ++ sanitize_name collection ++ "_".

Definition schema_prefix (user collection schema_name : string) : string :=
  "rows_" ++ sanitize_name user ++ "_" ++ sanitize_name collection ++ "_"
          ++ sanitize_name schema_name ++ "_".

Definition delete_collection (user collection : string) (st : Processor) : Processor :=
  delete_matching (collection_prefix user collection) st.

Definition delete_collection_schema
  (user collection schema_name : string) (st : Processor) : Processor :=
  delete_matching (schema_prefix user collection schema_name) st.

End EmbeddingsDelete.

(** [RowEmbeddingsRequestTranslator] of messaging/translators/embeddings_query.py
    and [RowEmbeddingsQueryClient.row_embeddings_query] of
    base/row_embeddings_query_client.py. *)
Module RowEmbeddingsClient.
Import RowEmbeddingsQuery.

(** The dict form of a request: each key may be missing. *)
Record RequestData : Type := mkData {
  data_vectors : option (list (list float));
  data_limit : option Z;
  data_user : option string;
  data_collection : option string;
  data_schema_name : option string;
  data_index_name : option string
}.

(** [to_pulsar]: [data["vectors"]] raises KeyError when the key is missing. *)
Definition to_pulsar (data : RequestData) : result RowEmbeddingsRequest :=
  match data_vectors data with
  | None => Raise "'vectors'"
  | Some vectors =>
      Ok (mkRequest vectors
                    (default 10%Z (data_limit data))
                    (default "trustgraph" (data_user data))
                    (default "default" (data_collection data))
                    (default "" (data_schema_name data))
                    (data_index_name data))
  end.

Definition from_pulsar (obj : RowEmbeddingsRequest) : RequestData :=
  mkData (Some (vectors obj)) (Some (limit obj)) (Some (user obj))
         (Some (collection obj)) (Some (schema_name obj))
         (match index_name obj with
          | Some name => if Py.truthy name then Some name else None
          | None => None
          end).

(** A match as the dict the client returns. *)
Record MatchDict : Type := mkMatchDict {
  dict_index_name : string;
  dict_index_value : list string;
  dict_text : string;
  dict_score : float
}.

Definition match_dict (m : RowIndexMatch) : MatchDict :=
  mkMatchDict (match_index_name m) (match_index_value m) (match_text m)
              (match_score m).

(** [row_embeddings_query]: [request] is the request/response exchange with
    the service. *)
Definition row_embeddings_query
  (request : RowEmbeddingsRequest -> result RowEmbeddingsResponse)
  (vectors : list (list float)) (schema_name user collection : string)
  (index_name : option string) (limit : Z) : result (list MatchDict) :=
  let req :=
    mkRequest vectors limit user collection schema_name
              (match index_name with
               | Some name => if Py.truthy name then Some name else None
               | None => None
               end) in
  match request req with
  | Raise msg => Raise msg
  | Ok resp =>
      match error resp with
      | Some e => Raise (Error.message e)
      | None => Ok (map match_dict (matches resp))
      end
  end.

End RowEmbeddingsClient.

(** ** Further situations *)

(** Stores, batches and requests on which the further properties are
    exercised. *)
Module Situations.


Definition reject_partitions (q : RowsWrite.cql) : result unit :=
  match q with
  | RowsWrite.InsertPartition _ _ _ _ => Raise "partition refused"
  | _ => Ok tt
  end.

Definition reject_keyspace (q : RowsWrite.cql) : result unit :=
  match q with
  | RowsWrite.CreateKeyspace _ => Raise "keyspace refused"
  | _ => Ok tt
  end.

(** A batch of a user who has no collection, and a batch of a schema the
    writer does not hold. *)
Definition stranger : ExtractedObject.t :=
  ExtractedObject.make (Metadata.make "doc-2" "nobody" "col" None)
                       "customer_records" [Scenario.john] 1%float "".

Definition orders_batch : ExtractedObject.t :=
  ExtractedObject.make Scenario.metadata "orders" [Scenario.john] 1%float "".

(** A second user with a collection of the same name, and a writer that
    knows the collections of both users. *)
Definition other_user : ExtractedObject.t :=
  ExtractedObject.make (Metadata.make "doc-3" "other" "col" None)
                       "customer_records" [Scenario.jane] 1%float "".

Definition shared_writer : RowsWrite.Processor :=
  RowsWrite.make ∅ ∅ ∅ {[ "customer_records" := Scenario.customer_records ]}
                 {[ ("tenant", "col"); ("other", "col") ]} "schema" [].

(** The answers of the store to the deletion protocol: the keyspace is
    there, the partitions of customer_records are registered, and every
    DELETE is accepted. *)
Definition keyspace_present (safe_keyspace : string) : result bool := Ok true.

Definition partitions_of (safe_keyspace collection : string)
  : result (list (string * string)) :=
  Ok [("customer_records", "customer_id"); ("customer_records", "email")].

Definition schema_partitions_of (safe_keyspace collection schema_name : string)
  : result (list string) :=
  Ok ["customer_id"; "email"].

Definition delete_accepted (q : RowsDelete.statement) : result unit := Ok tt.

(** A schema without primary or indexed field. *)
Definition notes : RowSchema.t :=
  RowSchema.make "notes" ""
    [Scenario.field "title" false false true;
     Scenario.field "body" false false false].

(** A query service that has loaded customer_records, a configuration
    push that carries other sections only, and a GraphQL engine that
    answers. *)
Definition configured_service : RowsQuery.Processor :=
  RowsQuery.make "schema"
    {[ "customer_records" := Scenario.customer_records ]}
    {[ "customer_records" := Scenario.customer_records ]}
    (Some (RowsQuery.mkGraphQLSchema
             {[ "customer_records" := Scenario.customer_records ]})).

Definition other_sections : gmap string (gmap string string) :=
  {[ "prompt" := ∅ ]}.

Definition engine_answers
  (schema : RowsQuery.GraphQLSchema) (query : string)
  (variables : gmap string string) (operation_name : option string)
  (user collection : string)
  : result (RowsQuery.ExecutionResult string) :=
  Ok (RowsQuery.mkExecutionResult string (Some "rows") [] None).

(** A where object: age greater than 21, with its eq operator unset, and
    no filter on name. *)
Definition where_age_gt : list (string * option Filters.filter_obj) :=
  [("age", Some [("eq", VNone); ("gt", VScalar (SInt 21))]); ("name", None)].

(** An embeddings service that fails on John's e-mail address, and a
    computer configured with a batch size of zero. *)
Definition embed_fails_on_email (text : string) : result (list (list float)) :=
  if String.eqb text "john@example.com" then Raise "embeddings service down"
  else Ok [[0.5%float; 0.25%float]].

Definition unbatched_computer : RowEmbeddingsCompute.Processor :=
  RowEmbeddingsCompute.make 0 "schema"
    {[ "customer_records" := Scenario.customer_records ]} {[ ("tenant", "col") ]}.

(** A vector store that lists the collection of customer_records, a search
    that finds John's e-mail address, and a search that fails. *)
Definition customer_collections : result (list string) :=
  Ok ["rows_tenant_col_orders_2"; "rows_tenant_col_customer_records_2"].

Definition john_point : RowEmbeddingsQuery.ScoredPoint :=
  RowEmbeddingsQuery.mkScoredPoint
    (Some (RowEmbeddingsQuery.mkPayload (Some "email")
             (Some ["john@example.com"]) (Some "john@example.com")))
    0.75%float.

Definition one_point
  (collection_name : string) (vec : list float) (limit : Z)
  (index_name : option string)
  : result (list RowEmbeddingsQuery.ScoredPoint) := Ok [john_point].

Definition search_down
  (collection_name : string) (vec : list float) (limit : Z)
  (index_name : option string)
  : result (list RowEmbeddingsQuery.ScoredPoint) := Raise "search failed".

End Situations.

(** * Properties *)

(** ** Name sanitisation *)

Section SanitizeFacts.

Local Ltac by_cases_on_char c :=
  destruct c as [[] [] [] [] [] [] [] []]; vm_compute; try reflexivity;
  try discriminate; intros; try discriminate; auto.

Import Py (substitute).

Lemma substitute_in_class (c : ascii) : Py.in_word_class (substitute c) = true.
Proof. by_cases_on_char c. Qed.

Lemma lower_of_word_is_ident (c : ascii) :
  Py.in_word_class c = true -> ident_char (Py.lower_char c) = true.
Proof. by_cases_on_char c. Qed.

Lemma lower_of_letter_is_lower (c : ascii) :
  Py.in_word_class c = true -> Py.isalpha c = true ->
  Py.is_lower (Py.lower_char c) = true.
Proof. by_cases_on_char c. Qed.

Lemma ident_char_substitute (c : ascii) :
  ident_char c = true -> substitute c = c.
Proof. by_cases_on_char c. Qed.

Lemma ident_char_lower (c : ascii) :
  ident_char c = true -> Py.lower_char c = c.
Proof. by_cases_on_char c. Qed.

Lemma lower_is_alpha (c : ascii) : Py.is_lower c = true -> Py.isalpha c = true.
Proof. by_cases_on_char c. Qed.

Lemma lower_is_ident (c : ascii) : Py.is_lower c = true -> ident_char c = true.
Proof. by_cases_on_char c. Qed.

Lemma re_sub_nonword_unfold (s : string) :
  Py.re_sub_nonword s = Py.map_chars substitute s.
Proof. reflexivity. Qed.

Lemma all_word_after_sub (s : string) :
  Py.all_chars Py.in_word_class (Py.map_chars substitute s) = true.
Proof.
  induction s as [|c r IH]; simpl; [reflexivity|].
  now rewrite substitute_in_class, IH.
Qed.

Lemma all_ident_after_lower (s : string) :
  Py.all_chars Py.in_word_class s = true ->
  Py.all_chars ident_char (Py.lower s) = true.
Proof.
  unfold Py.lower.
  induction s as [|c r IH]; simpl; [reflexivity|].
  intros H. apply andb_prop in H as [Hc Hr].
  now rewrite lower_of_word_is_ident, IH.
Qed.

Lemma ident_string_fixed (s : string) :
  Py.all_chars ident_char s = true ->
  Py.map_chars substitute s = s /\ Py.lower s = s.
Proof.
  unfold Py.lower.
  induction s as [|c r IH]; simpl; [split; reflexivity|].
  intros H. apply andb_prop in H as [Hc Hr].
  destruct (IH Hr) as [E1 E2].
  now rewrite ident_char_substitute, ident_char_lower, E1, E2.
Qed.

Lemma sanitize_name_cons (c : ascii) (r : string) :
  sanitize_name (String c r) =
  let safe_name := String (substitute c) (Py.map_chars substitute r) in
  Py.lower (if negb (Py.isalpha (substitute c)) then "r_" ++ safe_name
            else safe_name).
Proof. reflexivity. Qed.

Lemma sanitize_name_matches (x : string) :
  x <> "" -> matches_identifier (sanitize_name x) = true.
Proof.
  destruct x as [|c r]; [congruence|]. intros _.
  rewrite sanitize_name_cons. cbv zeta.
  pose proof (substitute_in_class c) as Hc.
  pose proof (all_word_after_sub r) as Hr.
  destruct (Py.isalpha (substitute c)) eqn:Ha; simpl negb; cbv iota.
  - change (Py.lower (String (substitute c) (Py.map_chars substitute r)))
      with (String (Py.lower_char (substitute c))
                   (Py.lower (Py.map_chars substitute r))).
    simpl. now rewrite lower_of_letter_is_lower, all_ident_after_lower.
  - change (Py.lower ("r_" ++ String (substitute c) (Py.map_chars substitute r)))
      with (String "r" (String "_"
              (String (Py.lower_char (substitute c))
                      (Py.lower (Py.map_chars substitute r))))).
    cbn [matches_identifier Py.all_chars].
    rewrite lower_of_word_is_ident by exact Hc.
    rewrite all_ident_after_lower by exact Hr. reflexivity.
Qed.

Lemma sanitize_name_fixed (s : string) :
  matches_identifier s = true -> sanitize_name s = s.
Proof.
  destruct s as [|c r]; [discriminate|]. simpl matches_identifier.
  intros H. apply andb_prop in H as [Hc Hr].
  rewrite sanitize_name_cons. cbv zeta.
  rewrite (ident_char_substitute c) by now apply lower_is_ident.
  rewrite (lower_is_alpha c Hc). simpl negb. cbv iota.
  destruct (ident_string_fixed r Hr) as [E1 E2]. rewrite E1.
  change (Py.lower (String c r)) with (String (Py.lower_char c) (Py.lower r)).
  rewrite E2, ident_char_lower; [reflexivity | now apply lower_is_ident].
Qed.

End SanitizeFacts.

(** C7 (as amended): [sanitize_name] is idempotent on every string, and on
    every non-empty string its output matches [^[a-z][a-z0-9_]*$]. *)
Theorem sanitize_name_idempotent_and_identifier (x : string) :
  sanitize_name (sanitize_name x) = sanitize_name x /\
  (x <> "" -> matches_identifier (sanitize_name x) = true).
Proof.
  split; [|apply sanitize_name_matches].
  destruct x as [|c r]; [reflexivity|].
  apply sanitize_name_fixed, sanitize_name_matches. discriminate.
Qed.

Lemma sanitize_name_idempotent_and_identifier_witness :
  sanitize_name (sanitize_name "123 Name-With.Dashes") =
    sanitize_name "123 Name-With.Dashes" /\
  matches_identifier (sanitize_name "123 Name-With.Dashes") = true.
Proof.
  destruct (sanitize_name_idempotent_and_identifier "123 Name-With.Dashes")
    as [Hidem Hmatch].
  split; [exact Hidem | apply Hmatch; discriminate].
Defined.

(** C7 (as stated) fails on the empty string: the guard [if safe_name and ...]
    leaves it empty, and the empty string does not match the expression. *)
Lemma sanitize_name_empty_not_identifier :
  sanitize_name "" = "" /\ matches_identifier (sanitize_name "") = false.
Proof. split; reflexivity. Qed.

(** ** Filter keys in the post-filter predicate *)

Section KeyParsing.

Import RowsQuery.

Lemma append_cons (x : ascii) (a b : string) :
  String x a ++ b = String x (a ++ b).
Proof. reflexivity. Qed.

Lemma append_empty (b : string) : "" ++ b = b.
Proof. reflexivity. Qed.

Lemma append_assoc (a b c : string) : (a ++ b) ++ c = a ++ (b ++ c).
Proof.
  induction a as [|x a IH]; [reflexivity|].
  now rewrite !append_cons, IH.
Qed.

Lemma rsplit1_absent (sep : ascii) (s : string) :
  Py.has_char sep s = false -> Py.rsplit1 sep s = None.
Proof.
  induction s as [|c r IH]; simpl; [reflexivity|].
  intros H. apply orb_false_elim in H as [Hc Hr].
  now rewrite (IH Hr), Hc.
Qed.

Lemma has_char_app_sep (sep : ascii) (a b : string) :
  Py.has_char sep (a ++ String sep b) = true.
Proof.
  induction a as [|c r IH].
  - rewrite append_empty. simpl. now rewrite Ascii.eqb_refl.
  - rewrite append_cons. simpl. rewrite IH. apply orb_true_r.
Qed.

(** Splitting at the last separator: what follows it holds no separator. *)
Lemma rsplit1_app (sep : ascii) (a b : string) :
  Py.has_char sep b = false ->
  Py.rsplit1 sep (a ++ String sep b) = Some (a, b).
Proof.
  intros Hb. induction a as [|c r IH].
  - rewrite append_empty. simpl.
    now rewrite (rsplit1_absent _ _ Hb), Ascii.eqb_refl.
  - rewrite append_cons. simpl. now rewrite IH.
Qed.

Lemma known_operator_recognised (suffix : string) :
  is_Some (known_operator suffix) <-> List.In suffix recognised_suffixes.
Proof.
  unfold known_operator, recognised_suffixes. simpl.
  split.
  - intros [op Hop]. revert Hop.
    repeat match goal with
           | |- context [String.eqb suffix ?s] =>
               destruct (String.eqb_spec suffix s) as [->|?];
               [intros _; auto 10|]
           end.
    discriminate.
  - intros H.
    repeat (destruct H as [<-|H]; [simpl; eauto|]). contradiction.
Qed.

Lemma known_operator_not_eq (suffix : string) (op : operator) :
  known_operator suffix = Some op -> op <> Eq.
Proof.
  unfold known_operator.
  repeat (destruct (String.eqb suffix _)); congruence.
Qed.

Lemma split_filter_key_suffixed (field suffix : string) :
  Py.has_char "_" suffix = false ->
  split_filter_key (field ++ String "_" suffix) =
  match known_operator suffix with
  | Some op => (field, op)
  | None => (field ++ String "_" suffix, Eq)
  end.
Proof.
  intros H. unfold split_filter_key.
  now rewrite has_char_app_sep, (rsplit1_app _ _ _ H).
Qed.

Lemma split_filter_key_unrecognised (key : string) :
  (forall field suffix,
     Py.rsplit1 "_" key = Some (field, suffix) ->
     ~ List.In suffix recognised_suffixes) ->
  split_filter_key key = (key, Eq).
Proof.
  intros H. unfold split_filter_key.
  destruct (Py.has_char "_" key); [|reflexivity].
  destruct (Py.rsplit1 "_" key) as [[field suffix]|] eqn:E; [|reflexivity].
  destruct (known_operator suffix) as [op|] eqn:K; [|reflexivity].
  exfalso. apply (H field suffix eq_refl).
  apply known_operator_recognised. eauto.
Qed.

Context (float_str : float -> string) (list_str : list scalar -> string)
        (float_of_str : string -> option float) (float_of_int : Z -> float).

Lemma matches_filters_rejects
  (row_dict : gmap string string) (filters : gmap string pyval)
  (row_schema : RowSchema.t) (key : string) (value : pyval) :
  filters !! key = Some value ->
  filter_passes float_str list_str float_of_str float_of_int
                row_dict key value = false ->
  _matches_filters float_str list_str float_of_str float_of_int
                   row_dict filters row_schema = false.
Proof.
  intros Hk Hf. unfold _matches_filters.
  apply not_true_is_false. intros Hall.
  rewrite forallb_forall in Hall.
  specialize (Hall (key, value)). simpl in Hall.
  rewrite Hall in Hf; [discriminate|].
  apply list_elem_of_In, elem_of_map_to_list, Hk.
Qed.

Lemma equality_on_missing_field
  (row_dict : gmap string string) (key : string) (value : pyval) :
  split_filter_key key = (key, Eq) ->
  value <> VNone ->
  row_dict !! key = None ->
  filter_passes float_str list_str float_of_str float_of_int
                row_dict key value = false.
Proof.
  intros Hs Hv Hr. unfold filter_passes. rewrite Hs, Hr.
  destruct value; congruence.
Qed.

(** C10: in [_matches_filters] the recognised operator suffixes are exactly
    gt, gte, lt, lte, contains and in.  A key whose rsplit-once suffix is one
    of them is parsed as that operator on the part before the last
    underscore; any other key (among them the keys [parse_where_clause]
    produces for startsWith, endsWith and not) is an equality on a field of
    the whole key's name, so a row without such a field is rejected; and a
    key [f_not_in] is the operator "in" on the field [f_not]. *)
Theorem filter_key_operator_suffixes :
  (forall key field suffix,
     Py.rsplit1 "_" key = Some (field, suffix) ->
     List.In suffix recognised_suffixes ->
     exists op, op <> Eq /\ split_filter_key key = (field, op)) /\
  (forall key,
     (forall field suffix,
        Py.rsplit1 "_" key = Some (field, suffix) ->
        ~ List.In suffix recognised_suffixes) ->
     split_filter_key key = (key, Eq) /\
     forall row_dict filters row_schema value,
       filters !! key = Some value -> value <> VNone ->
       row_dict !! key = None ->
       _matches_filters float_str list_str float_of_str float_of_int
                        row_dict filters row_schema = false) /\
  (forall f operator,
     List.In operator ["startsWith"; "endsWith"; "not_"] ->
     exists key,
       Filters.condition_key f operator = Some key /\
       split_filter_key key = (key, Eq) /\
       forall row_dict filters row_schema value,
         filters !! key = Some value -> value <> VNone ->
         row_dict !! key = None ->
         _matches_filters float_str list_str float_of_str float_of_int
                          row_dict filters row_schema = false) /\
  (forall f,
     Filters.condition_key f "not_in" = Some (f ++ "_not_in") /\
     split_filter_key (f ++ "_not_in") = (f ++ "_not", In)).
Proof.
  assert (Hreject : forall key, split_filter_key key = (key, Eq) ->
    forall row_dict filters row_schema value,
      filters !! key = Some value -> value <> VNone ->
      row_dict !! key = None ->
      _matches_filters float_str list_str float_of_str float_of_int
                       row_dict filters row_schema = false).
  { intros key Hs row_dict filters row_schema value Hk Hv Hr.
    eapply matches_filters_rejects; [exact Hk|].
    now apply equality_on_missing_field. }
  split; [|split; [|split]].
  - intros key field suffix Hsplit Hin.
    apply known_operator_recognised in Hin as [op Hop].
    exists op. split; [eapply known_operator_not_eq; eauto|].
    unfold split_filter_key. rewrite Hsplit, Hop.
    destruct (Py.has_char "_" key) eqn:Hc; [reflexivity|].
    rewrite (rsplit1_absent _ _ Hc) in Hsplit. discriminate.
  - intros key Hkey.
    pose proof (split_filter_key_unrecognised key Hkey) as Hs.
    split; [exact Hs | exact (Hreject key Hs)].
  - intros f operator Hin.
    assert (Hs : forall suffix,
               Py.has_char "_" suffix = false ->
               known_operator suffix = None ->
               split_filter_key (f ++ String "_" suffix)
               = (f ++ String "_" suffix, Eq)).
    { intros suffix H1 H2. now rewrite split_filter_key_suffixed, H2. }
    simpl in Hin. destruct Hin as [<-|[<-|[<-|[]]]].
    + exists (f ++ "_startsWith"). split; [reflexivity|].
      pose proof (Hs "startsWith" eq_refl eq_refl) as E. split; [exact E|].
      exact (Hreject _ E).
    + exists (f ++ "_endsWith"). split; [reflexivity|].
      pose proof (Hs "endsWith" eq_refl eq_refl) as E. split; [exact E|].
      exact (Hreject _ E).
    + exists (f ++ "_not"). split; [reflexivity|].
      pose proof (Hs "not" eq_refl eq_refl) as E. split; [exact E|].
      exact (Hreject _ E).
  - intros f. split; [reflexivity|].
    replace (f ++ "_not_in") with ((f ++ "_not") ++ String "_" "in").
    + now rewrite split_filter_key_suffixed.
    + now rewrite append_assoc.
Qed.

End KeyParsing.

(** ** Query planning against the unified table *)

Section QueryPlanning.

Import RowsQuery.
Local Open Scope list_scope.

Context (float_str : float -> string) (list_str : list scalar -> string)
        (float_of_str : string -> option float) (float_of_int : Z -> float)
        (session_execute : select -> result (list Row))
        (sort_results : string -> option SortDirection ->
                        list (gmap string string) -> list (gmap string string)).

Local Abbreviation py_str := (RowsQuery.py_str float_str list_str).
Local Abbreviation first_filtered := (first_filtered_index float_str list_str).
Local Abbreviation matches_filters :=
  (_matches_filters float_str list_str float_of_str float_of_int).
Local Abbreviation scan := (scan_rows float_str list_str float_of_str float_of_int).
Local Abbreviation query :=
  (query_cassandra float_str list_str float_of_str float_of_int
                   session_execute sort_results).

Local Abbreviation index_names_of fields :=
  (flat_map (fun field : Field.t =>
               if Field.primary field || Field.indexed field
               then [Field.name field] else []) fields).

Lemma index_names_of_cons (f : Field.t) (l : list Field.t) :
  index_names_of (f :: l) =
  (if active_index f then [Field.name f] else []) ++ index_names_of l.
Proof. reflexivity. Qed.

Lemma in_index_names_of (fields : list Field.t) (name : string) :
  List.In name (index_names_of fields) <->
  exists field, List.In field fields /\ active_index field = true /\
                Field.name field = name.
Proof.
  rewrite in_flat_map.
  split; intros (field & Hin & H); exists field; (split; [exact Hin|]).
  - unfold active_index. destruct (_ || _); simpl in H; [|contradiction].
    destruct H as [H|[]]; auto.
  - destruct H as [Ha <-]. unfold active_index in Ha. rewrite Ha. now left.
Qed.

Lemma index_names_of_inactive (fields : list Field.t) :
  (forall field, List.In field fields -> active_index field = false) ->
  index_names_of fields = [].
Proof.
  induction fields as [|f l IH]; intros H; [reflexivity|].
  rewrite index_names_of_cons, (H f (or_introl eq_refl)). simpl.
  apply IH. intros field Hin. apply H. now right.
Qed.

Lemma first_filtered_none (names : list string) (filters : gmap string pyval) :
  first_filtered names filters = None <->
  forall name, List.In name names -> filters !! name = None.
Proof.
  induction names as [|n l IH]; simpl.
  - split; [intros _ ? []|reflexivity].
  - destruct (filters !! n) eqn:E.
    + split; [discriminate|]. intros H. rewrite (H n) in E; [discriminate|auto].
    + rewrite IH. split.
      * intros H name [<-|Hin]; auto.
      * intros H name Hin. apply H. now right.
Qed.

Lemma first_filtered_found
  (names : list string) (filters : gmap string pyval)
  (name : string) (index_value : list string) :
  first_filtered names filters = Some (name, index_value) ->
  List.In name names /\
  exists value, filters !! name = Some value /\ index_value = [py_str value].
Proof.
  induction names as [|n l IH]; simpl; [discriminate|].
  destruct (filters !! n) as [v|] eqn:E.
  - intros [= <- <-]. eauto.
  - intros H. destruct (IH H) as [Hin Hv]. auto.
Qed.

Lemma first_filtered_app (l1 l2 : list string) (filters : gmap string pyval) :
  first_filtered l1 filters = None ->
  first_filtered (l1 ++ l2) filters = first_filtered l2 filters.
Proof.
  induction l1 as [|n l IH]; simpl; [reflexivity|].
  destruct (filters !! n); [discriminate|exact IH].
Qed.

(** The index [find_matching_index] picks: the first active field, in field
    order, whose name is a key of the filters. *)
Lemma find_matching_index_first
  (schema : RowSchema.t) (filters : gmap string pyval)
  (before after : list Field.t) (field : Field.t) (value : pyval) :
  RowSchema.fields schema = before ++ field :: after ->
  active_index field = true ->
  filters !! Field.name field = Some value ->
  (forall f, List.In f before -> active_index f = true ->
             filters !! Field.name f = None) ->
  find_matching_index float_str list_str schema filters =
  Some (Field.name field, [py_str value]).
Proof.
  intros Hfields Hact Hval Hbefore.
  unfold find_matching_index, get_index_names.
  rewrite Hfields, flat_map_app, index_names_of_cons, Hact.
  rewrite first_filtered_app.
  - simpl. now rewrite Hval.
  - apply first_filtered_none. intros name Hin.
    apply in_index_names_of in Hin as (f & Hf & Ha & <-). auto.
Qed.

Lemma find_matching_index_some
  (schema : RowSchema.t) (filters : gmap string pyval) :
  is_Some (find_matching_index float_str list_str schema filters) <->
  exists field, List.In field (RowSchema.fields schema) /\
                active_index field = true /\
                is_Some (filters !! Field.name field).
Proof.
  unfold find_matching_index, get_index_names. split.
  - intros [[name iv] H].
    apply first_filtered_found in H as (Hin & value & Hv & _).
    apply in_index_names_of in Hin as (field & Hf & Ha & <-).
    exists field. eauto.
  - intros (field & Hf & Ha & [v Hv]).
    apply not_eq_None_Some. rewrite first_filtered_none. intros Hnone.
    rewrite (Hnone (Field.name field)) in Hv; [discriminate|].
    apply in_index_names_of. eauto.
Qed.

Lemma find_matching_index_none
  (schema : RowSchema.t) (filters : gmap string pyval) :
  (forall field, List.In field (RowSchema.fields schema) ->
                 active_index field = true ->
                 filters !! Field.name field = None) ->
  find_matching_index float_str list_str schema filters = None.
Proof.
  intros H. apply eq_None_not_Some. rewrite find_matching_index_some.
  intros (field & Hf & Ha & [v Hv]). rewrite (H field Hf Ha) in Hv. discriminate.
Qed.

(** The scan loop keeps the rows that pass the post-filter, up to the limit. *)
Lemma scan_rows_bounded
  (filters : gmap string pyval) (schema : RowSchema.t) (n : Z)
  (rows : list Row) (acc : list (gmap string string)) :
  n <> 0%Z ->
  (length acc < Z.to_nat (Z.max n 1))%nat ->
  scan filters schema (Some n) rows acc =
  acc ++ take (Z.to_nat (Z.max n 1) - length acc)
              (List.filter (fun d => matches_filters d filters schema)
                           (map row_dict_of rows)).
Proof.
  intros Hn. revert acc.
  induction rows as [|row rest IH]; intros acc Hacc; simpl.
  - now rewrite take_nil, app_nil_r.
  - destruct (matches_filters (row_dict_of row) filters schema).
    + rewrite (proj2 (Z.eqb_neq n 0) Hn). simpl. rewrite length_app. simpl.
      destruct (Z.leb_spec n (Z.of_nat (length acc + 1))) as [Hle|Hgt].
      * replace (Z.to_nat (Z.max n 1) - length acc)%nat with 1%nat by lia.
        reflexivity.
      * rewrite IH by (rewrite length_app; simpl; lia).
        rewrite length_app. simpl.
        replace (Z.to_nat (Z.max n 1) - length acc)%nat
          with (S (Z.to_nat (Z.max n 1) - (length acc + 1)))%nat by lia.
        simpl. now rewrite <- app_assoc.
    + now apply IH.
Qed.

Lemma scan_rows_unbounded
  (filters : gmap string pyval) (schema : RowSchema.t) (limit : option Z)
  (rows : list Row) (acc : list (gmap string string)) :
  limit_truthy limit = false ->
  scan filters schema limit rows acc =
  acc ++ List.filter (fun d => matches_filters d filters schema)
                     (map row_dict_of rows).
Proof.
  intros Hl. revert acc.
  induction rows as [|row rest IH]; intros acc; simpl.
  - now rewrite app_nil_r.
  - destruct (matches_filters (row_dict_of row) filters schema).
    + rewrite Hl. simpl. rewrite IH. now rewrite <- app_assoc.
    + apply IH.
Qed.

Lemma scan_rows_post_filtered
  (filters : gmap string pyval) (schema : RowSchema.t) (limit : option Z)
  (rows : list Row) :
  scan filters schema limit rows [] =
  post_filtered (fun d => matches_filters d filters schema) limit
                (map row_dict_of rows).
Proof.
  unfold post_filtered.
  destruct (limit_truthy limit) eqn:Hl.
  - destruct limit as [n|]; [|discriminate]. simpl in Hl.
    apply negb_true_iff, Z.eqb_neq in Hl.
    rewrite scan_rows_bounded by (simpl; lia).
    simpl. now rewrite Nat.sub_0_r.
  - now rewrite scan_rows_unbounded.
Qed.

Lemma query_issued_direct
  (user collection schema_name : string) (schema : RowSchema.t)
  (filters : gmap string pyval) (limit : option Z)
  (order_by : option string) (direction : option SortDirection)
  (index_name : string) (index_value : list string) :
  find_matching_index float_str list_str schema filters
  = Some (index_name, index_value) ->
  fst (query user collection schema_name schema filters limit
             order_by direction)
  = [DirectRead (sanitize_name user) collection schema_name index_name
                index_value (if limit_truthy limit then limit else None)].
Proof.
  intros H. unfold query_cassandra. rewrite H.
  now destruct (session_execute _).
Qed.

Lemma query_scan
  (user collection schema_name : string) (schema : RowSchema.t)
  (filters : gmap string pyval) (limit : option Z)
  (order_by : option string) (direction : option SortDirection)
  (primary_index : string) (others : list string) :
  find_matching_index float_str list_str schema filters = None ->
  get_index_names schema = primary_index :: others ->
  let q := ScanRead (sanitize_name user) collection schema_name primary_index in
  query user collection schema_name schema filters limit order_by direction
  = ([q],
     match session_execute q with
     | Raise msg => Raise msg
     | Ok rows =>
         Ok (sort_if_requested sort_results order_by direction
               (scan filters schema limit rows []))
     end).
Proof.
  intros H Hn. unfold query_cassandra. rewrite H, Hn.
  now destruct (session_execute _).
Qed.

(** C2: the query issues a direct index read exactly when some key of the
    filters is the name of a primary or indexed field; the index read is the
    first such field in field order, with [index_value = [str(F[key])]].
    Otherwise, when the schema has an active index, the first active index
    is scanned with ALLOW FILTERING and the rows are post-filtered in
    process. *)
Theorem direct_read_iff_indexed_filter_key
  (user collection schema_name : string) (schema : RowSchema.t)
  (F : gmap string pyval) (limit : option Z)
  (order_by : option string) (direction : option SortDirection) :
  let run := query user collection schema_name schema F limit
                   order_by direction in
  let safe_keyspace := sanitize_name user in
  ((exists index_name index_value limit_clause,
      fst run = [DirectRead safe_keyspace collection schema_name index_name
                            index_value limit_clause]) <->
   (exists field, List.In field (RowSchema.fields schema) /\
                  active_index field = true /\
                  is_Some (F !! Field.name field))) /\
  (forall before field after value,
     RowSchema.fields schema = before ++ field :: after ->
     active_index field = true ->
     F !! Field.name field = Some value ->
     (forall f, List.In f before -> active_index f = true ->
                F !! Field.name f = None) ->
     fst run = [DirectRead safe_keyspace collection schema_name
                           (Field.name field) [py_str value]
                           (if limit_truthy limit then limit else None)]) /\
  ((forall field, List.In field (RowSchema.fields schema) ->
                  active_index field = true ->
                  F !! Field.name field = None) ->
   forall before first after,
     RowSchema.fields schema = before ++ first :: after ->
     active_index first = true ->
     (forall f, List.In f before -> active_index f = false) ->
     let scan_query :=
       ScanRead safe_keyspace collection schema_name (Field.name first) in
     fst run = [scan_query] /\
     forall rows,
       session_execute scan_query = Ok rows ->
       snd run =
       Ok (sort_if_requested sort_results order_by direction
             (post_filtered (fun d => matches_filters d F schema) limit
                            (map row_dict_of rows)))).
Proof.
  cbv zeta. split; [|split].
  - rewrite <- find_matching_index_some. split.
    + intros (index_name & index_value & limit_clause & H).
      destruct (find_matching_index float_str list_str schema F)
        as [[i iv]|] eqn:E; [eauto|].
      exfalso. unfold query_cassandra in H. rewrite E in H.
      destruct (get_index_names schema); [discriminate|].
      destruct (session_execute _); discriminate.
    + intros [[i iv] E]. eexists _, _, _.
      apply query_issued_direct. exact E.
  - intros before field after value Hfields Hact Hval Hbefore.
    apply query_issued_direct.
    now apply find_matching_index_first with (before := before) (after := after).
  - intros Hnone before first after Hfields Hact Hbefore.
    assert (Hnames : get_index_names schema
                     = Field.name first :: index_names_of after).
    { unfold get_index_names.
      rewrite Hfields, flat_map_app, index_names_of_cons, Hact.
      now rewrite (index_names_of_inactive before Hbefore). }
    rewrite (query_scan _ _ _ _ _ _ _ _ _ _
               (find_matching_index_none schema F Hnone) Hnames).
    split; [reflexivity|].
    intros rows Hrows. simpl. rewrite Hrows.
    now rewrite scan_rows_post_filtered.
Qed.

End QueryPlanning.

(** ** Error responses of the row query service *)

Section QueryResponses.

Import RowsQuery.

Context (Json : Type) (json_dumps : Json -> string) (json_truthy : Json -> bool)
        (graphql_execute :
           GraphQLSchema -> string -> gmap string string -> option string ->
           string -> string -> result (ExecutionResult Json))
        (parse_schema : string -> string -> option RowSchema.t).

(** No GraphQL schema is held before the first configuration arrives. *)
Lemma init_no_graphql_schema (config_key : string) :
  graphql_schema (init config_key) = None.
Proof. reflexivity. Qed.

(** A configuration whose schema section yields no schema leaves no GraphQL
    schema. *)
Lemma on_schema_config_nothing_loaded
  (config : gmap string (gmap string string)) (st : Processor)
  (schemas_config : gmap string string) :
  config !! config_key st = Some schemas_config ->
  (forall name json, schemas_config !! name = Some json ->
                     parse_schema name json = None) ->
  graphql_schema (on_schema_config parse_schema config st) = None.
Proof.
  intros Hc Hnone. unfold on_schema_config. simpl. rewrite Hc. simpl.
  unfold build. rewrite bool_decide_eq_true_2; [reflexivity|].
  apply map_eq. intros name. rewrite map_lookup_imap, lookup_empty.
  destruct (schemas_config !! name) as [json|] eqn:E; simpl; [|reflexivity].
  now apply Hnone.
Qed.

(** A configuration without the schema section clears [schemas] but keeps
    the GraphQL schema built before. *)
Lemma on_schema_config_missing_section
  (config : gmap string (gmap string string)) (st : Processor) :
  config !! config_key st = None ->
  schemas (on_schema_config parse_schema config st) = ∅ /\
  graphql_schema (on_schema_config parse_schema config st) = graphql_schema st.
Proof. intros Hc. unfold on_schema_config. simpl. now rewrite Hc. Qed.

(** C8 (as amended): when no GraphQL schema is held, the response carries the
    top-level error of type "rows-query-error" with the message
    "No GraphQL schema available - no schemas loaded", no data and no
    GraphQL errors. *)
Theorem no_graphql_schema_error_response
  (st : Processor) (request : RowsQueryRequest) :
  graphql_schema st = None ->
  on_message Json json_dumps json_truthy graphql_execute st request
  = mkResponse
      (Some (Error.make "rows-query-error"
                        "No GraphQL schema available - no schemas loaded"))
      None [] ∅.
Proof.
  intros H. unfold on_message, execute_graphql_query. now rewrite H.
Qed.

End QueryResponses.

(** ** Missing vector collection in the row embeddings query service *)

Section EmbeddingsQuery.

Import RowEmbeddingsQuery.

Context (get_collections : result (list string))
        (query_points : string -> list float -> Z -> option string ->
                        result (list ScoredPoint)).

Lemma find_collection_none (user collection schema_name : string) :
  (forall names, get_collections = Ok names ->
     forall name, List.In name names ->
       Py.startswith name (collection_prefix user collection schema_name)
       = false) ->
  find_collection get_collections user collection schema_name = None.
Proof.
  intros H. unfold find_collection.
  destruct get_collections as [names|msg]; [|reflexivity].
  specialize (H names eq_refl).
  destruct (List.filter _ names) as [|first rest] eqn:E; [reflexivity|].
  assert (Hin : List.In first (List.filter
            (fun name => Py.startswith name
               (collection_prefix user collection schema_name)) names)).
  { rewrite E. now left. }
  apply filter_In in Hin as [Hin Hp]. rewrite (H first Hin) in Hp.
  discriminate.
Qed.

(** C9: a request whose (user, collection, schema_name) has no vector
    collection — no collection name starts with the prefix
    rows_{sanitize(user)}_{sanitize(collection)}_{sanitize(schema_name)}_ —
    is answered with no matches and no error. *)
Theorem missing_collection_empty_response (request : RowEmbeddingsRequest) :
  (forall names, get_collections = Ok names ->
     forall name, List.In name names ->
       Py.startswith name
         ("rows_" ++ sanitize_name (user request) ++ "_"
                  ++ sanitize_name (collection request) ++ "_"
                  ++ sanitize_name (schema_name request) ++ "_")
       = false) ->
  on_message get_collections query_points request = mkResponse None [].
Proof.
  intros H. unfold on_message, query_row_embeddings.
  now rewrite (find_collection_none _ _ _ H).
Qed.

End EmbeddingsQuery.

(** ** Write amplification of the row writer *)

Section WriterFacts.

Import RowsWrite WriterSpec.
Local Open Scope list_scope.

Context (session_execute : cql -> result unit).

Lemma log_nil (st : Processor) : log [] st = st.
Proof. destruct st. unfold log, set_executed. simpl. now rewrite app_nil_r. Qed.

Lemma log_log (a b : list cql) (st : Processor) :
  log b (log a st) = log (a ++ b) st.
Proof. unfold log, set_executed. simpl. now rewrite app_assoc. Qed.

Lemma executed_log (qs : list cql) (st : Processor) :
  executed (log qs st) = executed st ++ qs.
Proof. reflexivity. Qed.

Lemma get_index_names_active (schema : RowSchema.t) :
  get_index_names schema =
  map Field.name (List.filter active_index (RowSchema.fields schema)).
Proof.
  unfold get_index_names, active_index.
  induction (RowSchema.fields schema) as [|f l IH]; simpl; [reflexivity|].
  rewrite IH. now destruct (Field.primary f), (Field.indexed f).
Qed.

Lemma split_not_nil (sep : ascii) (s : string) : Py.split sep s <> [].
Proof.
  destruct s as [|c r]; simpl; [discriminate|].
  destruct (Ascii.eqb c sep); [discriminate|].
  destruct (Py.split sep r); discriminate.
Qed.

Lemma skip_build_index_value (value_map : gmap string string) (index_name : string) :
  skip_index_value (build_index_value value_map index_name)
  = all_empty (build_index_value value_map index_name).
Proof.
  unfold build_index_value.
  pose proof (split_not_nil "," index_name) as H.
  now destruct (Py.split "," index_name).
Qed.

(** A loop whose body only adds statements to the session adds them all. *)
Lemma for_each_log {X : Type} (f : X -> list cql) (body : X -> M unit)
  (xs : list X) (st : Processor) :
  (forall x st, body x st = (log (f x) st, Ok tt)) ->
  for_each xs body st = (log (flat_map f xs) st, Ok tt).
Proof.
  intros Hbody. revert st.
  induction xs as [|x rest IH]; intros st; simpl.
  - now rewrite log_nil.
  - unfold bind. rewrite Hbody, IH. now rewrite log_log.
Qed.

(** The same for a body that may raise, when the loop returns. *)
Lemma for_each_returns {X : Type} (f : X -> list cql) (body : X -> M unit)
  (xs : list X) (st : Processor) :
  (forall x st, snd (body x st) = Ok tt -> fst (body x st) = log (f x) st) ->
  snd (for_each xs body st) = Ok tt ->
  fst (for_each xs body st) = log (flat_map f xs) st.
Proof.
  intros Hbody. revert st.
  induction xs as [|x rest IH]; intros st; simpl.
  - intros _. now rewrite log_nil.
  - unfold bind. specialize (Hbody x st).
    destruct (body x st) as [st' [[]|msg]]; simpl in *; [|discriminate].
    intros Hok. rewrite (IH st' Hok), (Hbody eq_refl). now rewrite log_log.
Qed.

Lemma swallow_execute (q : cql) (st : Processor) :
  swallow (execute session_execute q) st = (log [q] st, Ok tt).
Proof. reflexivity. Qed.

Lemma register_partitions_run
  (keyspace collection schema_name : string) (st : Processor)
  (schema : RowSchema.t) :
  schemas st !! schema_name = Some schema ->
  register_partitions session_execute keyspace collection schema_name st =
  (if bool_decide ((collection, schema_name) ∈ registered_partitions st)
   then st
   else set_registered_partitions
          ({[(collection, schema_name)]} ∪ registered_partitions st)
          (log (partition_inserts keyspace collection schema_name schema) st),
   Ok tt).
Proof.
  intros Hs. unfold register_partitions, bind, gets. simpl.
  destruct (bool_decide _); [reflexivity|].
  rewrite Hs.
  rewrite (for_each_log
             (fun index_name =>
                [InsertPartition (sanitize_name keyspace) collection
                                 schema_name index_name]))
    by (intros; apply swallow_execute).
  unfold modify. simpl. f_equal. f_equal.
  unfold partition_inserts. rewrite get_index_names_active.
  f_equal. rewrite flat_map_concat_map, map_map.
  induction (List.filter active_index (RowSchema.fields schema)) as [|f l IH];
    simpl; [reflexivity | now rewrite <- IH].
Qed.

Lemma execute_log (q : cql) (st : Processor) :
  fst (execute session_execute q st) = log [q] st.
Proof. reflexivity. Qed.

(** When [ensure_tables] returns, it has executed the creation statements
    of a keyspace not yet initialised. *)
Lemma ensure_tables_returns (keyspace : string) (st : Processor) :
  let run := ensure_tables session_execute keyspace st in
  snd run = Ok tt ->
  executed (fst run) = executed st ++ setup_statements st keyspace /\
  schemas (fst run) = schemas st /\
  registered_partitions (fst run) = registered_partitions st /\
  known_collections (fst run) = known_collections st.
Proof.
  unfold setup_statements.
  cbv [ensure_tables ensure_keyspace bind gets modify ret execute].
  destruct (bool_decide (keyspace ∈ tables_initialized st)).
  - intros _. now rewrite app_nil_r.
  - destruct (bool_decide (keyspace ∈ known_keyspaces st)).
    + destruct (session_execute (CreateRowsTable _)) as [[]|];
        [|discriminate].
      destruct (session_execute (CreatePartitionsTable _)) as [[]|];
        [|discriminate].
      intros _. simpl. now rewrite <- app_assoc.
    + destruct (session_execute (CreateKeyspace _)) as [[]|];
        [|discriminate].
      cbv beta iota.
      destruct (session_execute (CreateRowsTable _)) as [[]|];
        [|discriminate].
      destruct (session_execute (CreatePartitionsTable _)) as [[]|];
        [|discriminate].
      intros _. simpl. now rewrite <- !app_assoc.
Qed.

(** When the loop over the indexes of one row returns, it has executed one
    insert per non-empty index of the row. *)
Lemma row_loop_returns
  (safe_keyspace collection schema_name source : string)
  (schema : RowSchema.t) (value_map : gmap string string) (st : Processor) :
  let run :=
    for_each (get_index_names schema) (fun index_name =>
      let index_value := build_index_value value_map index_name in
      if skip_index_value index_value then ret tt
      else execute session_execute
             (InsertRow safe_keyspace collection schema_name index_name
                        index_value (build_data_map schema value_map) source))
      st in
  snd run = Ok tt ->
  fst run
  = log (map (fun field =>
                InsertRow safe_keyspace collection schema_name
                          (Field.name field) (index_value_of value_map field)
                          (build_data_map schema value_map) source)
             (non_empty_indexes schema value_map)) st.
Proof.
  cbv zeta. intros Hok.
  rewrite (for_each_returns
    (fun index_name =>
       if all_empty (build_index_value value_map index_name) then []
       else [InsertRow safe_keyspace collection schema_name index_name
                       (build_index_value value_map index_name)
                       (build_data_map schema value_map) source])).
  - f_equal. rewrite get_index_names_active.
    unfold non_empty_indexes, index_value_of.
    induction (List.filter active_index (RowSchema.fields schema)) as [|f l IH];
      simpl; [reflexivity|].
    rewrite IH. now destruct (all_empty _).
  - intros index_name st0 _. rewrite skip_build_index_value.
    destruct (all_empty _).
    + unfold ret. simpl. now rewrite log_nil.
    + apply execute_log.
  - exact Hok.
Qed.

Lemma filter_rows_of_setup (st : Processor) (keyspace : string) :
  List.filter is_rows_insert (setup_statements st keyspace) = [] /\
  List.filter is_partition_insert (setup_statements st keyspace) = [].
Proof.
  unfold setup_statements.
  now destruct (bool_decide (keyspace ∈ tables_initialized st)),
               (bool_decide (keyspace ∈ known_keyspaces st)).
Qed.

Lemma filter_partition_inserts
  (keyspace collection schema_name : string) (schema : RowSchema.t) :
  let qs := partition_inserts keyspace collection schema_name schema in
  List.filter is_rows_insert qs = [] /\ List.filter is_partition_insert qs = qs.
Proof.
  unfold partition_inserts.
  induction (List.filter active_index (RowSchema.fields schema)) as [|f l [IH1 IH2]];
    simpl; [now split|]. now rewrite IH1, IH2.
Qed.

Lemma filter_insert_rows {X : Type} (g : X -> cql) (xs : list X) :
  (forall x, is_rows_insert (g x) = true /\ is_partition_insert (g x) = false) ->
  List.filter is_rows_insert (map g xs) = map g xs /\
  List.filter is_partition_insert (map g xs) = [].
Proof.
  intros Hg. induction xs as [|x rest [IH1 IH2]]; simpl; [now split|].
  destruct (Hg x) as [-> ->]. now rewrite IH1, IH2.
Qed.

Lemma filter_row_inserts
  (keyspace collection schema_name source : string) (schema : RowSchema.t)
  (values : list (gmap string string)) :
  let qs := row_inserts keyspace collection schema_name source schema values in
  List.filter is_rows_insert qs = qs /\ List.filter is_partition_insert qs = [].
Proof.
  unfold row_inserts.
  induction values as [|vm rest [IH1 IH2]]; simpl; [now split|].
  rewrite !List.filter_app, IH1, IH2.
  match goal with
  | |- context [map ?g (non_empty_indexes schema vm)] =>
      destruct (filter_insert_rows g (non_empty_indexes schema vm)) as [-> ->];
      [now split|]
  end.
  now split.
Qed.

Lemma length_row_inserts
  (keyspace collection schema_name source : string) (schema : RowSchema.t)
  (values : list (gmap string string)) :
  length (row_inserts keyspace collection schema_name source schema values)
  = sum_list (map (fun vm => length (non_empty_indexes schema vm)) values).
Proof.
  unfold row_inserts.
  induction values as [|vm rest IH]; simpl; [reflexivity|].
  now rewrite length_app, length_map, IH.
Qed.

Lemma sum_list_constant {X : Type} (f : X -> nat) (xs : list X) (N : nat) :
  (forall x, List.In x xs -> f x = N) ->
  sum_list (map f xs) = N * length xs.
Proof.
  induction xs as [|x rest IH]; intros H; simpl; [lia|].
  rewrite (H x (or_introl eq_refl)), IH; [lia|].
  intros y Hy. apply H. now right.
Qed.

(** C1 (as amended): an accepted write (collection exists, schema
    registered, at least one active index, the handler returning) executes
    exactly one [rows] insert per row and per index of that row whose index
    value is not entirely empty — N·R inserts for R rows with N non-empty
    indexes each — and, when (collection, schema_name) is not yet in the
    registered-partitions cache, exactly one [row_partitions] insert per
    active index, whatever the rows; when it is cached, none. *)
Theorem accepted_write_amplification
  (obj : ExtractedObject.t) (st : Processor) (schema : RowSchema.t) :
  let metadata := ExtractedObject.metadata obj in
  let keyspace := Metadata.user metadata in
  let collection := Metadata.collection metadata in
  let schema_name := ExtractedObject.schema_name obj in
  let source := default ""%string (Metadata.source metadata) in
  let values := ExtractedObject.values obj in
  collection_exists (known_collections st) keyspace collection = true ->
  schemas st !! schema_name = Some schema ->
  List.filter active_index (RowSchema.fields schema) <> [] ->
  let run := on_object session_execute obj st in
  snd run = Ok tt ->
  let partitions :=
    if bool_decide ((collection, schema_name) ∈ registered_partitions st)
    then []
    else partition_inserts keyspace collection schema_name schema in
  let rows := row_inserts keyspace collection schema_name source schema values in
  let new := setup_statements st keyspace ++ partitions ++ rows in
  executed (fst run) = executed st ++ new /\
  List.filter is_rows_insert new = rows /\
  List.filter is_partition_insert new = partitions /\
  length (partition_inserts keyspace collection schema_name schema)
  = length (List.filter active_index (RowSchema.fields schema)) /\
  length rows
  = sum_list (map (fun vm => length (non_empty_indexes schema vm)) values) /\
  (forall N,
     (forall vm, List.In vm values -> length (non_empty_indexes schema vm) = N) ->
     length rows = N * length values) /\
  (collection, schema_name) ∈ registered_partitions (fst run).
Proof.
  cbv zeta. intros Hexists Hschema Hactive.
  set (keyspace := Metadata.user (ExtractedObject.metadata obj)) in *.
  set (collection := Metadata.collection (ExtractedObject.metadata obj)) in *.
  set (schema_name := ExtractedObject.schema_name obj) in *.
  set (source := default ""%string
                         (Metadata.source (ExtractedObject.metadata obj))) in *.
  set (partitions :=
         if bool_decide ((collection, schema_name) ∈ registered_partitions st)
         then [] else partition_inserts keyspace collection schema_name schema).
  set (rows := row_inserts keyspace collection schema_name source schema
                           (ExtractedObject.values obj)).
  intros Hok.
  assert (Hrun : executed (fst (on_object session_execute obj st)) =
                 executed st ++ setup_statements st keyspace ++ partitions ++ rows /\
                 (collection, schema_name)
                   ∈ registered_partitions (fst (on_object session_execute obj st))).
  { revert Hok. unfold on_object. cbv [bind gets].
    fold keyspace collection schema_name source.
    rewrite Hexists. cbv [negb]. rewrite Hschema.
    pose proof (ensure_tables_returns keyspace st) as Het. cbv zeta in Het.
    destruct (ensure_tables session_execute keyspace st) as [st1 [[]|msg]];
      [|discriminate].
    destruct (Het eq_refl) as (X1 & S1 & R1 & _). simpl in X1, S1, R1.
    rewrite (register_partitions_run keyspace collection schema_name st1 schema)
      by now rewrite S1.
    rewrite R1.
    assert (Hnames : get_index_names schema <> []).
    { rewrite get_index_names_active. intros Hn.
      apply map_eq_nil in Hn. contradiction. }
    destruct (get_index_names schema) as [|n0 names] eqn:En; [contradiction|].
    rewrite <- En. intros Hok.
    match type of Hok with
    | snd (for_each ?xs ?body ?st2) = _ =>
        rewrite (for_each_returns
          (fun value_map =>
             map (fun field =>
                    InsertRow (sanitize_name keyspace) collection schema_name
                              (Field.name field)
                              (index_value_of value_map field)
                              (build_data_map schema value_map) source)
                 (non_empty_indexes schema value_map)) body xs st2);
          [|intros value_map st0; apply row_loop_returns | exact Hok]
    end.
    fold (row_inserts keyspace collection schema_name source schema
                      (ExtractedObject.values obj)).
    fold rows. rewrite executed_log.
    unfold partitions.
    destruct (bool_decide ((collection, schema_name) ∈ registered_partitions st))
      eqn:Hc.
    - rewrite X1. simpl. split; [now rewrite <- app_assoc|].
      rewrite R1. apply bool_decide_eq_true in Hc. exact Hc.
    - split.
      + simpl. rewrite X1. now rewrite <- !app_assoc.
      + simpl. apply elem_of_union_l. now apply elem_of_singleton. }
  destruct Hrun as (Hexec & Hreg).
  pose proof (filter_rows_of_setup st keyspace) as [Fs1 Fs2].
  pose proof (filter_partition_inserts keyspace collection schema_name schema)
    as [Fp1 Fp2].
  pose proof (filter_row_inserts keyspace collection schema_name source schema
                (ExtractedObject.values obj)) as [Fr1 Fr2].
  cbv zeta in Fp1, Fp2, Fr1, Fr2. fold rows in Fr1, Fr2.
  assert (Fq1 : List.filter is_rows_insert partitions = []).
  { unfold partitions.
    now destruct (bool_decide ((collection, schema_name)
                                 ∈ registered_partitions st)). }
  assert (Fq2 : List.filter is_partition_insert partitions = partitions).
  { unfold partitions.
    now destruct (bool_decide ((collection, schema_name)
                                 ∈ registered_partitions st)). }
  repeat split.
  - exact Hexec.
  - now rewrite !List.filter_app, Fs1, Fq1, Fr1.
  - now rewrite !List.filter_app, Fs2, Fq2, Fr2, app_nil_r.
  - unfold partition_inserts. now rewrite length_map.
  - apply length_row_inserts.
  - intros N HN. unfold rows. rewrite length_row_inserts.
    now apply sum_list_constant.
  - exact Hreg.
Qed.

End WriterFacts.

(** ** Partition cache invalidation on schema updates *)

Section SchemaInvalidation.

Import RowsWrite.

Context (parse_schema : string -> string -> option RowSchema.t).

(** What an update with a schema section leaves in the cache: the entries
    whose schema name is in both or in neither of the old and new name
    sets. *)
Lemma on_schema_config_cache
  (config : gmap string (gmap string string)) (st : Processor)
  (schemas_config : gmap string string) (col sch : string) :
  config !! config_key st = Some schemas_config ->
  (col, sch) ∈ registered_partitions (on_schema_config parse_schema config st)
  <->
  (col, sch) ∈ registered_partitions st /\
  (sch ∈ dom (schemas st) <-> sch ∈ dom (map_imap parse_schema schemas_config)).
Proof.
  intros Hc. unfold on_schema_config. simpl. rewrite Hc. simpl.
  set (old := dom (schemas st)).
  set (new := dom (map_imap parse_schema schemas_config)).
  assert (Hsd : sch ∉ symmetric_difference old new <-> (sch ∈ old <-> sch ∈ new)).
  { unfold symmetric_difference.
    rewrite elem_of_union, !elem_of_difference.
    destruct (decide (sch ∈ old)), (decide (sch ∈ new)); tauto. }
  destruct (bool_decide (symmetric_difference old new = ∅)) eqn:E; simpl.
  - apply bool_decide_eq_true in E.
    assert (sch ∉ symmetric_difference old new) by (rewrite E; set_solver).
    tauto.
  - rewrite elem_of_filter. simpl. tauto.
Qed.

(** The entries of a schema name that the update adds or removes are
    purged. *)
Lemma on_schema_config_purges_renamed
  (config : gmap string (gmap string string)) (st : Processor)
  (schemas_config : gmap string string) (col sch : string) :
  config !! config_key st = Some schemas_config ->
  ~ (sch ∈ dom (schemas st) <-> sch ∈ dom (map_imap parse_schema schemas_config)) ->
  (col, sch) ∉ registered_partitions (on_schema_config parse_schema config st).
Proof.
  intros Hc Hx Hin.
  apply (on_schema_config_cache _ _ _ _ _ Hc) in Hin. tauto.
Qed.

(** The entries of a schema that is redefined under the same name stay. *)
Lemma on_schema_config_keeps_redefined
  (config : gmap string (gmap string string)) (st : Processor)
  (schemas_config : gmap string string) (col sch json : string)
  (old_schema new_schema : RowSchema.t) :
  config !! config_key st = Some schemas_config ->
  schemas st !! sch = Some old_schema ->
  schemas_config !! sch = Some json ->
  parse_schema sch json = Some new_schema ->
  (col, sch) ∈ registered_partitions st ->
  (col, sch) ∈ registered_partitions (on_schema_config parse_schema config st).
Proof.
  intros Hc Ho Hj Hp Hin.
  apply (on_schema_config_cache _ _ _ _ _ Hc). split; [exact Hin|].
  rewrite !elem_of_dom, Ho, map_lookup_imap, Hj. simpl. rewrite Hp.
  split; eauto.
Qed.

(** An update without the schema section clears the schemas and leaves the
    cache as it was. *)
Lemma on_schema_config_missing_section_cache
  (config : gmap string (gmap string string)) (st : Processor) :
  config !! config_key st = None ->
  schemas (on_schema_config parse_schema config st) = ∅ /\
  registered_partitions (on_schema_config parse_schema config st)
  = registered_partitions st.
Proof. intros Hc. unfold on_schema_config. simpl. now rewrite Hc. Qed.

End SchemaInvalidation.

(** C3 fails on the code: after the update that redefines customer_records
    with an index on email, the entry (col, customer_records) is still in
    the registered-partitions cache, and the next write for it registers no
    partition: it only inserts the rows, one of them under the email index,
    whose partition was never registered. *)
Theorem redefined_schema_keeps_cache_entry :
  let st := Scenario.writer_after_first_write in
  let st' := RowsWrite.on_schema_config Scenario.parse_schema
               Scenario.config_with_email_index st in
  RowsWrite.schemas st !! "customer_records" = Some Scenario.customer_records_v1 /\
  RowsWrite.schemas st' !! "customer_records" = Some Scenario.customer_records /\
  RowsWrite.get_index_names Scenario.customer_records = ["customer_id"; "email"] /\
  ("col", "customer_records") ∈ RowsWrite.registered_partitions st' /\
  List.filter RowsWrite.is_partition_insert (RowsWrite.executed st')
  = [RowsWrite.InsertPartition "tenant" "col" "customer_records" "customer_id"] /\
  drop (length (RowsWrite.executed st'))
       (RowsWrite.executed
          (fst (RowsWrite.on_object Scenario.accept_all Scenario.one_customer st')))
  = [RowsWrite.InsertRow "tenant" "col" "customer_records" "customer_id"
                         ["CUST001"] Scenario.john "";
     RowsWrite.InsertRow "tenant" "col" "customer_records" "email"
                         ["john@example.com"] Scenario.john ""].
Proof.
  cbv zeta. split; [|split; [|split; [|split; [|split]]]];
    vm_compute; reflexivity.
Qed.

(** ** Batching of the row embeddings computer *)

Section Batching.

Local Open Scope list_scope.

Lemma slice_index_nonneg (n i : Z) : (0 <= i)%Z -> slice_index n i = Z.min i n.
Proof.
  intros H. unfold slice_index.
  destruct (Z.ltb_spec i 0); [lia | reflexivity].
Qed.

(** The slice taken for the [k]th batch. *)
Lemma py_slice_batch {A : Type} (l : list A) (k : nat) (b : Z) :
  (0 < b)%Z ->
  py_slice l (Z.of_nat k * b) (Z.of_nat k * b + b)
  = take (Z.to_nat b) (drop (k * Z.to_nat b) l).
Proof.
  intros Hb. unfold py_slice.
  rewrite !slice_index_nonneg by nia.
  assert (Hk : Z.to_nat (Z.of_nat k * b) = k * Z.to_nat b).
  { rewrite Z2Nat.inj_mul by lia. now rewrite Nat2Z.id. }
  assert (Hkb : (Z.of_nat (k * Z.to_nat b) = Z.of_nat k * b)%Z).
  { rewrite Nat2Z.inj_mul. rewrite Z2Nat.id by lia. reflexivity. }
  destruct (Z.le_gt_cases (Z.of_nat (length l)) (Z.of_nat k * b)) as [Hge|Hlt].
  - rewrite (drop_ge l (k * Z.to_nat b)) by lia.
    rewrite (drop_ge l (Z.to_nat _)) by lia.
    now rewrite !take_nil.
  - rewrite (Z.min_l (Z.of_nat k * b)) by lia. rewrite Hk.
    destruct (Z.le_gt_cases (Z.of_nat k * b + b) (Z.of_nat (length l)))
      as [Hfull|Hpart].
    + rewrite Z.min_l by lia. f_equal. lia.
    + rewrite Z.min_r by lia.
      rewrite !take_ge; [reflexivity | rewrite length_drop; lia
                                     | rewrite length_drop; lia].
Qed.

(** Consecutive chunks of size [b] that cover the list give it back. *)
Lemma chunks_concat {A : Type} (b count : nat) (l : list A) :
  length l <= count * b ->
  concat (map (fun k => take b (drop (k * b) l)) (seq 0 count)) = l.
Proof.
  revert l. induction count as [|c IH]; intros l Hl; simpl.
  - destruct l; [reflexivity | simpl in Hl; lia].
  - rewrite <- seq_shift, map_map.
    rewrite (map_ext _ (fun k => take b (drop (k * b) (drop b l)))).
    + rewrite IH by (rewrite length_drop; lia).
      rewrite drop_0. apply take_drop.
    + intros k. rewrite drop_drop. reflexivity.
Qed.

Lemma range_count (n b : Z) :
  (0 <= n)%Z -> (0 < b)%Z ->
  (n <= Z.max 0 ((n + b - 1) / b) * b)%Z.
Proof.
  intros Hn Hb.
  pose proof (Z.div_mod (n + b - 1) b ltac:(lia)) as Hd.
  pose proof (Z.mod_pos_bound (n + b - 1) b Hb) as Hm.
  nia.
Qed.

Import RowEmbeddingsCompute.

Context (embed : string -> result (list (list float))).

(** C6: when the batch size is positive and the handler returns, every
    message sent carries at most [batch_size] embeddings, and the messages
    in send order concatenate to the embeddings list in its order. *)
Theorem batches_bounded_and_ordered (obj : ExtractedObject.t) (st : Processor) :
  (0 < batch_size st)%Z ->
  let run := on_message embed obj st in
  outcome run = Ok tt ->
  (forall message, List.In message (sent run) ->
     (Z.of_nat (length (RowEmbeddings.embeddings message)) <= batch_size st)%Z) /\
  concat (map RowEmbeddings.embeddings (sent run)) = embeddings_list run.
Proof.
  intros Hb run Hout. subst run. revert Hout. unfold on_message.
  destruct (negb _); [now split|].
  destruct (schemas st !! _) as [schema|]; [|now split].
  destruct (get_index_names schema); [now split|].
  destruct (collect_texts _ _); [now split|].
  destruct (embed_all embed _) as [[calls embeddings] r].
  destruct r as [[]|msg]; [|discriminate].
  unfold py_range0.
  destruct (Z.eqb_spec (batch_size st) 0) as [E|_]; [lia|].
  destruct (Z.ltb_spec 0 (batch_size st)) as [_|E]; [|lia].
  simpl. intros _.
  set (count := Z.to_nat (Z.max 0 ((Z.of_nat (length embeddings)
                                    + batch_size st - 1) / batch_size st))).
  split.
  - intros message Hin.
    rewrite map_map in Hin. apply in_map_iff in Hin as (k & <- & _). simpl.
    rewrite py_slice_batch by exact Hb. rewrite length_take. lia.
  - rewrite !map_map. simpl.
    rewrite (map_ext _ (fun k => take (Z.to_nat (batch_size st))
                                      (drop (k * Z.to_nat (batch_size st))
                                            embeddings)))
      by (intros k; now apply py_slice_batch).
    apply chunks_concat.
    pose proof (range_count (Z.of_nat (length embeddings)) (batch_size st)
                            ltac:(lia) Hb).
    unfold count. nia.
Qed.

(** The default batch size. *)
Lemma default_batch_size_is_10 : default_batch_size = 10%Z.
Proof. reflexivity. Qed.

(** A negative batch size makes the range empty: nothing is sent. *)
Lemma negative_batch_size_sends_nothing (obj : ExtractedObject.t) (st : Processor) :
  (batch_size st < 0)%Z -> sent (on_message embed obj st) = [].
Proof.
  intros Hb. unfold on_message.
  destruct (negb _); [reflexivity|].
  destruct (schemas st !! _) as [schema|]; [|reflexivity].
  destruct (get_index_names schema); [reflexivity|].
  destruct (collect_texts _ _); [reflexivity|].
  destruct (embed_all embed _) as [[calls embeddings] r].
  destruct r as [[]|msg]; [|reflexivity].
  unfold py_range0.
  destruct (Z.eqb_spec (batch_size st) 0) as [E|_]; [lia|].
  destruct (Z.ltb_spec 0 (batch_size st)) as [E|_]; [lia|].
  replace (Z.max 0 _) with 0%Z; [reflexivity|].
  pose proof (Z.div_mod (- Z.of_nat (length embeddings) - batch_size st - 1)
                        (- batch_size st) ltac:(lia)) as Hd.
  pose proof (Z.mod_pos_bound (- Z.of_nat (length embeddings) - batch_size st - 1)
                              (- batch_size st) ltac:(lia)) as Hm.
  nia.
Qed.

End Batching.

(** ** Deduplication in the row embeddings computer *)

Section Deduplication.

Import RowEmbeddingsCompute ComputeSpec.
Local Open Scope list_scope.

(** The step of the collection loop on a pair that is not skipped. *)
Local Abbreviation add_pair := (fun (d : text_dict) (pair : string * list string) =>
  if Py.truthy (text_of pair) && negb (dict_mem (text_of pair) d)
  then d ++ [(text_of pair, pair)] else d).

Lemma join_not_empty (index_value : list string) :
  all_empty index_value = false ->
  Py.truthy (Py.join " " index_value) = true.
Proof.
  induction index_value as [|x rest IH]; [discriminate|].
  destruct rest as [|y rest'].
  - simpl. destruct x; [discriminate | reflexivity].
  - intros _. change (Py.join " " (x :: y :: rest'))
      with (x ++ " " ++ Py.join " " (y :: rest'))%string.
    now destruct x.
Qed.

Lemma collect_index_fold
  (value_map : gmap string string) (index_names : list string) (d : text_dict) :
  fold_left (collect_index value_map) index_names d
  = fold_left add_pair (observed index_names [value_map]) d.
Proof.
  unfold observed. simpl. rewrite app_nil_r. revert d.
  induction index_names as [|n rest IH]; intros d; simpl; [reflexivity|].
  rewrite fold_left_app, <- IH. f_equal.
  unfold collect_index. rewrite skip_build_index_value.
  now destruct (all_empty _).
Qed.

Lemma collect_texts_fold
  (index_names : list string) (values : list (gmap string string)) :
  collect_texts index_names values
  = fold_left add_pair (observed index_names values) [].
Proof.
  unfold collect_texts.
  assert (H : forall d : text_dict,
             fold_left (fun texts_to_embed value_map =>
                          fold_left (collect_index value_map) index_names
                                    texts_to_embed) values d
             = fold_left add_pair (observed index_names values) d);
    [|apply H].
  induction values as [|vm rest IH]; intros d; [reflexivity|].
  simpl fold_left at 1. rewrite IH, collect_index_fold.
  unfold observed. simpl. now rewrite app_nil_r, fold_left_app.
Qed.

Lemma observed_texts_truthy
  (index_names : list string) (values : list (gmap string string))
  (pair : string * list string) :
  List.In pair (observed index_names values) ->
  Py.truthy (text_of pair) = true.
Proof.
  unfold observed. intros H.
  apply in_flat_map in H as (vm & _ & H).
  apply in_flat_map in H as (n & _ & H). cbv zeta in H.
  destruct (all_empty (build_index_value vm n)) eqn:E; [contradiction|].
  destruct H as [<-|[]]. now apply join_not_empty.
Qed.

Lemma dict_mem_in (text : string) (d : text_dict) :
  dict_mem text d = true <-> List.In text (map fst d).
Proof.
  unfold dict_mem. rewrite existsb_exists, in_map_iff. split.
  - intros (e & He & Heq). apply String.eqb_eq in Heq. eauto.
  - intros (e & Heq & He). exists e. split; [exact He|].
    now apply String.eqb_eq.
Qed.

(** The dictionary the loop builds from an initial dictionary [d]. *)
Lemma add_pairs_spec (pairs : list (string * list string)) (d : text_dict) :
  (forall pair, List.In pair pairs -> Py.truthy (text_of pair) = true) ->
  NoDup (map fst d) ->
  let d' := fold_left add_pair pairs d in
  NoDup (map fst d') /\
  (forall text, List.In text (map fst d') <->
                List.In text (map fst d) \/
                exists pair, List.In pair pairs /\ text_of pair = text) /\
  (forall text pair, List.In (text, pair) d' ->
     List.In (text, pair) d \/
     (~ List.In text (map fst d) /\ first_observed text pairs = Some pair)).
Proof.
  revert d. induction pairs as [|p rest IH]; intros d Htruthy Hnd; cbv zeta.
  - simpl. split; [exact Hnd|]. split; [|auto].
    intros text. split; [auto|]. intros [H|(pair & [] & _)]. exact H.
  - simpl fold_left.
    rewrite (Htruthy p (or_introl eq_refl)). simpl andb.
    assert (Hrest : forall pair, List.In pair rest ->
                                 Py.truthy (text_of pair) = true).
    { intros pair Hin. apply Htruthy. now right. }
    destruct (dict_mem (text_of p) d) eqn:Hmem; simpl negb; cbv iota.
    + apply dict_mem_in in Hmem.
      destruct (IH d Hrest Hnd) as (H1 & H2 & H3). cbv zeta in H1, H2, H3.
      split; [exact H1|]. split.
      * intros text. rewrite H2. split.
        -- intros [H|(pair & Hin & Ht)]; [auto|]. right. exists pair.
           split; [now right | exact Ht].
        -- intros [H|(pair & [<-|Hin] & Ht)]; [auto| |].
           ++ left. now rewrite <- Ht.
           ++ right. eauto.
      * intros text pair Hin. destruct (H3 text pair Hin) as [H|[Hn Hf]]; [auto|].
        right. split; [exact Hn|]. unfold first_observed. simpl.
        destruct (String.eqb_spec (text_of p) text) as [E|_]; [|exact Hf].
        exfalso. apply Hn. now rewrite <- E.
    + assert (Hnot : ~ List.In (text_of p) (map fst d)).
      { intros Hin. apply dict_mem_in in Hin. congruence. }
      assert (Hnd' : NoDup (map fst (d ++ [(text_of p, p)]))).
      { rewrite map_app. simpl.
        apply NoDup_app. split; [exact Hnd|]. split.
        - intros x Hx Hx'. apply list_elem_of_In in Hx.
          apply list_elem_of_singleton in Hx'. subst x. contradiction.
        - apply NoDup_singleton. }
      destruct (IH (d ++ [(text_of p, p)]) Hrest Hnd') as (H1 & H2 & H3).
      cbv zeta in H1, H2, H3.
      split; [exact H1|]. split.
      * intros text. rewrite H2, map_app, in_app_iff. simpl. split.
        -- intros [[H|[<-|[]]]|(pair & Hin & Ht)]; [auto| |].
           ++ right. exists p. split; [now left | reflexivity].
           ++ right. exists pair. split; [now right | exact Ht].
        -- intros [H|(pair & [<-|Hin] & Ht)]; [auto| |].
           ++ left. right. left. exact Ht.
           ++ right. eauto.
      * intros text pair Hin. destruct (H3 text pair Hin) as [H|[Hn Hf]].
        -- apply in_app_iff in H as [H|[H|[]]]; [auto|].
           injection H as <- <-. right. split; [exact Hnot|].
           unfold first_observed. simpl. now rewrite String.eqb_refl.
        -- right. rewrite map_app, in_app_iff in Hn. simpl in Hn.
           split; [tauto|]. unfold first_observed. simpl.
           destruct (String.eqb_spec (text_of p) text) as [E|_]; [|exact Hf].
           exfalso. apply Hn. right. now left.
Qed.

Lemma observed_no_indexes (values : list (gmap string string)) :
  observed [] values = [].
Proof. unfold observed. induction values; simpl; auto. Qed.

Context (embed : string -> result (list (list float))).

Lemma embed_all_run (d : text_dict) :
  (forall text, List.In text (map fst d) -> exists vectors, embed text = Ok vectors) ->
  exists embeddings,
    embed_all embed d = (map fst d, embeddings, Ok tt) /\
    map RowIndexEmbedding.text embeddings = map fst d /\
    forall e, List.In e embeddings ->
      List.In (RowIndexEmbedding.text e,
               (RowIndexEmbedding.index_name e, RowIndexEmbedding.index_value e)) d /\
      embed (RowIndexEmbedding.text e) = Ok (RowIndexEmbedding.vectors e).
Proof.
  induction d as [|[text [index_name index_value]] rest IH]; intros Hok.
  - exists []. simpl. split; [reflexivity|]. split; [reflexivity|]. intros ? [].
  - destruct (Hok text (or_introl eq_refl)) as [vectors Hv].
    destruct IH as (embeddings & E & Ht & He).
    { intros t Hin. apply Hok. now right. }
    exists (RowIndexEmbedding.make index_name index_value text vectors :: embeddings).
    simpl. rewrite Hv, E. split; [reflexivity|]. split; [now rewrite Ht|].
    intros e [<-|Hin]; simpl; [auto|].
    destruct (He e Hin). auto.
Qed.

(** C5: for a processed batch (collection exists, schema registered, the
    embeddings service answering), each distinct text — the space-join of
    an index value that is not entirely empty — is embedded exactly once,
    and it is associated with the first (index_name, index_value) pair
    observed under iteration of the rows, then of the indexes; the entirely
    empty index values take no part. *)
Theorem each_text_embedded_once
  (obj : ExtractedObject.t) (st : Processor) (schema : RowSchema.t) :
  collection_exists (known_collections st)
    (Metadata.user (ExtractedObject.metadata obj))
    (Metadata.collection (ExtractedObject.metadata obj)) = true ->
  schemas st !! ExtractedObject.schema_name obj = Some schema ->
  let pairs := observed (get_index_names schema) (ExtractedObject.values obj) in
  (forall pair, List.In pair pairs ->
                exists vectors, embed (text_of pair) = Ok vectors) ->
  let run := on_message embed obj st in
  (forall text,
     List.In text (embed_calls run) <->
     exists pair, List.In pair pairs /\ text_of pair = text) /\
  (forall pair, List.In pair pairs ->
                count_occ string_dec (embed_calls run) (text_of pair) = 1) /\
  map RowIndexEmbedding.text (embeddings_list run) = embed_calls run /\
  (forall e, List.In e (embeddings_list run) ->
     first_observed (RowIndexEmbedding.text e) pairs
     = Some (RowIndexEmbedding.index_name e, RowIndexEmbedding.index_value e) /\
     embed (RowIndexEmbedding.text e) = Ok (RowIndexEmbedding.vectors e)).
Proof.
  intros Hexists Hschema pairs Hembed run.
  set (d := collect_texts (get_index_names schema) (ExtractedObject.values obj)).
  destruct (add_pairs_spec pairs []
              (observed_texts_truthy _ _) NoDup_nil_2) as (Hnd & Hmem & Hfirst).
  cbv zeta in Hnd, Hmem, Hfirst.
  unfold pairs in Hnd, Hmem, Hfirst. rewrite <- collect_texts_fold in *.
  fold d in Hnd, Hmem, Hfirst. fold pairs in Hmem, Hfirst.
  assert (Hkeys : forall text, List.In text (map fst d) <->
                    exists pair, List.In pair pairs /\ text_of pair = text).
  { intros text. rewrite Hmem. simpl. tauto. }
  destruct (embed_all_run d) as (embeddings & Hall & Htexts & Hembs).
  { intros text Hin. apply Hkeys in Hin as (pair & Hp & <-). auto. }
  assert (Hrun : embed_calls run = map fst d /\
                 (embeddings_list run = embeddings \/
                  (d = [] /\ embeddings_list run = []))).
  { subst run. unfold on_message. rewrite Hexists, Hschema. simpl negb. cbv iota.
    destruct (get_index_names schema) as [|n names] eqn:En.
    - assert (Hd : d = []).
      { unfold d. now rewrite collect_texts_fold, observed_no_indexes. }
      rewrite Hd. simpl. split; [reflexivity|]. right. split; reflexivity.
    - fold d. destruct d as [|entry d'] eqn:Ed.
      + simpl. split; [reflexivity|]. right. split; reflexivity.
      + rewrite Hall.
        destruct (py_range0 _ _); simpl; (split; [reflexivity|now left]). }
  destruct Hrun as [Hcalls Hlist]. rewrite Hcalls.
  assert (Hembeddings : embeddings_list run = embeddings).
  { destruct Hlist as [H|[Hd H]]; [exact H|]. rewrite H.
    rewrite Hd in Htexts. simpl in Htexts. now destruct embeddings. }
  rewrite Hembeddings.
  split; [exact Hkeys|]. split; [|split; [exact Htexts|]].
  - intros pair Hin. apply NoDup_ListNoDup in Hnd.
    apply (proj1 (NoDup_count_occ' string_dec (map fst d)) Hnd).
    apply Hkeys. eauto.
  - intros e He. destruct (Hembs e He) as [Hin Hv]. split; [|exact Hv].
    destruct (Hfirst _ _ Hin) as [[]|[_ Hf]]. exact Hf.
Qed.

End Deduplication.

(** ** Vector collections of the row embeddings writer *)

Section EmbeddingsWriter.

Import RowEmbeddingsWrite EmbeddingsWriteSpec.
Local Open Scope list_scope.

Lemma write_embedding_fold
  (user collection schema_name : string)
  (acc : option string * Processor) (row_emb : RowIndexEmbedding.t) :
  write_embedding user collection schema_name acc row_emb
  = fold_left (write_vector user collection schema_name row_emb)
              (RowIndexEmbedding.vectors row_emb) acc.
Proof.
  unfold write_embedding. now destruct (RowIndexEmbedding.vectors row_emb).
Qed.

(** Once the collection name is set, every further vector goes to it. *)
Lemma write_vectors_named
  (user collection schema_name name : string) (row_emb : RowIndexEmbedding.t)
  (vectors : list (list float)) (st : Processor) :
  fold_left (write_vector user collection schema_name row_emb) vectors
            (Some name, st)
  = (Some name, upsert_all name (map (fun v => (row_emb, v)) vectors) st).
Proof.
  revert st. induction vectors as [|v rest IH]; intros st; [reflexivity|].
  simpl. apply IH.
Qed.

Lemma upsert_all_app
  (name : string) (a b : list (RowIndexEmbedding.t * list float)) (st : Processor) :
  upsert_all name (a ++ b) st = upsert_all name b (upsert_all name a st).
Proof. unfold upsert_all. apply fold_left_app. Qed.

Lemma write_embeddings_named
  (user collection schema_name name : string)
  (embeddings : list RowIndexEmbedding.t) (st : Processor) :
  fold_left (write_embedding user collection schema_name) embeddings
            (Some name, st)
  = (Some name, upsert_all name (all_vectors embeddings) st).
Proof.
  revert st. induction embeddings as [|e rest IH]; intros st; [reflexivity|].
  simpl. rewrite write_embedding_fold, write_vectors_named, IH.
  now rewrite upsert_all_app.
Qed.

(** The collection name is computed at the first vector of the message. *)
Lemma write_embeddings_unnamed
  (user collection schema_name : string)
  (embeddings : list RowIndexEmbedding.t) (st : Processor) :
  fold_left (write_embedding user collection schema_name) embeddings (None, st)
  = match all_vectors embeddings with
    | [] => (None, st)
    | (_, first_vector) :: _ =>
        let name := get_collection_name user collection schema_name
                                        (dimension_of first_vector) in
        (Some name,
         upsert_all name (all_vectors embeddings)
                    (ensure_collection name (dimension_of first_vector) st))
    end.
Proof.
  induction embeddings as [|e rest IH]; [reflexivity|].
  change (fold_left (write_embedding user collection schema_name) (e :: rest)
                    (None, st))
    with (fold_left (write_embedding user collection schema_name) rest
            (write_embedding user collection schema_name (None, st) e)).
  rewrite write_embedding_fold.
  change (all_vectors (e :: rest))
    with (map (fun v => (e, v)) (RowIndexEmbedding.vectors e)
          ++ all_vectors rest).
  destruct (RowIndexEmbedding.vectors e) as [|v vs].
  - exact IH.
  - set (name := get_collection_name user collection schema_name
                                     (dimension_of v)).
    change (fold_left (write_vector user collection schema_name e) (v :: vs)
                      (None, st))
      with (fold_left (write_vector user collection schema_name e) vs
              (Some name,
               upsert name v e (ensure_collection name (dimension_of v) st))).
    rewrite write_vectors_named, write_embeddings_named.
    simpl map. simpl app. cbv zeta. fold name. f_equal.
    now rewrite <- upsert_all_app.
Qed.

Lemma upsert_all_state
  (name : string) (items : list (RowIndexEmbedding.t * list float))
  (st : Processor) :
  let st' := upsert_all name items st in
  upserts (qdrant st')
  = upserts (qdrant st)
    ++ imap (fun i item => (name, point_of (next_uuid st) i item)) items /\
  collections (qdrant st') = collections (qdrant st) /\
  created_collections st' = created_collections st /\
  next_uuid st' = next_uuid st + length items.
Proof.
  revert st. induction items as [|item rest IH]; intros st; cbv zeta.
  - simpl. rewrite app_nil_r. auto.
  - change (upsert_all name (item :: rest) st)
      with (upsert_all name rest (upsert name (snd item) (fst item) st)).
    destruct (IH (upsert name (snd item) (fst item) st)) as (H1 & H2 & H3 & H4).
    cbv zeta in H1, H2, H3, H4. rewrite H1, H2, H3, H4. simpl.
    split; [|split; [reflexivity|split; [reflexivity|lia]]].
    rewrite <- app_assoc. simpl. f_equal. f_equal.
    + unfold point_of. now rewrite Nat.add_0_r.
    + apply imap_ext. intros i x _. unfold point_of. simpl.
      f_equal. f_equal. lia.
Qed.

(** The identifiers of the points of one message are consecutive draws of
    the supply: pairwise distinct, and none drawn before. *)
Lemma point_identifiers
  (name : string) (first_id : nat)
  (items : list (RowIndexEmbedding.t * list float)) :
  map (fun call => id (snd call))
      (imap (fun i item => (name, point_of first_id i item)) items)
  = seq first_id (length items).
Proof.
  revert first_id. induction items as [|item rest IH]; intros first_id;
    [reflexivity|].
  simpl. f_equal; [lia|]. rewrite <- IH. f_equal.
  apply imap_ext. intros i x _. unfold point_of. simpl. do 2 f_equal. lia.
Qed.

(** C4 (as amended): for a message of a known collection, every vector of
    every RowIndexEmbedding is upserted, in order, with payload
    {index_name, index_value, text} and a fresh identifier (the next draws
    of the supply, pairwise distinct), into the one collection named from
    the dimension of the first vector of the message; that collection is
    created, with that size and cosine distance, when it is neither in the
    created-collections cache nor present in the store. *)
Theorem vectors_written_to_first_dimension_collection
  (message : RowEmbeddings.t) (st : Processor) :
  let metadata := RowEmbeddings.metadata message in
  let user := Metadata.user metadata in
  let collection := Metadata.collection metadata in
  let schema_name := RowEmbeddings.schema_name message in
  let items := all_vectors (RowEmbeddings.embeddings message) in
  collection_exists (known_collections st) user collection = true ->
  let st' := on_embeddings message st in
  match items with
  | [] => st' = st
  | (_, first_vector) :: _ =>
      let dimension := dimension_of first_vector in
      let name :=
        ("rows_" ++ sanitize_name user ++ "_" ++ sanitize_name collection ++ "_"
                 ++ sanitize_name schema_name ++ "_"
                 ++ Py.str_of_int dimension)%string in
      upserts (qdrant st')
      = upserts (qdrant st)
        ++ imap (fun i item => (name, point_of (next_uuid st) i item)) items /\
      collections (qdrant st')
      = (if bool_decide (name ∈ created_collections st)
         then collections (qdrant st)
         else match collections (qdrant st) !! name with
              | Some _ => collections (qdrant st)
              | None => <[name := mkVectorParams dimension COSINE]>
                          (collections (qdrant st))
              end) /\
      name ∈ created_collections st' /\
      next_uuid st' = next_uuid st + length items /\
      map (fun call => id (snd call))
          (imap (fun i item => (name, point_of (next_uuid st) i item)) items)
      = seq (next_uuid st) (length items)
  end.
Proof.
  cbv zeta. intros Hexists. unfold on_embeddings. rewrite Hexists. simpl negb.
  cbv iota. rewrite write_embeddings_unnamed.
  destruct (all_vectors (RowEmbeddings.embeddings message))
    as [|[e0 v0] rest] eqn:Eitems; [reflexivity|].
  cbv zeta. simpl snd.
  fold (get_collection_name
          (Metadata.user (RowEmbeddings.metadata message))
          (Metadata.collection (RowEmbeddings.metadata message))
          (RowEmbeddings.schema_name message) (dimension_of v0)).
  set (name := get_collection_name _ _ _ _).
  destruct (upsert_all_state name ((e0, v0) :: rest)
              (ensure_collection name (dimension_of v0) st))
    as (H1 & H2 & H3 & H4).
  cbv zeta in H1, H2, H3, H4.
  change (upsert_all name ((e0, v0) :: rest)
                     (ensure_collection name (dimension_of v0) st))
    with (upsert_all name rest
            (upsert name v0 e0 (ensure_collection name (dimension_of v0) st)))
    in H1, H2, H3, H4.
  rewrite H1, H2, H3, H4.
  pose proof (point_identifiers name (next_uuid st) ((e0, v0) :: rest)) as Hids.
  unfold ensure_collection.
  destruct (bool_decide (name ∈ created_collections st)) eqn:Hc.
  - split; [reflexivity|]. split; [reflexivity|].
    split; [now apply bool_decide_eq_true in Hc|]. split; [reflexivity|].
    exact Hids.
  - simpl.
    destruct (collections (qdrant st) !! name); simpl;
      (split; [reflexivity|]; split; [reflexivity|];
       split; [apply elem_of_union_l; now apply elem_of_singleton|];
       split; [reflexivity | exact Hids]).
Qed.

End EmbeddingsWriter.

(** * The scenarios of the specification *)

(** S1: writing John's row under customer_records on a fresh writer gives
    two [rows] inserts and two [row_partitions] inserts. *)
Lemma accepted_write_amplification_witness :
  let st := Scenario.fresh_writer Scenario.customer_records in
  let run := RowsWrite.on_object Scenario.accept_all Scenario.one_customer st in
  length (List.filter RowsWrite.is_rows_insert (RowsWrite.executed (fst run)))
  = 2 * 1 /\
  length (List.filter RowsWrite.is_partition_insert
                      (RowsWrite.executed (fst run))) = 2.
Proof.
  cbv zeta.
  destruct (accepted_write_amplification Scenario.accept_all
              Scenario.one_customer
              (Scenario.fresh_writer Scenario.customer_records)
              Scenario.customer_records)
    as (Hexec & Hrows & Hparts & _ & _ & Hcount & _).
  - reflexivity.
  - reflexivity.
  - vm_compute. discriminate.
  - reflexivity.
  - rewrite Hexec. simpl RowsWrite.executed.
    rewrite app_nil_l, Hrows, Hparts. split.
    + apply (Hcount 2). intros vm [<-|[]]. reflexivity.
    + reflexivity.
Defined.

(** C1 (as stated) fails on a write whose (collection, schema_name) is
    already in the cache: the write is accepted, the schema has two active
    indexes, and no [row_partitions] insert is executed. *)
Lemma cached_write_registers_no_partition :
  let st := Scenario.writer_after_write Scenario.customer_records in
  let run := RowsWrite.on_object Scenario.accept_all Scenario.one_customer st in
  collection_exists (RowsWrite.known_collections st) "tenant" "col" = true /\
  RowsWrite.schemas st !! "customer_records" = Some Scenario.customer_records /\
  RowsWrite.get_index_names Scenario.customer_records = ["customer_id"; "email"] /\
  snd run = Ok tt /\
  List.filter RowsWrite.is_partition_insert
    (drop (length (RowsWrite.executed st)) (RowsWrite.executed (fst run))) = [] /\
  length (List.filter RowsWrite.is_rows_insert
            (drop (length (RowsWrite.executed st))
                  (RowsWrite.executed (fst run)))) = 2.
Proof. cbv zeta. repeat split; vm_compute; reflexivity. Qed.

(** S5 and S6: the equality filter on email is a direct read of the email
    index; the contains filter on name scans the first active index. *)
Lemma direct_read_iff_indexed_filter_key_witness :
  fst (RowsQuery.query_cassandra
         Scenario.float_str Scenario.list_str Scenario.float_of_str
         Scenario.float_of_int Scenario.session Scenario.keep_order
         "tenant" "col" "customer_records" Scenario.customer_records
         {[ "email" := VScalar (SStr "john@example.com") ]} (Some 100%Z)
         None None)
  = [RowsQuery.DirectRead "tenant" "col" "customer_records" "email"
                          ["john@example.com"] (Some 100%Z)] /\
  RowsQuery.query_cassandra
    Scenario.float_str Scenario.list_str Scenario.float_of_str
    Scenario.float_of_int Scenario.session Scenario.keep_order
    "tenant" "col" "customer_records" Scenario.customer_records
    {[ "name_contains" := VScalar (SStr "John") ]} (Some 100%Z) None None
  = ([RowsQuery.ScanRead "tenant" "col" "customer_records" "customer_id"],
     Ok [Scenario.john]).
Proof.
  split.
  - destruct (direct_read_iff_indexed_filter_key
                Scenario.float_str Scenario.list_str Scenario.float_of_str
                Scenario.float_of_int Scenario.session Scenario.keep_order
                "tenant" "col" "customer_records" Scenario.customer_records
                {[ "email" := VScalar (SStr "john@example.com") ]}
                (Some 100%Z) None None) as (_ & Hdirect & _).
    apply (Hdirect [Scenario.field "customer_id" true false false;
                    Scenario.field "name" false false true]
                   (Scenario.field "email" false true false)
                   [Scenario.field "age" false false false]
                   (VScalar (SStr "john@example.com"))).
    + reflexivity.
    + reflexivity.
    + reflexivity.
    + intros f [<-|[<-|[]]] _; reflexivity.
  - reflexivity.
Defined.

(** A message whose first vector has two dimensions: both its points go to
    the collection of dimension two, created on the way. *)
Lemma vectors_written_to_first_dimension_collection_witness :
  let st' := RowEmbeddingsWrite.on_embeddings Scenario.mixed_dimensions
               Scenario.embeddings_writer in
  map fst (RowEmbeddingsWrite.upserts (RowEmbeddingsWrite.qdrant st'))
  = ["rows_tenant_col_customer_records_2"; "rows_tenant_col_customer_records_2"] /\
  RowEmbeddingsWrite.collections (RowEmbeddingsWrite.qdrant st')
  = {[ "rows_tenant_col_customer_records_2" :=
         RowEmbeddingsWrite.mkVectorParams 2 RowEmbeddingsWrite.COSINE ]} /\
  RowEmbeddingsWrite.next_uuid st' = 2.
Proof.
  cbv zeta.
  pose proof (vectors_written_to_first_dimension_collection
                Scenario.mixed_dimensions Scenario.embeddings_writer eq_refl)
    as H.
  cbv zeta in H.
  change (EmbeddingsWriteSpec.all_vectors
            (RowEmbeddings.embeddings Scenario.mixed_dimensions))
    with [(RowIndexEmbedding.make "email" ["john@example.com"]
             "john@example.com"
             [[0.5%float; 0.25%float]; [0.5%float; 0.25%float; 0.125%float]],
           [0.5%float; 0.25%float]);
          (RowIndexEmbedding.make "email" ["john@example.com"]
             "john@example.com"
             [[0.5%float; 0.25%float]; [0.5%float; 0.25%float; 0.125%float]],
           [0.5%float; 0.25%float; 0.125%float])] in H.
  cbv iota beta in H.
  destruct H as (Hupserts & Hcollections & _ & Hnext & _).
  rewrite Hupserts, Hcollections, Hnext. repeat split.
Defined.

(** C4 (as stated) fails on a message with vectors of two dimensions: the
    three-dimensional vector is upserted into the collection of dimension
    two, and no collection of dimension three is created. *)
Lemma second_dimension_goes_to_first_collection :
  let st' := RowEmbeddingsWrite.on_embeddings Scenario.mixed_dimensions
               Scenario.embeddings_writer in
  map (fun call => (fst call,
                    length (RowEmbeddingsWrite.vector (snd call))))
      (RowEmbeddingsWrite.upserts (RowEmbeddingsWrite.qdrant st'))
  = [("rows_tenant_col_customer_records_2", 2);
     ("rows_tenant_col_customer_records_2", 3)] /\
  RowEmbeddingsWrite.get_collection_name "tenant" "col" "customer_records" 3
  = "rows_tenant_col_customer_records_3" /\
  RowEmbeddingsWrite.collections (RowEmbeddingsWrite.qdrant st')
    !! "rows_tenant_col_customer_records_3" = None.
Proof. cbv zeta. repeat split; vm_compute; reflexivity. Qed.

(** John and Jane share an e-mail address: its text is embedded once, and
    it stays with the pair observed first. *)
Lemma each_text_embedded_once_witness :
  let run := RowEmbeddingsCompute.on_message Scenario.embed
               Scenario.two_customers Scenario.computer in
  count_occ string_dec (RowEmbeddingsCompute.embed_calls run)
            "john@example.com" = 1 /\
  RowEmbeddingsCompute.embed_calls run
  = ["CUST001"; "john@example.com"; "CUST002"].
Proof.
  cbv zeta.
  destruct (each_text_embedded_once Scenario.embed Scenario.two_customers
              Scenario.computer Scenario.customer_records eq_refl eq_refl)
    as (_ & Honce & _).
  - intros pair _. eexists. reflexivity.
  - split; [|reflexivity].
    apply (Honce ("email", ["john@example.com"])).
    vm_compute. auto.
Defined.

(** The three embeddings of John and Jane leave in one message under the
    default batch size. *)
Lemma batches_bounded_and_ordered_witness :
  let run := RowEmbeddingsCompute.on_message Scenario.embed
               Scenario.two_customers Scenario.computer in
  concat (map RowEmbeddings.embeddings (RowEmbeddingsCompute.sent run))
  = RowEmbeddingsCompute.embeddings_list run /\
  length (RowEmbeddingsCompute.sent run) = 1.
Proof.
  cbv zeta.
  destruct (batches_bounded_and_ordered Scenario.embed Scenario.two_customers
              Scenario.computer) as [_ Hconcat].
  - reflexivity.
  - reflexivity.
  - split; [exact Hconcat | reflexivity].
Defined.

(** A service that has received no configuration answers with the error. *)
Lemma no_graphql_schema_error_response_witness :
  RowsQuery.on_message string id Py.truthy Scenario.no_execution
                       (RowsQuery.init "schema") Scenario.graphql_request
  = RowsQuery.mkResponse
      (Some (Error.make "rows-query-error"
                        "No GraphQL schema available - no schemas loaded"))
      None [] ∅.
Proof.
  apply (no_graphql_schema_error_response string id Py.truthy
           Scenario.no_execution (RowsQuery.init "schema")
           Scenario.graphql_request).
  reflexivity.
Defined.

(** C8 (as stated) fails on the message: the response carries
    "No GraphQL schema available - no schemas loaded". *)
Lemma no_graphql_schema_message_differs :
  let response :=
    RowsQuery.on_message string id Py.truthy Scenario.no_execution
                         (RowsQuery.init "schema") Scenario.graphql_request in
  RowsQuery.graphql_schema (RowsQuery.init "schema") = None /\
  option_map Error.message (RowsQuery.error response)
  = Some "No GraphQL schema available - no schemas loaded" /\
  option_map Error.message (RowsQuery.error response)
  <> Some "No GraphQL schema available".
Proof. cbv zeta. repeat split. vm_compute. discriminate. Qed.

(** S7: no vector collection of customer_records exists. *)
Lemma missing_collection_empty_response_witness :
  RowEmbeddingsQuery.on_message Scenario.other_collections Scenario.no_points
                                Scenario.email_request
  = RowEmbeddingsQuery.mkResponse None [].
Proof.
  apply (missing_collection_empty_response Scenario.other_collections
           Scenario.no_points Scenario.email_request).
  intros names [= <-] name [<-|[]]. reflexivity.
Defined.

(** The key of a startsWith filter is an equality on a field that no row
    has; age_gte is the operator gte on age. *)
Lemma filter_key_operator_suffixes_witness :
  (exists op, op <> RowsQuery.Eq /\
              RowsQuery.split_filter_key "age_gte" = ("age", op)) /\
  RowsQuery._matches_filters
    Scenario.float_str Scenario.list_str Scenario.float_of_str
    Scenario.float_of_int Scenario.john
    {[ "name_startsWith" := VScalar (SStr "John") ]}
    Scenario.customer_records = false.
Proof.
  destruct (filter_key_operator_suffixes
              Scenario.float_str Scenario.list_str Scenario.float_of_str
              Scenario.float_of_int) as (Hknown & Hother & _ & _).
  split.
  - apply (Hknown "age_gte" "age" "gte"); [reflexivity|].
    simpl. auto.
  - destruct (Hother "name_startsWith") as [_ Hreject].
    + intros field suffix [= <- <-]. simpl. intuition discriminate.
    + apply (Hreject Scenario.john _ Scenario.customer_records
                     (VScalar (SStr "John"))).
      * reflexivity.
      * discriminate.
      * reflexivity.
Defined.

(** * Further properties *)

(** ** Failure discipline of the row writer *)

Section WriterFailures.

Import RowsWrite WriterSpec.
Local Open Scope list_scope.

Context (session_execute : cql -> result unit).

(** What a step of the writer does to the session: when it returns it has
    only added statements; when it raises, the last statement added is one
    the session rejected with that message, and not a partition insert. *)
Local Abbreviation disciplined m :=
  (forall st : Processor,
     match m st with
     | (st', Ok _) => exists qs, executed st' = executed st ++ qs
     | (st', Raise msg) =>
         exists qs q, executed st' = executed st ++ qs ++ [q] /\
                      session_execute q = Raise msg /\
                      is_partition_insert q = false
     end).

Lemma disciplined_ret : disciplined (@ret unit tt).
Proof. intros st. exists []. simpl. now rewrite app_nil_r. Qed.

Lemma disciplined_bind {A B : Type} (m : M A) (k : A -> M B) :
  disciplined m -> (forall a, disciplined (k a)) -> disciplined (bind m k).
Proof.
  intros Hm Hk st. unfold bind. specialize (Hm st).
  destruct (m st) as [st1 [a|msg]]; [|exact Hm].
  destruct Hm as [qs1 E1]. specialize (Hk a st1).
  destruct (k a st1) as [st2 [b|msg]].
  - destruct Hk as [qs2 E2]. exists (qs1 ++ qs2).
    now rewrite E2, E1, app_assoc.
  - destruct Hk as (qs2 & q & E2 & Hq & Hp). exists (qs1 ++ qs2), q.
    rewrite E2, E1. now rewrite <- !app_assoc.
Qed.

Lemma disciplined_gets {A : Type} (f : Processor -> A) : disciplined (gets f).
Proof. intros st. exists []. simpl. now rewrite app_nil_r. Qed.

Lemma disciplined_modify (f : Processor -> Processor) :
  (forall st, executed (f st) = executed st) -> disciplined (modify f).
Proof. intros Hf st. exists []. simpl. now rewrite Hf, app_nil_r. Qed.

Lemma disciplined_execute (q : cql) :
  is_partition_insert q = false -> disciplined (execute session_execute q).
Proof.
  intros Hq st. unfold execute.
  destruct (session_execute q) as [[]|msg] eqn:E.
  - exists [q]. reflexivity.
  - exists [], q. simpl. auto.
Qed.

Lemma disciplined_swallow (q : cql) :
  disciplined (swallow (execute session_execute q)).
Proof. intros st. exists [q]. reflexivity. Qed.

Lemma disciplined_for_each {X : Type} (xs : list X) (body : X -> M unit) :
  (forall x, disciplined (body x)) -> disciplined (for_each xs body).
Proof.
  intros Hbody. induction xs as [|x rest IH]; simpl.
  - apply disciplined_ret.
  - apply disciplined_bind; [apply Hbody | intros _; exact IH].
Qed.

Lemma disciplined_ensure_tables (keyspace : string) :
  disciplined (ensure_tables session_execute keyspace).
Proof.
  unfold ensure_tables, ensure_keyspace.
  apply disciplined_bind; [apply disciplined_gets|]. intros initialized.
  destruct (bool_decide (keyspace ∈ initialized)); [apply disciplined_ret|].
  apply disciplined_bind.
  - apply disciplined_bind; [apply disciplined_gets|]. intros known.
    destruct (bool_decide (keyspace ∈ known)); [apply disciplined_ret|].
    apply disciplined_bind; [now apply disciplined_execute|]. intros _.
    now apply disciplined_modify.
  - intros _. apply disciplined_bind; [now apply disciplined_execute|].
    intros _. apply disciplined_bind; [now apply disciplined_execute|].
    intros _. now apply disciplined_modify.
Qed.

Lemma disciplined_register_partitions (keyspace collection schema_name : string) :
  disciplined (register_partitions session_execute keyspace collection
                                   schema_name).
Proof.
  unfold register_partitions.
  apply disciplined_bind; [apply disciplined_gets|]. intros registered.
  destruct (bool_decide ((collection, schema_name) ∈ registered));
    [apply disciplined_ret|].
  apply disciplined_bind; [apply disciplined_gets|]. intros known_schemas.
  destruct (known_schemas !! schema_name); [|apply disciplined_ret].
  apply disciplined_bind.
  - apply disciplined_for_each. intros index_name. apply disciplined_swallow.
  - intros _. now apply disciplined_modify.
Qed.

(** The handler after the collection check. *)
Lemma on_object_disciplined (obj : ExtractedObject.t) (st : Processor) :
  collection_exists (known_collections st)
    (Metadata.user (ExtractedObject.metadata obj))
    (Metadata.collection (ExtractedObject.metadata obj)) = true ->
  match on_object session_execute obj st with
  | (st', Ok _) => exists qs, executed st' = executed st ++ qs
  | (st', Raise msg) =>
      exists qs q, executed st' = executed st ++ qs ++ [q] /\
                   session_execute q = Raise msg /\
                   is_partition_insert q = false
  end.
Proof.
  intros Hexists.
  assert (Hrest : disciplined
    (known_schemas <- gets schemas ;;
     match known_schemas !! ExtractedObject.schema_name obj with
     | None => ret tt
     | Some schema =>
         ensure_tables session_execute
           (Metadata.user (ExtractedObject.metadata obj)) ;;
         register_partitions session_execute
           (Metadata.user (ExtractedObject.metadata obj))
           (Metadata.collection (ExtractedObject.metadata obj))
           (ExtractedObject.schema_name obj) ;;
         match get_index_names schema with
         | [] => ret tt
         | _ =>
             for_each (ExtractedObject.values obj) (fun value_map =>
               for_each (get_index_names schema) (fun index_name =>
                 if skip_index_value (build_index_value value_map index_name)
                 then ret tt
                 else execute session_execute
                        (InsertRow
                           (sanitize_name
                              (Metadata.user (ExtractedObject.metadata obj)))
                           (Metadata.collection (ExtractedObject.metadata obj))
                           (ExtractedObject.schema_name obj) index_name
                           (build_index_value value_map index_name)
                           (build_data_map schema value_map)
                           (default ""%string
                              (Metadata.source (ExtractedObject.metadata obj))))))
         end
     end)).
  { apply disciplined_bind; [apply disciplined_gets|]. intros known_schemas.
    destruct (known_schemas !! ExtractedObject.schema_name obj) as [schema|];
      [|apply disciplined_ret].
    apply disciplined_bind; [apply disciplined_ensure_tables|]. intros _.
    apply disciplined_bind; [apply disciplined_register_partitions|]. intros _.
    destruct (get_index_names schema) as [|n names] eqn:En;
      [apply disciplined_ret|]. rewrite <- En.
    apply disciplined_for_each. intros value_map.
    apply disciplined_for_each. intros index_name.
    destruct (skip_index_value _); [apply disciplined_ret|].
    now apply disciplined_execute. }
  specialize (Hrest st).
  unfold on_object. unfold bind at 1. unfold gets at 1.
  rewrite Hexists. simpl negb. cbv iota. exact Hrest.
Qed.


End WriterFailures.

(** ** Caches of the row writer across writes *)

Section WriterCaches.

Import RowsWrite WriterSpec.
Local Open Scope list_scope.

Context (session_execute : cql -> result unit).

Lemma ensure_tables_initialises (keyspace : string) (st : Processor) :
  snd (ensure_tables session_execute keyspace st) = Ok tt ->
  keyspace ∈ tables_initialized (fst (ensure_tables session_execute keyspace st)).
Proof.
  cbv [ensure_tables ensure_keyspace bind gets modify ret execute].
  destruct (bool_decide (keyspace ∈ tables_initialized st)) eqn:Hi.
  - intros _. now apply bool_decide_eq_true in Hi.
  - destruct (bool_decide (keyspace ∈ known_keyspaces st)).
    + destruct (session_execute (CreateRowsTable _)) as [[]|]; [|discriminate].
      destruct (session_execute (CreatePartitionsTable _)) as [[]|];
        [|discriminate].
      intros _. simpl. apply elem_of_union_l. now apply elem_of_singleton.
    + destruct (session_execute (CreateKeyspace _)) as [[]|]; [|discriminate].
      cbv beta iota.
      destruct (session_execute (CreateRowsTable _)) as [[]|]; [|discriminate].
      destruct (session_execute (CreatePartitionsTable _)) as [[]|];
        [|discriminate].
      intros _. simpl. apply elem_of_union_l. now apply elem_of_singleton.
Qed.

(** What a write that returns leaves behind, for any schema. *)
Lemma on_object_returns
  (obj : ExtractedObject.t) (st : Processor) (schema : RowSchema.t) :
  let metadata := ExtractedObject.metadata obj in
  let keyspace := Metadata.user metadata in
  let collection := Metadata.collection metadata in
  let schema_name := ExtractedObject.schema_name obj in
  let source := default ""%string (Metadata.source metadata) in
  collection_exists (known_collections st) keyspace collection = true ->
  schemas st !! schema_name = Some schema ->
  let run := on_object session_execute obj st in
  snd run = Ok tt ->
  executed (fst run)
  = executed st
    ++ setup_statements st keyspace
    ++ (if bool_decide ((collection, schema_name) ∈ registered_partitions st)
        then []
        else partition_inserts keyspace collection schema_name schema)
    ++ row_inserts keyspace collection schema_name source schema
                   (ExtractedObject.values obj) /\
  keyspace ∈ tables_initialized (fst run) /\
  (collection, schema_name) ∈ registered_partitions (fst run) /\
  schemas (fst run) = schemas st /\
  known_collections (fst run) = known_collections st.
Proof.
  cbv zeta. intros Hexists Hschema.
  set (keyspace := Metadata.user (ExtractedObject.metadata obj)) in *.
  set (collection := Metadata.collection (ExtractedObject.metadata obj)) in *.
  set (schema_name := ExtractedObject.schema_name obj) in *.
  set (source := default ""%string
                         (Metadata.source (ExtractedObject.metadata obj))) in *.
  unfold on_object. cbv [bind gets].
  fold keyspace collection schema_name source.
  rewrite Hexists. cbv [negb]. rewrite Hschema.
  pose proof (ensure_tables_returns session_execute keyspace st) as Het.
  pose proof (ensure_tables_initialises keyspace st) as Hti.
  cbv zeta in Het.
  destruct (ensure_tables session_execute keyspace st) as [st1 [[]|msg]];
    [|discriminate].
  destruct (Het eq_refl) as (X1 & S1 & R1 & K1). specialize (Hti eq_refl).
  simpl in X1, S1, R1, K1, Hti.
  rewrite (register_partitions_run session_execute keyspace collection
                                   schema_name st1 schema)
    by now rewrite S1.
  rewrite R1.
  set (st2 := if bool_decide ((collection, schema_name) ∈ registered_partitions st)
              then st1
              else set_registered_partitions
                     ({[(collection, schema_name)]} ∪ registered_partitions st)
                     (log (partition_inserts keyspace collection schema_name
                                             schema) st1)).
  assert (Hst2 :
    executed st2
    = executed st ++ setup_statements st keyspace
      ++ (if bool_decide ((collection, schema_name) ∈ registered_partitions st)
          then []
          else partition_inserts keyspace collection schema_name schema) /\
    keyspace ∈ tables_initialized st2 /\
    (collection, schema_name) ∈ registered_partitions st2 /\
    schemas st2 = schemas st /\ known_collections st2 = known_collections st).
  { unfold st2.
    destruct (bool_decide ((collection, schema_name) ∈ registered_partitions st))
      eqn:Hc.
    - apply bool_decide_eq_true in Hc. rewrite app_nil_r.
      split; [exact X1|]. split; [exact Hti|]. split; [now rewrite R1|].
      split; [exact S1 | exact K1].
    - simpl. rewrite X1.
      split; [now rewrite <- ?app_assoc|]. split; [exact Hti|].
      split; [apply elem_of_union_l; now apply elem_of_singleton|].
      split; [exact S1 | exact K1]. }
  clearbody st2. destruct Hst2 as (E2 & T2 & G2 & S2 & K2).
  destruct (get_index_names schema) as [|n0 names] eqn:En.
  - intros _. simpl fst.
    assert (Hrows : row_inserts keyspace collection schema_name source schema
                                (ExtractedObject.values obj) = []).
    { unfold row_inserts, non_empty_indexes.
      rewrite get_index_names_active in En. apply map_eq_nil in En.
      rewrite En. simpl.
      induction (ExtractedObject.values obj); simpl; auto. }
    rewrite Hrows, E2, !app_nil_r.
    split; [now rewrite <- ?app_assoc|]. auto.
  - rewrite <- En. intros Hok.
    match type of Hok with
    | snd (for_each ?xs ?body ?s2) = _ =>
        rewrite (for_each_returns
          (fun value_map =>
             map (fun field =>
                    InsertRow (sanitize_name keyspace) collection schema_name
                              (Field.name field)
                              (index_value_of value_map field)
                              (build_data_map schema value_map) source)
                 (non_empty_indexes schema value_map)) body xs s2);
          [|intros value_map st0; apply row_loop_returns | exact Hok]
    end.
    fold (row_inserts keyspace collection schema_name source schema
                      (ExtractedObject.values obj)).
    rewrite executed_log, E2. simpl.
    split; [now rewrite <- ?app_assoc|]. auto.
Qed.


(** X3: a store that rejects [row_partitions] inserts only never fails a
    write — the rejections are logged and the write goes on — and
    (collection, schema_name) is marked as registered all the same, so later
    writes do not try the registration again. *)
Theorem partition_failures_are_swallowed
  (obj : ExtractedObject.t) (st : Processor) :
  (forall q, is_partition_insert q = false -> session_execute q = Ok tt) ->
  collection_exists (known_collections st)
    (Metadata.user (ExtractedObject.metadata obj))
    (Metadata.collection (ExtractedObject.metadata obj)) = true ->
  snd (on_object session_execute obj st) = Ok tt /\
  (forall schema,
     schemas st !! ExtractedObject.schema_name obj = Some schema ->
     (Metadata.collection (ExtractedObject.metadata obj),
      ExtractedObject.schema_name obj)
       ∈ registered_partitions (fst (on_object session_execute obj st))).
Proof.
  intros Hstore Hexists.
  assert (Hok : snd (on_object session_execute obj st) = Ok tt).
  { pose proof (on_object_disciplined session_execute obj st Hexists) as H.
    destruct (on_object session_execute obj st) as [st' [[]|msg]];
      [reflexivity|].
    destruct H as (qs & q & _ & Hq & Hp).
    rewrite (Hstore q Hp) in Hq. discriminate. }
  split; [exact Hok|]. intros schema Hschema.
  now destruct (on_object_returns obj st schema Hexists Hschema Hok)
    as (_ & _ & G & _).
Qed.

End WriterCaches.

(** ** Writes that are refused or fail early *)

Section WriterRefusals.

Import RowsWrite WriterSpec.
Local Open Scope list_scope.

Context (session_execute : cql -> result unit).

(** X4: a write for an unknown collection raises before anything is touched,
    and a write for a known collection but an unregistered schema returns
    without touching anything: in both cases the processor and the session
    are as before. *)
Theorem refused_write_changes_nothing (obj : ExtractedObject.t) (st : Processor) :
  let metadata := ExtractedObject.metadata obj in
  (collection_exists (known_collections st) (Metadata.user metadata)
                     (Metadata.collection metadata) = false ->
   on_object session_execute obj st
   = (st, Raise ("Collection " ++ Metadata.collection metadata ++
                 " does not exist. Create it first via collection management API.")%string)) /\
  (collection_exists (known_collections st) (Metadata.user metadata)
                     (Metadata.collection metadata) = true ->
   schemas st !! ExtractedObject.schema_name obj = None ->
   on_object session_execute obj st = (st, Ok tt)).
Proof.
  cbv zeta. split.
  - intros H. unfold on_object. cbv [bind gets]. now rewrite H.
  - intros H Hs. unfold on_object. cbv [bind gets]. rewrite H. cbv [negb].
    now rewrite Hs.
Qed.

(** X5: when the creation of the keyspace is rejected the write raises with
    the store's message, only that statement has been sent, and no cache has
    changed: the same creation statements are due at the next write. *)
Theorem failed_keyspace_creation_is_not_cached
  (obj : ExtractedObject.t) (st : Processor) (schema : RowSchema.t)
  (msg : string) :
  let metadata := ExtractedObject.metadata obj in
  let keyspace := Metadata.user metadata in
  collection_exists (known_collections st) keyspace
                    (Metadata.collection metadata) = true ->
  schemas st !! ExtractedObject.schema_name obj = Some schema ->
  keyspace ∉ tables_initialized st ->
  keyspace ∉ known_keyspaces st ->
  session_execute (CreateKeyspace (sanitize_name keyspace)) = Raise msg ->
  let run := on_object session_execute obj st in
  snd run = Raise msg /\
  executed (fst run) = executed st ++ [CreateKeyspace (sanitize_name keyspace)] /\
  known_keyspaces (fst run) = known_keyspaces st /\
  tables_initialized (fst run) = tables_initialized st /\
  registered_partitions (fst run) = registered_partitions st /\
  setup_statements (fst run) keyspace = setup_statements st keyspace.
Proof.
  cbv zeta. intros Hexists Hschema Hti Hkk Hfail.
  unfold on_object. cbv [bind gets]. rewrite Hexists. cbv [negb].
  rewrite Hschema.
  cbv [ensure_tables ensure_keyspace bind gets execute].
  rewrite (bool_decide_eq_false_2 _ Hti), (bool_decide_eq_false_2 _ Hkk).
  rewrite Hfail. simpl. repeat split.
Qed.

End WriterRefusals.

(** ** The deletion protocol of the row writer *)

Section WriterDeletion.

Import RowsWrite WriterSpec RowsDelete.
Local Open Scope list_scope.

Context (keyspace_found : string -> result bool)
        (partitions_of : string -> string -> result (list (string * string)))
        (schema_partitions_of : string -> string -> string -> result (list string))
        (execute_delete : statement -> result unit).

Lemma delete_each_returns (qs : list statement) :
  snd (delete_each execute_delete qs) = Ok tt ->
  fst (delete_each execute_delete qs) = qs.
Proof.
  induction qs as [|q rest IH]; simpl; [reflexivity|].
  destruct (execute_delete q) as [[]|msg]; [|discriminate].
  destruct (delete_each execute_delete rest) as [sent r]. simpl in IH |- *.
  intros H. now rewrite IH.
Qed.

(** X6: a deletion of a collection that returns either found no keyspace —
    then it sent the probe only and changed nothing — or sent, in this
    order, the partition lookup, one DELETE on [rows] per registered
    partition and the DELETE on [row_partitions], and evicted from the
    cache exactly the entries of that collection; a deletion that raises
    leaves the cache as it was. *)
Theorem delete_collection_outcome (user collection : string) (st : Processor) :
  let run := delete_collection keyspace_found partitions_of execute_delete
                               user collection st in
  let sent := fst (fst run) in
  let st' := snd (fst run) in
  let safe_keyspace := sanitize_name user in
  (snd run = Ok tt ->
   ((user ∉ known_keyspaces st) /\ keyspace_found safe_keyspace = Ok false /\
    sent = [SelectKeyspace safe_keyspace] /\ st' = st) \/
   (exists partition_list,
      partitions_of safe_keyspace collection = Ok partition_list /\
      sent = (if bool_decide (user ∈ known_keyspaces st) then []
              else [SelectKeyspace safe_keyspace])
             ++ [SelectPartitions safe_keyspace collection]
             ++ map (fun partition =>
                       DeleteRows safe_keyspace collection
                                  (fst partition) (snd partition))
                    partition_list
             ++ [DeletePartitions safe_keyspace collection] /\
      user ∈ known_keyspaces st' /\
      forall col sch,
        (col, sch) ∈ registered_partitions st' <->
        (col, sch) ∈ registered_partitions st /\ col <> collection)) /\
  (forall msg, snd run = Raise msg ->
     registered_partitions st' = registered_partitions st).
Proof.
  cbv zeta. unfold delete_collection.
  destruct (bool_decide (user ∈ known_keyspaces st)) eqn:Hk.
  - apply bool_decide_eq_true in Hk.
    destruct (partitions_of (sanitize_name user) collection)
      as [partition_list|m]; [|split; [discriminate | reflexivity]].
    pose proof (delete_each_returns
                  (map (fun partition =>
                          DeleteRows (sanitize_name user) collection
                                     (fst partition) (snd partition))
                       partition_list)) as Hd.
    destruct (delete_each execute_delete _) as [sent [[]|m]];
      [|split; [discriminate | reflexivity]].
    simpl in Hd. rewrite (Hd eq_refl).
    destruct (execute_delete (DeletePartitions _ _)) as [[]|m];
      [|split; [discriminate | reflexivity]].
    split; [|discriminate]. intros _. right. exists partition_list.
    simpl. split; [reflexivity|]. split; [reflexivity|].
    split; [exact Hk|]. intros col sch. rewrite elem_of_filter. simpl.
    split; intros [H1 H2]; split; assumption.
  - apply bool_decide_eq_false in Hk.
    destruct (keyspace_found (sanitize_name user)) as [[|]|m];
      [| split; [intros _; left; auto | discriminate]
       | split; [discriminate | reflexivity]].
    destruct (partitions_of (sanitize_name user) collection)
      as [partition_list|m]; [|split; [discriminate | reflexivity]].
    pose proof (delete_each_returns
                  (map (fun partition =>
                          DeleteRows (sanitize_name user) collection
                                     (fst partition) (snd partition))
                       partition_list)) as Hd.
    destruct (delete_each execute_delete _) as [sent [[]|m]];
      [|split; [discriminate | reflexivity]].
    simpl in Hd. rewrite (Hd eq_refl).
    destruct (execute_delete (DeletePartitions _ _)) as [[]|m];
      [|split; [discriminate | reflexivity]].
    split; [|discriminate]. intros _. right. exists partition_list.
    simpl. split; [reflexivity|]. split; [reflexivity|].
    split; [apply elem_of_union_l; now apply elem_of_singleton|].
    intros col sch. rewrite elem_of_filter. simpl.
    split; intros [H1 H2]; split; assumption.
Qed.

(** X7: a deletion of one schema of a collection that returns has evicted
    exactly the entry (collection, schema_name) from the cache, after the
    partition lookup, one DELETE on [rows] per index and the DELETE on
    [row_partitions]; one that raises leaves the cache as it was.  The
    keyspace is never probed. *)
Theorem delete_collection_schema_outcome
  (user collection schema_name : string) (st : Processor) :
  let run := delete_collection_schema schema_partitions_of execute_delete
                                      user collection schema_name st in
  let sent := fst (fst run) in
  let st' := snd (fst run) in
  let safe_keyspace := sanitize_name user in
  (snd run = Ok tt ->
   exists partition_list,
     schema_partitions_of safe_keyspace collection schema_name
     = Ok partition_list /\
     sent = [SelectSchemaPartitions safe_keyspace collection schema_name]
            ++ map (DeleteRows safe_keyspace collection schema_name)
                   partition_list
            ++ [DeleteSchemaPartitions safe_keyspace collection schema_name] /\
     forall entry,
       entry ∈ registered_partitions st' <->
       entry ∈ registered_partitions st /\ entry <> (collection, schema_name)) /\
  (forall msg, snd run = Raise msg ->
     registered_partitions st' = registered_partitions st).
Proof.
  cbv zeta. unfold delete_collection_schema.
  destruct (schema_partitions_of (sanitize_name user) collection schema_name)
    as [partition_list|m]; [|split; [discriminate | reflexivity]].
  pose proof (delete_each_returns
                (map (fun index_name =>
                        DeleteRows (sanitize_name user) collection schema_name
                                   index_name) partition_list)) as Hd.
  destruct (delete_each execute_delete _) as [sent [[]|m]];
    [|split; [discriminate | reflexivity]].
  simpl in Hd. rewrite (Hd eq_refl).
  destruct (execute_delete (DeleteSchemaPartitions _ _ _)) as [[]|m];
    [|split; [discriminate | reflexivity]].
  split; [|discriminate]. intros _. exists partition_list.
  simpl. split; [reflexivity|]. split; [reflexivity|].
  intros entry. rewrite elem_of_difference, elem_of_singleton. reflexivity.
Qed.

End WriterDeletion.

(** ** The partition cache across users and deletions *)

Section PartitionCache.

Import RowsWrite WriterSpec RowsDelete.
Local Open Scope list_scope.

Context (session_execute : cql -> result unit)
        (keyspace_found : string -> result bool)
        (partitions_of : string -> string -> result (list (string * string)))
        (execute_delete : statement -> result unit).

(** X8: the registered-partitions cache is keyed by collection and schema
    name only: after a write has returned, a write of any user to the same
    collection and schema name executes no [row_partitions] insert, even
    into a keyspace that has never been written. *)
Theorem partition_cache_ignores_the_user
  (first second : ExtractedObject.t) (st : Processor) (schema : RowSchema.t) :
  let collection := Metadata.collection (ExtractedObject.metadata first) in
  let schema_name := ExtractedObject.schema_name first in
  Metadata.collection (ExtractedObject.metadata second) = collection ->
  ExtractedObject.schema_name second = schema_name ->
  collection_exists (known_collections st)
    (Metadata.user (ExtractedObject.metadata first)) collection = true ->
  collection_exists (known_collections st)
    (Metadata.user (ExtractedObject.metadata second)) collection = true ->
  schemas st !! schema_name = Some schema ->
  let st1 := fst (on_object session_execute first st) in
  snd (on_object session_execute first st) = Ok tt ->
  snd (on_object session_execute second st1) = Ok tt ->
  List.filter is_partition_insert
              (executed (fst (on_object session_execute second st1)))
  = List.filter is_partition_insert (executed st1).
Proof.
  cbv zeta. intros Hc Hs Hexists1 Hexists2 Hschema Hok1 Hok2.
  destruct (on_object_returns session_execute first st schema
              Hexists1 Hschema Hok1) as (_ & _ & G1 & S1 & K1).
  assert (Hexists2' :
    collection_exists
      (known_collections (fst (on_object session_execute first st)))
      (Metadata.user (ExtractedObject.metadata second))
      (Metadata.collection (ExtractedObject.metadata second)) = true).
  { now rewrite K1, Hc. }
  assert (Hschema2 :
    schemas (fst (on_object session_execute first st))
      !! ExtractedObject.schema_name second = Some schema).
  { now rewrite S1, Hs. }
  destruct (on_object_returns session_execute second _ schema
              Hexists2' Hschema2 Hok2) as (E2 & _).
  rewrite E2, Hc, Hs, (bool_decide_eq_true_2 _ G1).
  rewrite !List.filter_app.
  destruct (filter_rows_of_setup
              (fst (on_object session_execute first st))
              (Metadata.user (ExtractedObject.metadata second))) as [_ ->].
  destruct (filter_row_inserts
              (Metadata.user (ExtractedObject.metadata second))
              (Metadata.collection (ExtractedObject.metadata first))
              (ExtractedObject.schema_name first)
              (default ""%string
                 (Metadata.source (ExtractedObject.metadata second)))
              schema (ExtractedObject.values second)) as [_ ->].
  simpl. now rewrite !app_nil_r.
Qed.

Lemma delete_collection_evicted (user collection : string) (st : Processor) :
  let run := delete_collection keyspace_found partitions_of execute_delete
                               user collection st in
  snd run = Ok tt ->
  user ∈ known_keyspaces st \/ keyspace_found (sanitize_name user) = Ok true ->
  (forall sch, (collection, sch) ∉ registered_partitions (snd (fst run))) /\
  schemas (snd (fst run)) = schemas st /\
  known_collections (snd (fst run)) = known_collections st /\
  executed (snd (fst run)) = executed st.
Proof.
  cbv zeta. unfold delete_collection. intros Hok Hfound.
  assert (Hcheck :
    (if bool_decide (user ∈ known_keyspaces st) then Ok true
     else keyspace_found (sanitize_name user)) = Ok true).
  { destruct (bool_decide (user ∈ known_keyspaces st)) eqn:Hk; [reflexivity|].
    apply bool_decide_eq_false in Hk. destruct Hfound; [contradiction|auto]. }
  revert Hok. rewrite Hcheck.
  destruct (partitions_of (sanitize_name user) collection)
    as [partition_list|m]; [|discriminate].
  destruct (delete_each execute_delete _) as [sent [[]|m]]; [|discriminate].
  destruct (execute_delete (DeletePartitions _ _)) as [[]|m]; [|discriminate].
  intros _. simpl.
  split.
  - intros sch Hin. apply elem_of_filter in Hin as [Hne _]. now apply Hne.
  - now destruct (bool_decide (user ∈ known_keyspaces st)).
Qed.

(** X9: after a deletion of a collection that found its keyspace and
    returned, the next write to that collection registers the partitions of
    its schema again: one [row_partitions] insert per active index. *)
Theorem write_after_delete_registers_again
  (user collection : string) (st : Processor)
  (obj : ExtractedObject.t) (schema : RowSchema.t) :
  let deletion := delete_collection keyspace_found partitions_of execute_delete
                                    user collection st in
  let st' := snd (fst deletion) in
  snd deletion = Ok tt ->
  user ∈ known_keyspaces st \/ keyspace_found (sanitize_name user) = Ok true ->
  Metadata.collection (ExtractedObject.metadata obj) = collection ->
  collection_exists (known_collections st)
    (Metadata.user (ExtractedObject.metadata obj)) collection = true ->
  schemas st !! ExtractedObject.schema_name obj = Some schema ->
  snd (on_object session_execute obj st') = Ok tt ->
  List.filter is_partition_insert
    (drop (length (executed st'))
          (executed (fst (on_object session_execute obj st'))))
  = partition_inserts (Metadata.user (ExtractedObject.metadata obj)) collection
                      (ExtractedObject.schema_name obj) schema.
Proof.
  cbv zeta. intros Hdel Hfound Hc Hexists Hschema Hok.
  destruct (delete_collection_evicted user collection st Hdel Hfound)
    as (Hev & S & K & E).
  set (st' := snd (fst (delete_collection keyspace_found partitions_of
                          execute_delete user collection st))) in *.
  assert (Hexists' :
    collection_exists (known_collections st')
      (Metadata.user (ExtractedObject.metadata obj))
      (Metadata.collection (ExtractedObject.metadata obj)) = true).
  { now rewrite K, Hc. }
  assert (Hschema' : schemas st' !! ExtractedObject.schema_name obj = Some schema).
  { now rewrite S. }
  destruct (on_object_returns session_execute obj st' schema
              Hexists' Hschema' Hok) as (E2 & _).
  rewrite E2, drop_app_length, Hc.
  rewrite (bool_decide_eq_false_2 _ (Hev (ExtractedObject.schema_name obj))).
  rewrite !List.filter_app.
  destruct (filter_rows_of_setup st'
              (Metadata.user (ExtractedObject.metadata obj))) as [_ ->].
  destruct (filter_partition_inserts
              (Metadata.user (ExtractedObject.metadata obj)) collection
              (ExtractedObject.schema_name obj) schema) as [_ ->].
  destruct (filter_row_inserts
              (Metadata.user (ExtractedObject.metadata obj)) collection
              (ExtractedObject.schema_name obj)
              (default ""%string
                 (Metadata.source (ExtractedObject.metadata obj)))
              schema (ExtractedObject.values obj)) as [_ ->].
  simpl. now rewrite app_nil_r.
Qed.

End PartitionCache.

(** ** Edge behaviour of the row query service *)

Section QueryEdges.

Import RowsQuery.
Local Open Scope list_scope.

Context (float_str : float -> string) (list_str : list scalar -> string)
        (float_of_str : string -> option float) (float_of_int : Z -> float)
        (session_execute : select -> result (list Row))
        (sort_results : string -> option SortDirection ->
                        list (gmap string string) -> list (gmap string string)).

Local Abbreviation first_filtered := (first_filtered_index float_str list_str).
Local Abbreviation matches_filters :=
  (_matches_filters float_str list_str float_of_str float_of_int).
Local Abbreviation passes :=
  (filter_passes float_str list_str float_of_str float_of_int).
Local Abbreviation query :=
  (query_cassandra float_str list_str float_of_str float_of_int
                   session_execute sort_results).

Lemma first_filtered_agree
  (names : list string) (filters filters' : gmap string pyval) :
  (forall name, List.In name names -> filters !! name = filters' !! name) ->
  first_filtered names filters = first_filtered names filters'.
Proof.
  induction names as [|name rest IH]; intros H; simpl; [reflexivity|].
  rewrite <- (H name) by now left.
  destruct (filters !! name); [reflexivity|].
  apply IH. intros n Hn. apply H. now right.
Qed.

(** X10: once a filter names an index, the filters on other keys play no
    part: two filter maps that agree on the index names of the schema send
    the same direct read and return the same rows. *)
Theorem direct_read_ignores_other_filters
  (user collection schema_name : string) (schema : RowSchema.t)
  (filters filters' : gmap string pyval) (limit : option Z)
  (order_by : option string) (direction : option SortDirection) :
  (forall name, List.In name (get_index_names schema) ->
                filters !! name = filters' !! name) ->
  is_Some (find_matching_index float_str list_str schema filters) ->
  query user collection schema_name schema filters limit order_by direction
  = query user collection schema_name schema filters' limit order_by direction.
Proof.
  intros Hagree [[index_name index_value] Hfound].
  unfold query_cassandra, find_matching_index in *.
  rewrite <- (first_filtered_agree _ _ _ Hagree), Hfound.
  reflexivity.
Qed.

(** X11: for a schema with no primary and no indexed field the service
    sends no query to Cassandra and returns no rows, whatever the filters. *)
Theorem no_index_no_query
  (user collection schema_name : string) (schema : RowSchema.t)
  (filters : gmap string pyval) (limit : option Z)
  (order_by : option string) (direction : option SortDirection) :
  (forall field, List.In field (RowSchema.fields schema) ->
                 active_index field = false) ->
  query user collection schema_name schema filters limit order_by direction
  = ([], Ok []).
Proof.
  intros Hnone. unfold query_cassandra, find_matching_index.
  assert (E : get_index_names schema = []).
  { unfold get_index_names.
    induction (RowSchema.fields schema) as [|f l IH]; [reflexivity|].
    simpl. pose proof (Hnone f (or_introl eq_refl)) as Hf.
    unfold active_index in Hf. rewrite Hf. simpl.
    apply IH. intros g Hg. apply Hnone. now right. }
  now rewrite E.
Qed.

(** X12: a limit of 0 is no limit: the direct read carries no LIMIT clause
    and the scan keeps every matching row, exactly as without a limit. *)
Theorem zero_limit_is_no_limit
  (user collection schema_name : string) (schema : RowSchema.t)
  (filters : gmap string pyval)
  (order_by : option string) (direction : option SortDirection) :
  query user collection schema_name schema filters (Some 0%Z) order_by direction
  = query user collection schema_name schema filters None order_by direction.
Proof.
  unfold query_cassandra.
  destruct (find_matching_index _ _ schema filters) as [[index_name index_value]|];
    [reflexivity|].
  destruct (get_index_names schema) as [|primary_index others]; [reflexivity|].
  destruct (session_execute _) as [rows|msg]; [|reflexivity].
  now rewrite !scan_rows_unbounded by reflexivity.
Qed.

(** X13: a comparison filter (gt, gte, lt, lte) rejects the row when the
    row's value or the filter's value does not convert to a float: the
    conversion error is caught and the row dropped. *)
Theorem comparison_rejects_unparsable_values
  (row_dict : gmap string string) (filters : gmap string pyval)
  (row_schema : RowSchema.t) (field suffix row_value : string) (value : pyval) :
  List.In suffix ["gt"; "gte"; "lt"; "lte"]%string ->
  filters !! (field ++ "_" ++ suffix)%string = Some value ->
  value <> VNone ->
  row_dict !! field = Some row_value ->
  float_of_str row_value = None \/ py_float float_of_str float_of_int value = None ->
  matches_filters row_dict filters row_schema = false.
Proof.
  intros Hin Hk Hv Hr Hbad.
  eapply matches_filters_rejects; [exact Hk|].
  assert (Hc : forall reject,
             compare_floats float_of_str float_of_int reject row_value value
             = false).
  { intros reject. unfold compare_floats.
    destruct Hbad as [-> | ->]; [reflexivity|].
    now destruct (float_of_str row_value). }
  unfold filter_passes.
  assert (Hs : exists op,
             split_filter_key (field ++ "_" ++ suffix)%string = (field, op) /\
             List.In op [Gt; Gte; Lt; Lte]).
  { simpl in Hin. destruct Hin as [<-|[<-|[<-|[<-|[]]]]].
    - exists Gt. split; [|simpl; auto].
      change (field ++ "_" ++ "gt")%string with (field ++ String "_" "gt")%string.
      now rewrite split_filter_key_suffixed.
    - exists Gte. split; [|simpl; auto].
      change (field ++ "_" ++ "gte")%string with (field ++ String "_" "gte")%string.
      now rewrite split_filter_key_suffixed.
    - exists Lt. split; [|simpl; auto].
      change (field ++ "_" ++ "lt")%string with (field ++ String "_" "lt")%string.
      now rewrite split_filter_key_suffixed.
    - exists Lte. split; [|simpl; auto 10].
      change (field ++ "_" ++ "lte")%string with (field ++ String "_" "lte")%string.
      now rewrite split_filter_key_suffixed. }
  destruct Hs as (op & -> & Hop). rewrite Hr.
  simpl in Hop.
  destruct value as [|a|items]; [congruence| |];
    destruct Hop as [<-|[<-|[<-|[<-|[]]]]]; apply Hc.
Qed.

(** X14: filters only narrow: a row that passes a filter map passes every
    map with fewer entries. *)
Theorem fewer_filters_keep_the_row
  (row_dict : gmap string string) (filters filters' : gmap string pyval)
  (row_schema : RowSchema.t) :
  filters ⊆ filters' ->
  matches_filters row_dict filters' row_schema = true ->
  matches_filters row_dict filters row_schema = true.
Proof.
  unfold _matches_filters. intros Hsub Hall.
  rewrite forallb_forall in *. intros [key value] Hin.
  apply Hall.
  apply list_elem_of_In, elem_of_map_to_list.
  apply list_elem_of_In, elem_of_map_to_list in Hin.
  eapply lookup_weaken; eauto.
Qed.

End QueryEdges.

(** ** Configuration pushes seen by the row query service *)

Section QueryConfiguration.

Import RowsQuery.

Context (Json : Type) (json_dumps : Json -> string) (json_truthy : Json -> bool)
        (graphql_execute :
           GraphQLSchema -> string -> gmap string string -> option string ->
           string -> string -> result (ExecutionResult Json))
        (parse_schema : string -> string -> option RowSchema.t).

(** X15: a configuration push without the schema section empties the schema
    table but leaves the GraphQL schema in place, so every request is
    answered as before the push. *)
Theorem sectionless_config_keeps_answering
  (config : gmap string (gmap string string)) (st : Processor)
  (request : RowsQueryRequest) :
  config !! config_key st = None ->
  schemas (on_schema_config parse_schema config st) = ∅ /\
  on_message Json json_dumps json_truthy graphql_execute
             (on_schema_config parse_schema config st) request
  = on_message Json json_dumps json_truthy graphql_execute st request.
Proof.
  intros Hc.
  destruct (on_schema_config_missing_section parse_schema config st Hc)
    as [Hs Hg].
  split; [exact Hs|].
  unfold on_message, execute_graphql_query. now rewrite Hg.
Qed.

End QueryConfiguration.

(** ** The writer's row keys and the query service's direct reads *)

Section WriteReadAgreement.

Import RowsWrite WriterSpec.
Local Open Scope list_scope.

Context (writer_execute : cql -> result unit)
        (float_str : float -> string) (list_str : list scalar -> string)
        (float_of_str : string -> option float) (float_of_int : Z -> float)
        (session_execute : RowsQuery.select -> result (list RowsQuery.Row))
        (sort_results : string -> option RowsQuery.SortDirection ->
                        list (gmap string string) -> list (gmap string string)).

Lemma split_absent (sep : ascii) (s : string) :
  Py.has_char sep s = false -> Py.split sep s = [s].
Proof.
  induction s as [|c r IH]; simpl; [reflexivity|].
  destruct (Ascii.eqb c sep); simpl; [discriminate|].
  intros H. now rewrite (IH H).
Qed.

Lemma build_index_value_single
  (value_map : gmap string string) (name value : string) :
  Py.has_char "," name = false ->
  Py.strip name = name ->
  value_map !! name = Some value ->
  build_index_value value_map name = [value].
Proof.
  intros Hc Hs Hv. unfold build_index_value.
  rewrite (split_absent _ _ Hc). simpl. now rewrite Hs, Hv.
Qed.

(** X16: the writer and the query service agree on the key of a row.  A
    row written with a non-empty value [v] for an active index field (whose
    name has no comma and no surrounding blanks) is inserted under the
    keyspace, collection, schema name, index name and index value [[v]]
    that the direct read names when that index matches a filter of value
    [v]. *)
Theorem written_row_is_read_by_its_index
  (obj : ExtractedObject.t) (st : Processor) (schema : RowSchema.t)
  (value_map : gmap string string) (field : Field.t) (v : string)
  (filters : gmap string pyval) (limit : option Z)
  (order_by : option string) (direction : option RowsQuery.SortDirection) :
  let metadata := ExtractedObject.metadata obj in
  let user := Metadata.user metadata in
  let collection := Metadata.collection metadata in
  let schema_name := ExtractedObject.schema_name obj in
  collection_exists (known_collections st) user collection = true ->
  schemas st !! schema_name = Some schema ->
  snd (on_object writer_execute obj st) = Ok tt ->
  List.In value_map (ExtractedObject.values obj) ->
  List.In field (RowSchema.fields schema) ->
  active_index field = true ->
  Py.has_char "," (Field.name field) = false ->
  Py.strip (Field.name field) = Field.name field ->
  value_map !! Field.name field = Some v ->
  v <> ""%string ->
  RowsQuery.find_matching_index float_str list_str schema filters
  = Some (Field.name field, [v]) ->
  List.In (InsertRow (sanitize_name user) collection schema_name
                     (Field.name field) [v]
                     (build_data_map schema value_map)
                     (default ""%string (Metadata.source metadata)))
          (executed (fst (on_object writer_execute obj st))) /\
  fst (RowsQuery.query_cassandra float_str list_str float_of_str float_of_int
         session_execute sort_results
         user collection schema_name schema filters limit order_by direction)
  = [RowsQuery.DirectRead (sanitize_name user) collection schema_name
                          (Field.name field) [v]
                          (if RowsQuery.limit_truthy limit then limit else None)].
Proof.
  cbv zeta.
  intros Hexists Hschema Hok Hrow Hfield Hact Hcomma Hstrip Hv Hne Hfound.
  split.
  - destruct (on_object_returns writer_execute obj st schema
                Hexists Hschema Hok) as (E & _).
    rewrite E. apply in_or_app. right. apply in_or_app. right.
    apply in_or_app. right.
    unfold row_inserts. apply in_flat_map. exists value_map. split; [exact Hrow|].
    apply in_map_iff. exists field. split.
    + unfold index_value_of.
      now rewrite (build_index_value_single value_map _ v Hcomma Hstrip Hv).
    + unfold non_empty_indexes. apply filter_In. split.
      * apply filter_In. now split.
      * unfold index_value_of.
        rewrite (build_index_value_single value_map _ v Hcomma Hstrip Hv).
        unfold all_empty. simpl.
        destruct (String.eqb_spec v ""); [contradiction|reflexivity].
  - unfold RowsQuery.query_cassandra. rewrite Hfound.
    now destruct (session_execute _).
Qed.

End WriteReadAgreement.

(** ** Filter keys of the GraphQL layer (query/graphql/filters.py) *)

Section FilterParsing.

Import PyMore FilterKeys.

Lemma reverse_app (a b : string) :
  reverse (a ++ b) = (reverse b ++ reverse a)%string.
Proof.
  induction a as [|c a IH].
  - rewrite append_empty. simpl.
    induction (reverse b) as [|d r IHr]; [reflexivity|].
    now rewrite append_cons, <- IHr.
  - rewrite append_cons. simpl. now rewrite IH, append_assoc.
Qed.

Lemma reverse_involutive (s : string) : reverse (reverse s) = s.
Proof.
  induction s as [|c s IH]; [reflexivity|].
  simpl. rewrite reverse_app, IH. reflexivity.
Qed.

Lemma length_app_string (a b : string) :
  String.length (a ++ b) = (String.length a + String.length b)%nat.
Proof.
  induction a as [|c a IH]; [now rewrite append_empty|].
  rewrite append_cons. simpl. now rewrite IH.
Qed.

Lemma length_reverse (s : string) :
  String.length (reverse s) = String.length s.
Proof.
  induction s as [|c s IH]; [reflexivity|].
  simpl. rewrite length_app_string, IH. simpl. lia.
Qed.

Lemma startswith_app (p rest : string) :
  Py.startswith (p ++ rest) p = true.
Proof.
  induction p as [|c p IH]; [now destruct rest|].
  rewrite append_cons. simpl. now rewrite Ascii.eqb_refl, IH.
Qed.

Lemma startswith_app_short (a b p : string) :
  (String.length p <= String.length a)%nat ->
  Py.startswith (a ++ b) p = Py.startswith a p.
Proof.
  revert a. induction p as [|c p IH]; intros a H.
  - now destruct a, b.
  - destruct a as [|d a]; [simpl in H; lia|].
    rewrite append_cons. simpl. rewrite IH; [reflexivity|]. simpl in H. lia.
Qed.

Lemma drop_chars_app (p rest : string) :
  drop_chars (String.length p) (p ++ rest) = rest.
Proof.
  induction p as [|c p IH]; [now rewrite append_empty|].
  rewrite append_cons. simpl. exact IH.
Qed.

Lemma endswith_app (field suffix : string) :
  endswith (field ++ suffix) suffix = true.
Proof. unfold endswith. rewrite reverse_app. apply startswith_app. Qed.

(** Whether a key ends with a suffix no longer than its own ending is
    decided by that ending. *)
Lemma endswith_app_short (field ending suffix : string) :
  (String.length suffix <= String.length ending)%nat ->
  endswith (field ++ ending) suffix = endswith ending suffix.
Proof.
  intros H. unfold endswith. rewrite reverse_app.
  apply startswith_app_short. now rewrite !length_reverse.
Qed.

(** A key does not end with a suffix whose last character differs from
    its own. *)
Lemma endswith_other_last (field : string) (c d : ascii) (s t : string) :
  Ascii.eqb d c = false ->
  endswith (field ++ reverse (String c s)) (reverse (String d t)) = false.
Proof.
  intros H. unfold endswith.
  rewrite reverse_app, !reverse_involutive, append_cons. simpl.
  now rewrite H.
Qed.

Lemma drop_last_app (field suffix : string) :
  drop_last (String.length suffix) (field ++ suffix) = field.
Proof.
  unfold drop_last.
  rewrite reverse_app, <- (length_reverse suffix), drop_chars_app.
  apply reverse_involutive.
Qed.

Lemma truthy_app (field : string) (c : ascii) (rest : string) :
  Py.truthy (field ++ String c rest) = true.
Proof. destruct field; [now rewrite append_empty | now rewrite append_cons]. Qed.

Lemma first_suffix_found (field suffix : string) (before after : list string) :
  (forall other, List.In other before ->
                 endswith (field ++ suffix) other = false) ->
  first_suffix (field ++ suffix) (before ++ suffix :: after)%list
  = Some (field, drop_chars 1 suffix).
Proof.
  induction before as [|other before IH]; intros H; simpl.
  - now rewrite endswith_app, drop_last_app.
  - rewrite (H other) by now left.
    apply IH. intros o Ho. apply H. now right.
Qed.

Lemma parse_filter_key_suffixed (field suffix : string) :
  List.In suffix ["gt"; "gte"; "lt"; "lte"; "in"]%string ->
  parse_filter_key (field ++ String "_" suffix) = (field, suffix).
Proof.
  intros Hin. unfold parse_filter_key. rewrite truthy_app. simpl negb. cbv iota.
  unfold operators.
  assert (Hlong : forall ending c s d t,
            ending = reverse (String c s) -> Ascii.eqb d c = false ->
            endswith (field ++ ending) (reverse (String d t)) = false).
  { intros ending c s d t ->. apply endswith_other_last. }
  assert (Hfound : forall suffix before after,
            (forall other, List.In other before ->
                           endswith (field ++ suffix) other = false) ->
            match first_suffix (field ++ suffix) (before ++ suffix :: after)%list with
            | Some parsed => parsed
            | None => ((field ++ suffix)%string, "eq"%string)
            end = (field, drop_chars 1 suffix)).
  { intros s before after H. now rewrite first_suffix_found. }
  simpl in Hin. destruct Hin as [<-|[<-|[<-|[<-|[<-|[]]]]]].
  - apply (Hfound "_gt" ["_gte"; "_lte"] ["_lt"; "_in"; "_eq"])%string.
    intros other [<-|[<-|[]]].
    + exact (Hlong "_gt"%string "t"%char "g_"%string "e"%char "tg_"%string eq_refl eq_refl).
    + exact (Hlong "_gt"%string "t"%char "g_"%string "e"%char "tl_"%string eq_refl eq_refl).
  - apply (Hfound "_gte" [] ["_lte"; "_gt"; "_lt"; "_in"; "_eq"])%string.
    intros other [].
  - apply (Hfound "_lt" ["_gte"; "_lte"; "_gt"] ["_in"; "_eq"])%string.
    intros other [<-|[<-|[<-|[]]]].
    + exact (Hlong "_lt"%string "t"%char "l_"%string "e"%char "tg_"%string eq_refl eq_refl).
    + exact (Hlong "_lt"%string "t"%char "l_"%string "e"%char "tl_"%string eq_refl eq_refl).
    + now rewrite endswith_app_short by (simpl; lia).
  - apply (Hfound "_lte" ["_gte"] ["_gt"; "_lt"; "_in"; "_eq"])%string.
    intros other [<-|[]].
    now rewrite endswith_app_short by (simpl; lia).
  - apply (Hfound "_in" ["_gte"; "_lte"; "_gt"; "_lt"] ["_eq"])%string.
    intros other [<-|[<-|[<-|[<-|[]]]]].
    + exact (Hlong "_in"%string "n"%char "i_"%string "e"%char "tg_"%string eq_refl eq_refl).
    + exact (Hlong "_in"%string "n"%char "i_"%string "e"%char "tl_"%string eq_refl eq_refl).
    + now rewrite endswith_app_short by (simpl; lia).
    + now rewrite endswith_app_short by (simpl; lia).
Qed.

(** X17: [parse_filter_key] inverts the keys [parse_where_clause] builds
    for gt, gte, lt, lte and in_, whatever the field name, and the
    post-filter of the row query service splits those keys the same way. *)
Theorem parse_filter_key_inverts_condition_key (field operator key : string) :
  List.In operator ["gt"; "gte"; "lt"; "lte"; "in_"]%string ->
  Filters.condition_key field operator = Some key ->
  let suffix := if String.eqb operator "in_" then "in"%string else operator in
  parse_filter_key key = (field, suffix) /\
  exists op, RowsQuery.known_operator suffix = Some op /\
             RowsQuery.split_filter_key key = (field, op).
Proof.
  intros Hin Hkey. cbv zeta.
  assert (Hs : exists suffix,
             suffix = (if String.eqb operator "in_" then "in"%string
                       else operator) /\
             key = (field ++ String "_" suffix)%string /\
             List.In suffix ["gt"; "gte"; "lt"; "lte"; "in"]%string /\
             Py.has_char "_" suffix = false /\
             is_Some (RowsQuery.known_operator suffix)).
  { simpl in Hin.
    destruct Hin as [<-|[<-|[<-|[<-|[<-|[]]]]]];
      injection Hkey as <-; eexists; (split; [reflexivity|]);
      (split; [reflexivity|]); (split; [simpl; auto 10|]);
      (split; [reflexivity|]); simpl; eauto. }
  destruct Hs as (suffix & <- & -> & Hsuffix & Hchar & [op Hop]).
  split; [now apply parse_filter_key_suffixed|].
  exists op. split; [exact Hop|].
  now rewrite split_filter_key_suffixed, Hop.
Qed.

Lemma add_operator_sound
  (field : string) (obj : Filters.filter_obj) (conditions : gmap string pyval)
  (key : string) (value : pyval) :
  fold_left (Filters.add_operator field) obj conditions !! key = Some value ->
  conditions !! key = Some value \/
  (value <> VNone /\
   exists operator, List.In (operator, value) obj /\
                    Filters.condition_key field operator = Some key).
Proof.
  revert conditions.
  induction obj as [|[operator v] obj IH]; intros conditions H; simpl in H.
  - now left.
  - apply IH in H as [H|(Hv & op & Hin & Hk)].
    + unfold Filters.add_operator in H. simpl in H.
      assert (Hadd : forall w, w <> VNone -> v = w ->
                match Filters.condition_key field operator with
                | Some k => <[k := w]> conditions
                | None => conditions
                end !! key = Some value ->
                conditions !! key = Some value \/
                (value <> VNone /\
                 exists operator0,
                   List.In (operator0, value) ((operator, v) :: obj) /\
                   Filters.condition_key field operator0 = Some key)).
      { intros w Hw -> Hl.
        destruct (Filters.condition_key field operator) as [k|] eqn:Ek;
          [|now left].
        destruct (decide (k = key)) as [->|Hne].
        - rewrite lookup_insert_eq in Hl. injection Hl as <-.
          right. split; [exact Hw|]. exists operator. split; [now left|exact Ek].
        - rewrite lookup_insert_ne in Hl by exact Hne. now left. }
      destruct v as [|a|items].
      * now left.
      * apply (Hadd (VScalar a)); [discriminate|reflexivity|exact H].
      * apply (Hadd (VList items)); [discriminate|reflexivity|exact H].
    + right. split; [exact Hv|]. exists op. split; [now right|exact Hk].
Qed.

(** X18: every condition [parse_where_clause] returns comes from an
    operator of the where object that carries a value: the value is never
    None, and the key is the one built from the field and that operator. *)
Theorem parse_where_clause_sound
  (attrs : list (string * option Filters.filter_obj))
  (key : string) (value : pyval) :
  Filters.parse_where_clause (Some attrs) !! key = Some value ->
  value <> VNone /\
  exists field obj operator,
    List.In (field, Some obj) attrs /\
    List.In (operator, value) obj /\
    Filters.condition_key field operator = Some key.
Proof.
  unfold Filters.parse_where_clause.
  assert (G : forall conditions,
    fold_left Filters.add_field attrs conditions !! key = Some value ->
    conditions !! key = Some value \/
    (value <> VNone /\
     exists field obj operator,
       List.In (field, Some obj) attrs /\
       List.In (operator, value) obj /\
       Filters.condition_key field operator = Some key)).
  { induction attrs as [|[field [obj|]] attrs IH]; intros conditions H;
      simpl in H.
    - now left.
    - apply IH in H as [H|(Hv & f & o & op & Hin & Ho & Hk)].
      + unfold Filters.add_field in H. simpl in H.
        apply add_operator_sound in H as [H|(Hv & op & Ho & Hk)];
          [now left|].
        right. split; [exact Hv|].
        exists field, obj, op. split; [now left|]. now split.
      + right. split; [exact Hv|].
        exists f, o, op. split; [now right|]. now split.
    - apply IH in H as [H|(Hv & f & o & op & Hin & Ho & Hk)].
      + now left.
      + right. split; [exact Hv|].
        exists f, o, op. split; [now right|]. now split. }
  intros H. apply G in H as [H|H]; [|exact H].
  rewrite lookup_empty in H. discriminate.
Qed.

End FilterParsing.

(** ** Failures and message shape of the row embeddings computer *)

Section ComputeFailures.

Import RowEmbeddingsCompute.
Local Open Scope list_scope.

Context (embed : string -> result (list (list float))).

Lemma embed_all_stops
  (before after : text_dict) (text : string) (pair : string * list string)
  (msg : string) :
  (forall t, List.In t (map fst before) -> exists vectors, embed t = Ok vectors) ->
  embed text = Raise msg ->
  exists embeddings,
    embed_all embed (before ++ (text, pair) :: after)
    = (map fst before ++ [text], embeddings, Raise msg) /\
    map RowIndexEmbedding.text embeddings = map fst before.
Proof.
  intros Hok Hfail.
  induction before as [|[t [index_name index_value]] before IH].
  - exists []. simpl. destruct pair. now rewrite Hfail.
  - destruct (Hok t (or_introl eq_refl)) as [vectors Hv].
    destruct IH as (embeddings & E & Ht).
    { intros t' Hin. apply Hok. now right. }
    exists (RowIndexEmbedding.make index_name index_value t vectors :: embeddings).
    simpl. rewrite Hv, E. simpl. now rewrite Ht.
Qed.

(** X19: when the embeddings service fails on a text, the handler raises
    that error, the texts after it are never passed to the service, and no
    message is sent — the embeddings already computed are lost. *)
Theorem embedding_failure_sends_nothing
  (obj : ExtractedObject.t) (st : Processor) (schema : RowSchema.t)
  (before after : text_dict) (text : string) (pair : string * list string)
  (msg : string) :
  collection_exists (known_collections st)
    (Metadata.user (ExtractedObject.metadata obj))
    (Metadata.collection (ExtractedObject.metadata obj)) = true ->
  schemas st !! ExtractedObject.schema_name obj = Some schema ->
  collect_texts (get_index_names schema) (ExtractedObject.values obj)
  = before ++ (text, pair) :: after ->
  (forall t, List.In t (map fst before) -> exists vectors, embed t = Ok vectors) ->
  embed text = Raise msg ->
  let run := on_message embed obj st in
  embed_calls run = map fst before ++ [text] /\
  map RowIndexEmbedding.text (embeddings_list run) = map fst before /\
  sent run = [] /\
  outcome run = Raise msg.
Proof.
  intros Hexists Hschema Htexts Hok Hfail. cbv zeta.
  destruct (embed_all_stops before after text pair msg Hok Hfail)
    as (embeddings & E & Ht).
  unfold on_message. rewrite Hexists, Hschema. simpl negb. cbv iota.
  destruct (get_index_names schema) as [|n names] eqn:En.
  - exfalso. revert Htexts. unfold collect_texts.
    assert (Hnil : forall values (d : text_dict),
               fold_left (fun texts_to_embed value_map =>
                            fold_left (collect_index value_map) [] texts_to_embed)
                         values d = d).
    { induction values as [|v values IH]; intros d; simpl; auto. }
    rewrite Hnil. now destruct before.
  - rewrite Htexts, E.
    destruct (before ++ (text, pair) :: after) eqn:Ed;
      [now destruct before|].
    simpl. auto.
Qed.

(** X20: with a batch size of zero or less no message is ever sent,
    whatever was embedded. *)
Theorem non_positive_batch_size_sends_nothing
  (obj : ExtractedObject.t) (st : Processor) :
  (batch_size st <= 0)%Z -> sent (on_message embed obj st) = [].
Proof.
  intros Hb.
  destruct (Z.eq_dec (batch_size st) 0%Z) as [Hz|Hnz].
  - unfold on_message.
    destruct (negb _); [reflexivity|].
    destruct (schemas st !! _) as [schema|]; [|reflexivity].
    destruct (get_index_names schema); [reflexivity|].
    destruct (collect_texts _ _); [reflexivity|].
    destruct (embed_all embed _) as [[calls embeddings] r].
    destruct r as [[]|msg]; [|reflexivity].
    unfold py_range0. now rewrite Hz.
  - apply negative_batch_size_sends_nothing. lia.
Qed.

(** X21: with a positive batch size, every message sent carries the
    metadata and the schema name of the batch and at least one embedding:
    no empty message is sent. *)
Theorem no_empty_message_is_sent
  (obj : ExtractedObject.t) (st : Processor) (message : RowEmbeddings.t) :
  (0 < batch_size st)%Z ->
  List.In message (sent (on_message embed obj st)) ->
  RowEmbeddings.embeddings message <> [] /\
  RowEmbeddings.metadata message = ExtractedObject.metadata obj /\
  RowEmbeddings.schema_name message = ExtractedObject.schema_name obj.
Proof.
  intros Hb. unfold on_message.
  destruct (negb _); [intros []|].
  destruct (schemas st !! _) as [schema|]; [|intros []].
  destruct (get_index_names schema); [intros []|].
  destruct (collect_texts _ _); [intros []|].
  destruct (embed_all embed _) as [[calls embeddings] r].
  destruct r as [[]|msg]; [|intros []].
  unfold py_range0.
  destruct (Z.eqb_spec (batch_size st) 0) as [E|_]; [lia|].
  destruct (Z.ltb_spec 0 (batch_size st)) as [_|E]; [|lia].
  simpl. rewrite map_map. intros Hin.
  apply in_map_iff in Hin as (k & <- & Hk). simpl.
  split; [|split; reflexivity].
  rewrite py_slice_batch by exact Hb.
  apply in_seq in Hk. destruct Hk as [_ Hk]. simpl in Hk.
  set (n := Z.of_nat (length embeddings)) in *.
  set (b := batch_size st) in *.
  assert (Hlt : (Z.of_nat k * b < n)%Z).
  { pose proof (Z.div_mod (n + b - 1) b ltac:(lia)) as Hd.
    pose proof (Z.mod_pos_bound (n + b - 1) b Hb) as Hm.
    assert (Hq : (Z.of_nat k + 1 <= (n + b - 1) / b)%Z) by lia.
    nia. }
  assert (Hlen : k * Z.to_nat b < length embeddings).
  { apply Nat2Z.inj_lt. rewrite Nat2Z.inj_mul, Z2Nat.id by lia. exact Hlt. }
  intros Hnil. apply (f_equal (@length _)) in Hnil.
  rewrite length_take, length_drop in Hnil. simpl in Hnil. lia.
Qed.

End ComputeFailures.

(** ** Deletion in the row embeddings writer *)

Section EmbeddingsDeletion.

Import RowEmbeddingsWrite EmbeddingsWriteSpec EmbeddingsDelete.
Local Open Scope list_scope.

Lemma drop_collections_state (names : list string) (st : Processor) :
  let st' := fold_left drop_collection names st in
  (forall name,
     collections (qdrant st') !! name
     = if bool_decide (name ∈ names) then None
       else collections (qdrant st) !! name) /\
  (forall name,
     name ∈ created_collections st' <->
     name ∈ created_collections st /\ name ∉ names) /\
  upserts (qdrant st') = upserts (qdrant st) /\
  known_collections st' = known_collections st /\
  next_uuid st' = next_uuid st.
Proof.
  revert st. induction names as [|n names IH]; intros st; cbv zeta.
  - simpl. split; [|split]; [reflexivity | | auto].
    intros name. split; [intros H; split; [exact H|] | now intros [H _]].
    apply not_elem_of_nil.
  - simpl. destruct (IH (drop_collection st n)) as (C & K & U & KC & N).
    cbv zeta in C, K, U, KC, N. split; [|split; [|auto]].
    + intros name. rewrite C. simpl.
      destruct (decide (name = n)) as [->|Hne].
      * rewrite lookup_delete_eq.
        rewrite (bool_decide_eq_true_2 (n ∈ n :: names)) by (apply elem_of_cons; now left).
        now destruct (bool_decide (n ∈ names)).
      * rewrite lookup_delete_ne by congruence.
        destruct (bool_decide (name ∈ names)) eqn:E.
        -- apply bool_decide_eq_true in E.
           rewrite bool_decide_eq_true_2; [reflexivity|].
           apply elem_of_cons; now right.
        -- apply bool_decide_eq_false in E.
           rewrite bool_decide_eq_false_2; [reflexivity|].
           intros H. apply elem_of_cons in H as [H|H]; contradiction.
    + intros name. rewrite K. simpl.
      rewrite elem_of_difference, elem_of_singleton, not_elem_of_cons. tauto.
Qed.

Lemma matching_collections
  (prefix name : string) (store : Qdrant) :
  name ∈ List.filter (fun n => Py.startswith n prefix) (collection_names store)
  <-> Py.startswith name prefix = true /\
      is_Some (collections store !! name).
Proof.
  unfold collection_names. rewrite list_elem_of_In, filter_In, in_map_iff.
  split.
  - intros [([n p] & <- & Hin) Hp]. split; [exact Hp|].
    apply list_elem_of_In, elem_of_map_to_list in Hin. simpl. eauto.
  - intros [Hp [p Hl]]. split; [|exact Hp].
    exists (name, p). split; [reflexivity|].
    now apply list_elem_of_In, elem_of_map_to_list.
Qed.

Lemma delete_matching_state (prefix : string) (st : Processor) :
  let st' := delete_matching prefix st in
  (forall name,
     collections (qdrant st') !! name
     = if Py.startswith name prefix then None
       else collections (qdrant st) !! name) /\
  (forall name,
     name ∈ created_collections st' <->
     name ∈ created_collections st /\
     ~ (Py.startswith name prefix = true /\
        is_Some (collections (qdrant st) !! name))) /\
  upserts (qdrant st') = upserts (qdrant st) /\
  known_collections st' = known_collections st /\
  next_uuid st' = next_uuid st.
Proof.
  cbv zeta. unfold delete_matching.
  destruct (drop_collections_state
              (List.filter (fun n => Py.startswith n prefix)
                           (collection_names (qdrant st))) st)
    as (C & K & U & KC & N).
  cbv zeta in C, K, U, KC, N.
  split; [|split; [|auto]].
  - intros name. rewrite C.
    destruct (bool_decide _) eqn:E.
    + apply bool_decide_eq_true, matching_collections in E as [-> _].
      reflexivity.
    + apply bool_decide_eq_false in E. rewrite matching_collections in E.
      destruct (Py.startswith name prefix); [|reflexivity].
      destruct (collections (qdrant st) !! name) eqn:El; [|reflexivity].
      exfalso. apply E. eauto.
  - intros name. rewrite K, matching_collections. reflexivity.
Qed.

(** X22: deleting a collection removes from the store exactly the vector
    collections whose name starts with rows_{user}_{collection}_ (with the
    schema name added for [delete_collection_schema]); the cache forgets
    the names deleted, and the points sent before are untouched. *)
Theorem delete_removes_prefixed_collections
  (user collection schema_name : string) (st : Processor) :
  let outcome prefix st' :=
    (forall name,
       collections (qdrant st') !! name
       = if Py.startswith name prefix then None
         else collections (qdrant st) !! name) /\
    (forall name,
       name ∈ created_collections st' <->
       name ∈ created_collections st /\
       ~ (Py.startswith name prefix = true /\
          is_Some (collections (qdrant st) !! name))) /\
    upserts (qdrant st') = upserts (qdrant st) in
  outcome ("rows_" ++ sanitize_name user ++ "_"
                   ++ sanitize_name collection ++ "_")%string
          (delete_collection user collection st) /\
  outcome ("rows_" ++ sanitize_name user ++ "_"
                   ++ sanitize_name collection ++ "_"
                   ++ sanitize_name schema_name ++ "_")%string
          (delete_collection_schema user collection schema_name st).
Proof.
  cbv zeta. unfold delete_collection, delete_collection_schema.
  split.
  - destruct (delete_matching_state (collection_prefix user collection) st)
      as (C & K & U & _). auto.
  - destruct (delete_matching_state
                (schema_prefix user collection schema_name) st)
      as (C & K & U & _). auto.
Qed.

Lemma on_embeddings_state (message : RowEmbeddings.t) (st : Processor) :
  let metadata := RowEmbeddings.metadata message in
  collection_exists (known_collections st) (Metadata.user metadata)
                    (Metadata.collection metadata) = true ->
  on_embeddings message st
  = match all_vectors (RowEmbeddings.embeddings message) with
    | [] => st
    | (_, first_vector) :: _ =>
        let name := get_collection_name (Metadata.user metadata)
                      (Metadata.collection metadata)
                      (RowEmbeddings.schema_name message)
                      (dimension_of first_vector) in
        upsert_all name (all_vectors (RowEmbeddings.embeddings message))
                   (ensure_collection name (dimension_of first_vector) st)
    end.
Proof.
  cbv zeta. intros Hexists. unfold on_embeddings. rewrite Hexists. simpl negb.
  cbv iota. rewrite write_embeddings_unnamed.
  now destruct (all_vectors (RowEmbeddings.embeddings message)) as [|[e v] rest].
Qed.

Lemma ensure_collection_state (name : string) (dimension : Z) (st : Processor) :
  let st' := ensure_collection name dimension st in
  (forall n, n ∈ created_collections st' <->
             n = name \/ n ∈ created_collections st) /\
  (forall n, is_Some (collections (qdrant st) !! n) ->
             is_Some (collections (qdrant st') !! n)) /\
  (name ∉ created_collections st -> is_Some (collections (qdrant st') !! name)) /\
  (name ∉ created_collections st -> collections (qdrant st) !! name = None ->
   collections (qdrant st') !! name = Some (mkVectorParams dimension COSINE)).
Proof.
  cbv zeta. unfold ensure_collection.
  destruct (bool_decide (name ∈ created_collections st)) eqn:E.
  - apply bool_decide_eq_true in E.
    split; [|split; [auto|split; intros H; contradiction]].
    intros n. split; [auto|]. now intros [->|H].
  - apply bool_decide_eq_false in E. simpl.
    split; [|split; [|split]].
    + intros n. rewrite elem_of_union, elem_of_singleton. reflexivity.
    + intros n Hn. destruct (collections (qdrant st) !! name) eqn:El; simpl;
        [exact Hn|].
      destruct (decide (n = name)) as [->|Hne].
      * rewrite lookup_insert_eq. eauto.
      * now rewrite lookup_insert_ne by congruence.
    + intros _. destruct (collections (qdrant st) !! name) eqn:El; simpl.
      * rewrite El. eauto.
      * rewrite lookup_insert_eq. eauto.
    + intros _ Hl. rewrite Hl. simpl. now rewrite lookup_insert_eq.
Qed.

(** X23: the writer keeps its cache within the store: if every cached
    collection name exists in the store, this still holds after a message
    is written and after either deletion. *)
Theorem cache_stays_within_store
  (message : RowEmbeddings.t) (user collection schema_name : string)
  (st : Processor) :
  let within st :=
    forall name, name ∈ created_collections st ->
                 is_Some (collections (qdrant st) !! name) in
  within st ->
  within (on_embeddings message st) /\
  within (delete_collection user collection st) /\
  within (delete_collection_schema user collection schema_name st).
Proof.
  cbv zeta. intros Hin.
  assert (Hdel : forall prefix name,
             name ∈ created_collections (delete_matching prefix st) ->
             is_Some (collections (qdrant (delete_matching prefix st)) !! name)).
  { intros prefix name Hname.
    destruct (delete_matching_state prefix st) as (C & K & _).
    cbv zeta in C, K. apply K in Hname as [Hc Hnot]. rewrite C.
    destruct (Py.startswith name prefix) eqn:Hp; [|now apply Hin].
    exfalso. apply Hnot. split; [reflexivity | now apply Hin]. }
  split; [|split; [apply Hdel | apply Hdel]].
  intros name.
  destruct (collection_exists (known_collections st)
              (Metadata.user (RowEmbeddings.metadata message))
              (Metadata.collection (RowEmbeddings.metadata message))) eqn:Hex.
  2: { unfold on_embeddings. rewrite Hex. apply Hin. }
  rewrite (on_embeddings_state message st Hex).
  destruct (all_vectors (RowEmbeddings.embeddings message))
    as [|[e v] rest]; [apply Hin|].
  cbv zeta.
  set (n := get_collection_name _ _ _ _).
  destruct (upsert_all_state n ((e, v) :: rest)
              (ensure_collection n (dimension_of v) st)) as (_ & C & K & _).
  cbv zeta in C, K. rewrite C, K.
  destruct (ensure_collection_state n (dimension_of v) st) as (K' & C' & N' & _).
  cbv zeta in K', C', N'. intros Hname. apply K' in Hname as [->|Hname].
  - destruct (decide (n ∈ created_collections st)) as [Hc|Hc].
    + apply C'. now apply Hin.
    + now apply N'.
  - apply C'. now apply Hin.
Qed.

End EmbeddingsDeletion.

(** ** Names that meet after sanitisation *)

Section NameCollisions.

Import RowEmbeddingsWrite EmbeddingsWriteSpec EmbeddingsDelete.
Import Py (substitute).

Local Ltac by_cases_on_char c :=
  destruct c as [[] [] [] [] [] [] [] []]; vm_compute; split; reflexivity.


Lemma map_chars_app (f : ascii -> ascii) (a b : string) :
  Py.map_chars f (a ++ b) = (Py.map_chars f a ++ Py.map_chars f b)%string.
Proof.
  induction a as [|c a IH]; [reflexivity|].
  rewrite append_cons. simpl. now rewrite IH.
Qed.



Lemma sanitize_name_app (c : ascii) (r t : string) :
  sanitize_name (String c r ++ t)
  = (sanitize_name (String c r) ++ Py.lower (Py.re_sub_nonword t))%string.
Proof.
  rewrite append_cons, !sanitize_name_cons. cbv zeta.
  unfold Py.lower, Py.re_sub_nonword.
  destruct (negb (Py.isalpha (substitute c))).
  - rewrite !map_chars_app. simpl. rewrite !map_chars_app.
    now rewrite !append_cons, append_empty.
  - simpl. now rewrite !map_chars_app, append_cons.
Qed.

Lemma startswith_app_both (a x y : string) :
  Py.startswith (a ++ x) (a ++ y) = Py.startswith x y.
Proof.
  induction a as [|c a IH]; [reflexivity|].
  rewrite !append_cons. simpl. now rewrite Ascii.eqb_refl, IH.
Qed.

Lemma startswith_prefix_app (p x : string) : Py.startswith (p ++ x) p = true.
Proof.
  induction p as [|c p IH]; [now destruct x|].
  rewrite append_cons. simpl. now rewrite Ascii.eqb_refl, IH.
Qed.

(** The name of a vector collection starts with the prefixes under which
    the deletions look for it. *)
Lemma get_collection_name_prefixed
  (user collection schema_name : string) (dimension : Z) :
  Py.startswith (get_collection_name user collection schema_name dimension)
                (collection_prefix user collection) = true /\
  Py.startswith (get_collection_name user collection schema_name dimension)
                (schema_prefix user collection schema_name) = true.
Proof.
  unfold get_collection_name, collection_prefix, schema_prefix. cbv zeta.
  split.
  - rewrite !startswith_app_both. apply startswith_prefix_app.
  - rewrite !startswith_app_both. apply startswith_prefix_app.
Qed.

(** X25: the prefix test of [delete_collection] reaches further than its
    collection: deleting the collection [c] of a user also removes the
    vector collections of that user's collections named [c_...]. *)
Theorem delete_collection_reaches_longer_names
  (user collection rest schema_name : string) (dimension : Z) (st : Processor) :
  collection <> ""%string ->
  collections (qdrant (delete_collection user collection st))
    !! get_collection_name user (collection ++ "_" ++ rest) schema_name dimension
  = None.
Proof.
  intros Hne. unfold delete_collection.
  destruct (delete_matching_state (collection_prefix user collection) st)
    as (C & _). cbv zeta in C. rewrite C.
  replace (Py.startswith _ _) with true; [reflexivity|].
  symmetry. unfold get_collection_name, collection_prefix. cbv zeta.
  destruct collection as [|c r]; [congruence|].
  rewrite sanitize_name_app.
  rewrite !startswith_app_both.
  change (Py.lower (Py.re_sub_nonword ("_" ++ rest)))
    with (String "_" (Py.lower (Py.re_sub_nonword rest))).
  rewrite !append_assoc. rewrite startswith_app_both.
  rewrite append_cons. simpl. apply (startswith_prefix_app "").
Qed.

(** X26: after a collection is deleted, the next message of that
    collection creates its vector collection again, with the dimension of
    the message's first vector and cosine distance (given that the cache
    held no name missing from the store). *)
Theorem write_after_delete_recreates_collection
  (message : RowEmbeddings.t) (st : Processor)
  (row_emb : RowIndexEmbedding.t) (first_vector : list float)
  (others : list (RowIndexEmbedding.t * list float)) :
  let metadata := RowEmbeddings.metadata message in
  let user := Metadata.user metadata in
  let collection := Metadata.collection metadata in
  (forall name, name ∈ created_collections st ->
                is_Some (collections (qdrant st) !! name)) ->
  collection_exists (known_collections st) user collection = true ->
  all_vectors (RowEmbeddings.embeddings message)
  = (row_emb, first_vector) :: others ->
  collections
    (qdrant (on_embeddings message (delete_collection user collection st)))
    !! get_collection_name user collection (RowEmbeddings.schema_name message)
                           (dimension_of first_vector)
  = Some (mkVectorParams (dimension_of first_vector) COSINE).
Proof.
  cbv zeta. intros Hwithin Hexists Hitems.
  set (user := Metadata.user (RowEmbeddings.metadata message)) in *.
  set (collection := Metadata.collection (RowEmbeddings.metadata message)) in *.
  set (name := get_collection_name user collection
                 (RowEmbeddings.schema_name message) (dimension_of first_vector)).
  unfold delete_collection.
  destruct (delete_matching_state (collection_prefix user collection) st)
    as (C & K & _ & KC & _). cbv zeta in C, K, KC.
  set (st1 := delete_matching (collection_prefix user collection) st) in *.
  assert (Hex1 : collection_exists (known_collections st1) user collection = true)
    by now rewrite KC.
  rewrite (on_embeddings_state message st1 Hex1), Hitems. cbv zeta.
  fold user collection name.
  destruct (upsert_all_state name ((row_emb, first_vector) :: others)
              (ensure_collection name (dimension_of first_vector) st1))
    as (_ & C2 & _). cbv zeta in C2. rewrite C2.
  destruct (ensure_collection_state name (dimension_of first_vector) st1)
    as (_ & _ & _ & Hnew). cbv zeta in Hnew.
  destruct (get_collection_name_prefixed user collection
              (RowEmbeddings.schema_name message) (dimension_of first_vector))
    as [Hp _]. fold name in Hp.
  assert (Hgone : collections (qdrant st1) !! name = None).
  { rewrite C. now rewrite Hp. }
  apply Hnew; [|exact Hgone].
  intros Hc. apply K in Hc as [Hc Hnot]. apply Hnot.
  split; [exact Hp | now apply Hwithin].
Qed.

End NameCollisions.

(** ** Searches of the row embeddings query service and its client *)

Section EmbeddingsSearch.

Import RowEmbeddingsQuery RowEmbeddingsClient.
Local Open Scope list_scope.

Context (get_collections : result (list string))
        (query_points : string -> list float -> Z -> option string ->
                        result (list ScoredPoint)).

(** The [index_name] a request filters on: none for an empty name. *)
Local Abbreviation filter_of index_name :=
  (match index_name with
   | Some name => if Py.truthy name then Some name else None
   | None => None
   end).

Lemma query_vectors_returns
  (name : string) (request : RowEmbeddingsRequest)
  (points : list float -> list ScoredPoint)
  (vecs : list (list float)) (acc : list RowIndexMatch) :
  (forall vec, List.In vec vecs ->
     query_points name vec (limit request) (filter_of (index_name request))
     = Ok (points vec)) ->
  query_vectors query_points name request vecs acc
  = Ok (acc ++ flat_map (fun vec => map to_match (points vec)) vecs).
Proof.
  revert acc. induction vecs as [|vec rest IH]; intros acc H; simpl.
  - now rewrite app_nil_r.
  - rewrite (H vec) by now left.
    rewrite IH by (intros v Hv; apply H; now right).
    now rewrite app_assoc.
Qed.

Lemma query_vectors_raises
  (name : string) (request : RowEmbeddingsRequest)
  (before after : list (list float)) (vec : list float) (msg : string)
  (acc : list RowIndexMatch) :
  (forall v, List.In v before ->
     exists points,
       query_points name v (limit request) (filter_of (index_name request))
       = Ok points) ->
  query_points name vec (limit request) (filter_of (index_name request))
  = Raise msg ->
  query_vectors query_points name request (before ++ vec :: after) acc
  = Raise msg.
Proof.
  revert acc. induction before as [|v before IH]; intros acc Hok Hfail; simpl.
  - now rewrite Hfail.
  - destruct (Hok v (or_introl eq_refl)) as [points ->].
    apply IH; [|exact Hfail]. intros w Hw. apply Hok. now right.
Qed.

Lemma query_vectors_same_search
  (name : string) (request request' : RowEmbeddingsRequest)
  (vecs : list (list float)) (acc : list RowIndexMatch) :
  limit request' = limit request ->
  filter_of (index_name request') = filter_of (index_name request) ->
  query_vectors query_points name request' vecs acc
  = query_vectors query_points name request vecs acc.
Proof.
  intros Hl Hf. revert acc.
  induction vecs as [|vec rest IH]; intros acc; simpl; [reflexivity|].
  rewrite Hl, Hf.
  destruct (query_points _ _ _ _); [apply IH | reflexivity].
Qed.

(** X27: when the collection is found and every search succeeds, the
    response carries no error and the matches of each query vector in
    turn, in vector order. *)
Theorem matches_concatenate_per_vector
  (request : RowEmbeddingsRequest) (name : string)
  (points : list float -> list ScoredPoint) :
  find_collection get_collections (user request) (collection request)
                  (schema_name request) = Some name ->
  name <> ""%string ->
  (forall vec, List.In vec (vectors request) ->
     query_points name vec (limit request) (filter_of (index_name request))
     = Ok (points vec)) ->
  on_message get_collections query_points request
  = mkResponse None
      (flat_map (fun vec => map to_match (points vec)) (vectors request)).
Proof.
  intros Hfound Hname Hok. unfold on_message, query_row_embeddings.
  rewrite Hfound.
  destruct name as [|c r]; [congruence|]. simpl negb. cbv iota.
  now rewrite (query_vectors_returns _ _ points _ _ Hok).
Qed.

(** X28: when the search for one query vector fails, the response carries
    the error and no match at all: the matches found for the vectors
    before it are discarded, and the vectors after it are not searched. *)
Theorem search_failure_discards_matches
  (request : RowEmbeddingsRequest) (name : string)
  (before after : list (list float)) (vec : list float) (msg : string) :
  find_collection get_collections (user request) (collection request)
                  (schema_name request) = Some name ->
  name <> ""%string ->
  vectors request = before ++ vec :: after ->
  (forall v, List.In v before ->
     exists points,
       query_points name v (limit request) (filter_of (index_name request))
       = Ok points) ->
  query_points name vec (limit request) (filter_of (index_name request))
  = Raise msg ->
  on_message get_collections query_points request
  = mkResponse (Some (Error.make "row-embeddings-query-error" msg)) [].
Proof.
  intros Hfound Hname Hvecs Hok Hfail. unfold on_message, query_row_embeddings.
  rewrite Hfound.
  destruct name as [|c r]; [congruence|]. simpl negb. cbv iota.
  now rewrite Hvecs, (query_vectors_raises _ _ _ _ _ _ _ Hok Hfail).
Qed.

Lemma on_message_same_search (request request' : RowEmbeddingsRequest) :
  vectors request' = vectors request ->
  limit request' = limit request ->
  user request' = user request ->
  collection request' = collection request ->
  schema_name request' = schema_name request ->
  filter_of (index_name request') = filter_of (index_name request) ->
  query_row_embeddings get_collections query_points request'
  = query_row_embeddings get_collections query_points request.
Proof.
  intros Hv Hl Hu Hc Hs Hf. unfold query_row_embeddings.
  rewrite Hv, Hu, Hc, Hs.
  destruct (find_collection _ _ _ _) as [name|]; [|reflexivity].
  destruct (negb (Py.truthy name)); [reflexivity|].
  now apply query_vectors_same_search.
Qed.

(** X29: a request survives the translator round trip: [to_pulsar] of
    [from_pulsar] gives a request with the same fields, but for an empty
    [index_name] that comes back absent, and the service answers both the
    same. *)
Theorem request_round_trip_preserves_answer (request : RowEmbeddingsRequest) :
  exists request',
    to_pulsar (from_pulsar request) = Ok request' /\
    vectors request' = vectors request /\
    limit request' = limit request /\
    user request' = user request /\
    collection request' = collection request /\
    schema_name request' = schema_name request /\
    index_name request' = filter_of (index_name request) /\
    on_message get_collections query_points request'
    = on_message get_collections query_points request.
Proof.
  eexists. split; [reflexivity|]. simpl.
  repeat (split; [reflexivity|]).
  unfold on_message. rewrite (on_message_same_search request); try reflexivity.
  simpl. destruct (index_name request) as [name|]; [|reflexivity].
  destruct (Py.truthy name) eqn:E; [now rewrite E | reflexivity].
Qed.

(** X30: the client on top of the service returns the service's matches as
    dicts, and raises the message of the service's error otherwise; that
    it leaves an empty [index_name] out of the request makes no
    difference. *)
Theorem client_returns_service_matches
  (vectors : list (list float)) (schema_name user collection : string)
  (index_name : option string) (limit : Z) :
  row_embeddings_query
    (fun request => Ok (on_message get_collections query_points request))
    vectors schema_name user collection index_name limit
  = match query_row_embeddings get_collections query_points
            (mkRequest vectors limit user collection schema_name index_name) with
    | Ok matches => Ok (map match_dict matches)
    | Raise msg => Raise msg
    end.
Proof.
  unfold row_embeddings_query, on_message.
  rewrite (on_message_same_search
             (mkRequest vectors limit user collection schema_name index_name));
    try reflexivity.
  - now destruct (query_row_embeddings _ _ _).
  - simpl. destruct index_name as [name|]; [|reflexivity].
    destruct (Py.truthy name) eqn:E; [now rewrite E | reflexivity].
Qed.

End EmbeddingsSearch.

(** * The further situations *)



(** A store that refuses every [row_partitions] insert: the write returns
    and the partitions count as registered. *)
Lemma partition_failures_are_swallowed_witness :
  let run := RowsWrite.on_object Situations.reject_partitions
               Scenario.one_customer
               (Scenario.fresh_writer Scenario.customer_records) in
  snd run = Ok tt /\
  ("col", "customer_records") ∈ RowsWrite.registered_partitions (fst run).
Proof.
  cbv zeta.
  destruct (partition_failures_are_swallowed
              Situations.reject_partitions Scenario.one_customer
              (Scenario.fresh_writer Scenario.customer_records))
    as [Hok Hregistered].
  - intros q Hq. destruct q; try reflexivity. discriminate.
  - reflexivity.
  - split; [exact Hok|].
    apply (Hregistered Scenario.customer_records). reflexivity.
Defined.

(** A store that refuses the keyspace: the write raises after that one
    statement and the caches stay empty. *)
Lemma failed_keyspace_creation_is_not_cached_witness :
  let st := Scenario.fresh_writer Scenario.customer_records in
  let run := RowsWrite.on_object Situations.reject_keyspace
               Scenario.one_customer st in
  snd run = Raise "keyspace refused" /\
  RowsWrite.executed (fst run) = [RowsWrite.CreateKeyspace "tenant"] /\
  RowsWrite.known_keyspaces (fst run) = ∅ /\
  RowsWrite.tables_initialized (fst run) = ∅ /\
  RowsWrite.registered_partitions (fst run) = ∅.
Proof.
  cbv zeta.
  destruct (failed_keyspace_creation_is_not_cached
              Situations.reject_keyspace Scenario.one_customer
              (Scenario.fresh_writer Scenario.customer_records)
              Scenario.customer_records "keyspace refused")
    as (Hraise & Hsent & Hk & Ht & Hr & _).
  - reflexivity.
  - reflexivity.
  - apply not_elem_of_empty.
  - apply not_elem_of_empty.
  - reflexivity.
  - repeat split; assumption.
Defined.

(** A second user writes to a collection of the same name after the first:
    no partition is registered for the second user's keyspace. *)
Lemma partition_cache_ignores_the_user_witness :
  let st1 := fst (RowsWrite.on_object Scenario.accept_all Scenario.one_customer
                    Situations.shared_writer) in
  List.filter RowsWrite.is_partition_insert
    (RowsWrite.executed
       (fst (RowsWrite.on_object Scenario.accept_all Situations.other_user st1)))
  = List.filter RowsWrite.is_partition_insert (RowsWrite.executed st1).
Proof.
  cbv zeta.
  apply (partition_cache_ignores_the_user
           Scenario.accept_all Scenario.one_customer Situations.other_user
           Situations.shared_writer Scenario.customer_records).
  - reflexivity.
  - reflexivity.
  - reflexivity.
  - reflexivity.
  - reflexivity.
  - vm_compute. reflexivity.
  - vm_compute. reflexivity.
Defined.

(** John's row is written, the collection is deleted, and the row is
    written again: both partitions are registered again. *)
Lemma write_after_delete_registers_again_witness :
  let st' := snd (fst (RowsDelete.delete_collection
                         Situations.keyspace_present Situations.partitions_of
                         Situations.delete_accepted "tenant" "col"
                         (Scenario.writer_after_write Scenario.customer_records))) in
  List.filter RowsWrite.is_partition_insert
    (drop (length (RowsWrite.executed st'))
          (RowsWrite.executed
             (fst (RowsWrite.on_object Scenario.accept_all
                                       Scenario.one_customer st'))))
  = [RowsWrite.InsertPartition "tenant" "col" "customer_records" "customer_id";
     RowsWrite.InsertPartition "tenant" "col" "customer_records" "email"].
Proof.
  cbv zeta.
  apply (write_after_delete_registers_again
           Scenario.accept_all Situations.keyspace_present
           Situations.partitions_of Situations.delete_accepted
           "tenant" "col"
           (Scenario.writer_after_write Scenario.customer_records)
           Scenario.one_customer Scenario.customer_records).
  - vm_compute. reflexivity.
  - right. reflexivity.
  - reflexivity.
  - vm_compute. reflexivity.
  - vm_compute. reflexivity.
  - vm_compute. reflexivity.
Defined.

(** An equality filter on email makes a direct read; a filter on age beside
    it changes neither the query nor the rows. *)
Lemma direct_read_ignores_other_filters_witness :
  RowsQuery.query_cassandra
    Scenario.float_str Scenario.list_str Scenario.float_of_str
    Scenario.float_of_int Scenario.session Scenario.keep_order
    "tenant" "col" "customer_records" Scenario.customer_records
    {[ "email" := VScalar (SStr "john@example.com") ]} (Some 100%Z) None None
  = RowsQuery.query_cassandra
      Scenario.float_str Scenario.list_str Scenario.float_of_str
      Scenario.float_of_int Scenario.session Scenario.keep_order
      "tenant" "col" "customer_records" Scenario.customer_records
      {[ "email" := VScalar (SStr "john@example.com");
         "age_gt" := VScalar (SInt 40) ]} (Some 100%Z) None None.
Proof.
  apply (direct_read_ignores_other_filters
           Scenario.float_str Scenario.list_str Scenario.float_of_str
           Scenario.float_of_int Scenario.session Scenario.keep_order).
  - intros name [<-|[<-|[]]]; reflexivity.
  - eexists. reflexivity.
Defined.

(** The schema [notes] has no index: nothing is sent to the store. *)
Lemma no_index_no_query_witness :
  RowsQuery.query_cassandra
    Scenario.float_str Scenario.list_str Scenario.float_of_str
    Scenario.float_of_int Scenario.session Scenario.keep_order
    "tenant" "col" "notes" Situations.notes
    {[ "title" := VScalar (SStr "Minutes") ]} (Some 100%Z) None None
  = ([], Ok []).
Proof.
  apply (no_index_no_query
           Scenario.float_str Scenario.list_str Scenario.float_of_str
           Scenario.float_of_int Scenario.session Scenario.keep_order).
  intros field [<-|[<-|[]]]; reflexivity.
Defined.

(** John's age is compared with a bound while no value converts to a
    float: the row is rejected. *)
Lemma comparison_rejects_unparsable_values_witness :
  RowsQuery._matches_filters
    Scenario.float_str Scenario.list_str Scenario.float_of_str
    Scenario.float_of_int Scenario.john
    {[ "age_gt" := VScalar (SStr "twenty") ]} Scenario.customer_records
  = false.
Proof.
  apply (comparison_rejects_unparsable_values
           Scenario.float_str Scenario.list_str Scenario.float_of_str
           Scenario.float_of_int Scenario.john
           {[ "age_gt" := VScalar (SStr "twenty") ]} Scenario.customer_records
           "age" "gt" "30" (VScalar (SStr "twenty"))).
  - simpl. auto.
  - reflexivity.
  - discriminate.
  - reflexivity.
  - left. reflexivity.
Defined.

(** John passes the filters on email and name, hence the filter on email
    alone. *)
Lemma fewer_filters_keep_the_row_witness :
  RowsQuery._matches_filters
    Scenario.float_str Scenario.list_str Scenario.float_of_str
    Scenario.float_of_int Scenario.john
    {[ "email" := VScalar (SStr "john@example.com") ]}
    Scenario.customer_records
  = true.
Proof.
  apply (fewer_filters_keep_the_row
           Scenario.float_str Scenario.list_str Scenario.float_of_str
           Scenario.float_of_int Scenario.john
           {[ "email" := VScalar (SStr "john@example.com") ]}
           (<[ "name" := VScalar (SStr "John Doe") ]>
              {[ "email" := VScalar (SStr "john@example.com") ]})
           Scenario.customer_records).
  - apply insert_subseteq. reflexivity.
  - vm_compute. reflexivity.
Defined.

(** A push that carries only other sections: the schema table is emptied
    and the request is answered as before. *)
Lemma sectionless_config_keeps_answering_witness :
  let st' := RowsQuery.on_schema_config Scenario.parse_schema
               Situations.other_sections Situations.configured_service in
  RowsQuery.schemas st' = ∅ /\
  RowsQuery.on_message string id Py.truthy Situations.engine_answers st'
                       Scenario.graphql_request
  = RowsQuery.on_message string id Py.truthy Situations.engine_answers
                         Situations.configured_service Scenario.graphql_request.
Proof.
  cbv zeta.
  apply (sectionless_config_keeps_answering
           string id Py.truthy Situations.engine_answers Scenario.parse_schema
           Situations.other_sections Situations.configured_service
           Scenario.graphql_request).
  reflexivity.
Defined.

(** John's row is stored under the email index with the key the query
    service reads for the filter email = john@example.com. *)
Lemma written_row_is_read_by_its_index_witness :
  List.In (RowsWrite.InsertRow "tenant" "col" "customer_records" "email"
             ["john@example.com"] Scenario.john "")
          (RowsWrite.executed
             (fst (RowsWrite.on_object Scenario.accept_all Scenario.one_customer
                     (Scenario.fresh_writer Scenario.customer_records)))) /\
  fst (RowsQuery.query_cassandra
         Scenario.float_str Scenario.list_str Scenario.float_of_str
         Scenario.float_of_int Scenario.session Scenario.keep_order
         "tenant" "col" "customer_records" Scenario.customer_records
         {[ "email" := VScalar (SStr "john@example.com") ]} (Some 100%Z)
         None None)
  = [RowsQuery.DirectRead "tenant" "col" "customer_records" "email"
                          ["john@example.com"] (Some 100%Z)].
Proof.
  apply (written_row_is_read_by_its_index
           Scenario.accept_all
           Scenario.float_str Scenario.list_str Scenario.float_of_str
           Scenario.float_of_int Scenario.session Scenario.keep_order
           Scenario.one_customer
           (Scenario.fresh_writer Scenario.customer_records)
           Scenario.customer_records Scenario.john
           (Scenario.field "email" false true false) "john@example.com"
           {[ "email" := VScalar (SStr "john@example.com") ]} (Some 100%Z)
           None None).
  - reflexivity.
  - reflexivity.
  - vm_compute. reflexivity.
  - left. reflexivity.
  - simpl. auto.
  - reflexivity.
  - reflexivity.
  - reflexivity.
  - reflexivity.
  - discriminate.
  - reflexivity.
Defined.

(** The key built for age and gte is read back as (age, gte), by both
    parsers. *)
Lemma parse_filter_key_inverts_condition_key_witness :
  FilterKeys.parse_filter_key "age_gte" = ("age", "gte") /\
  exists op, RowsQuery.known_operator "gte" = Some op /\
             RowsQuery.split_filter_key "age_gte" = ("age", op).
Proof.
  apply (parse_filter_key_inverts_condition_key "age" "gte" "age_gte").
  - simpl. auto.
  - reflexivity.
Defined.

(** The condition age_gt of the where object comes from its operator gt on
    age. *)
Lemma parse_where_clause_sound_witness :
  VScalar (SInt 21) <> VNone /\
  exists field obj operator,
    List.In (field, Some obj) Situations.where_age_gt /\
    List.In (operator, VScalar (SInt 21)) obj /\
    Filters.condition_key field operator = Some "age_gt".
Proof.
  apply (parse_where_clause_sound Situations.where_age_gt "age_gt"
                                  (VScalar (SInt 21))).
  reflexivity.
Defined.

(** The embeddings service fails on John's e-mail address, the second
    text: the identifier has been embedded, nothing is sent. *)
Lemma embedding_failure_sends_nothing_witness :
  let run := RowEmbeddingsCompute.on_message Situations.embed_fails_on_email
               Scenario.one_customer Scenario.computer in
  RowEmbeddingsCompute.embed_calls run = ["CUST001"; "john@example.com"] /\
  map RowIndexEmbedding.text (RowEmbeddingsCompute.embeddings_list run)
  = ["CUST001"] /\
  RowEmbeddingsCompute.sent run = [] /\
  RowEmbeddingsCompute.outcome run = Raise "embeddings service down".
Proof.
  cbv zeta.
  apply (embedding_failure_sends_nothing
           Situations.embed_fails_on_email Scenario.one_customer
           Scenario.computer Scenario.customer_records
           [("CUST001", ("customer_id", ["CUST001"]))] []
           "john@example.com" ("email", ["john@example.com"])
           "embeddings service down").
  - reflexivity.
  - reflexivity.
  - vm_compute. reflexivity.
  - intros t [<-|[]]. eexists. reflexivity.
  - reflexivity.
Defined.

(** With a batch size of zero the embeddings of John and Jane are computed
    and none is sent. *)
Lemma non_positive_batch_size_sends_nothing_witness :
  RowEmbeddingsCompute.sent
    (RowEmbeddingsCompute.on_message Scenario.embed Scenario.two_customers
                                     Situations.unbatched_computer) = [].
Proof.
  apply (non_positive_batch_size_sends_nothing
           Scenario.embed Scenario.two_customers Situations.unbatched_computer).
  simpl. lia.
Defined.

(** The message sent for John and Jane carries their metadata, their
    schema name and embeddings. *)
Lemma no_empty_message_is_sent_witness :
  exists message,
    List.In message
      (RowEmbeddingsCompute.sent
         (RowEmbeddingsCompute.on_message Scenario.embed Scenario.two_customers
                                          Scenario.computer)) /\
    RowEmbeddings.embeddings message <> [] /\
    RowEmbeddings.metadata message = Scenario.metadata /\
    RowEmbeddings.schema_name message = "customer_records".
Proof.
  eexists. split.
  - vm_compute. left. reflexivity.
  - apply (no_empty_message_is_sent Scenario.embed Scenario.two_customers
                                    Scenario.computer).
    + reflexivity.
    + vm_compute. left. reflexivity.
Defined.

(** The writer just started holds an empty cache: after the message of
    mixed dimensions, the name it has cached is in the store. *)
Lemma cache_stays_within_store_witness :
  is_Some (RowEmbeddingsWrite.collections
             (RowEmbeddingsWrite.qdrant
                (RowEmbeddingsWrite.on_embeddings Scenario.mixed_dimensions
                                                  Scenario.embeddings_writer))
           !! "rows_tenant_col_customer_records_2").
Proof.
  destruct (cache_stays_within_store Scenario.mixed_dimensions "tenant" "col"
              "customer_records" Scenario.embeddings_writer) as [Hwritten _].
  - intros name H. apply elem_of_empty in H. contradiction.
  - apply Hwritten.
    assert (E : RowEmbeddingsWrite.created_collections
                  (RowEmbeddingsWrite.on_embeddings Scenario.mixed_dimensions
                                                    Scenario.embeddings_writer)
                = {[ "rows_tenant_col_customer_records_2" ]}).
    { vm_compute. reflexivity. }
    rewrite E. now apply elem_of_singleton.
Defined.

(** Deleting the collection col of the tenant removes the vector collection
    of its collection col_archive. *)
Lemma delete_collection_reaches_longer_names_witness :
  RowEmbeddingsWrite.collections
    (RowEmbeddingsWrite.qdrant
       (EmbeddingsDelete.delete_collection "tenant" "col"
          (RowEmbeddingsWrite.on_embeddings Scenario.mixed_dimensions
                                            Scenario.embeddings_writer)))
    !! RowEmbeddingsWrite.get_collection_name "tenant" "col_archive"
                                              "customer_records" 2
  = None.
Proof.
  apply (delete_collection_reaches_longer_names
           "tenant" "col" "archive" "customer_records" 2).
  discriminate.
Defined.

(** The message of mixed dimensions is written, the collection deleted, and
    the message written again: its vector collection is there again. *)
Lemma write_after_delete_recreates_collection_witness :
  RowEmbeddingsWrite.collections
    (RowEmbeddingsWrite.qdrant
       (RowEmbeddingsWrite.on_embeddings Scenario.mixed_dimensions
          (EmbeddingsDelete.delete_collection "tenant" "col"
             (RowEmbeddingsWrite.on_embeddings Scenario.mixed_dimensions
                                               Scenario.embeddings_writer))))
    !! "rows_tenant_col_customer_records_2"
  = Some (RowEmbeddingsWrite.mkVectorParams 2 RowEmbeddingsWrite.COSINE).
Proof.
  apply (write_after_delete_recreates_collection
           Scenario.mixed_dimensions
           (RowEmbeddingsWrite.on_embeddings Scenario.mixed_dimensions
                                             Scenario.embeddings_writer)
           (RowIndexEmbedding.make "email" ["john@example.com"]
              "john@example.com"
              [[0.5%float; 0.25%float]; [0.5%float; 0.25%float; 0.125%float]])
           [0.5%float; 0.25%float]
           [(RowIndexEmbedding.make "email" ["john@example.com"]
               "john@example.com"
               [[0.5%float; 0.25%float]; [0.5%float; 0.25%float; 0.125%float]],
             [0.5%float; 0.25%float; 0.125%float])]).
  - intros name H.
    assert (E : RowEmbeddingsWrite.created_collections
                  (RowEmbeddingsWrite.on_embeddings Scenario.mixed_dimensions
                                                    Scenario.embeddings_writer)
                = {[ "rows_tenant_col_customer_records_2" ]}).
    { vm_compute. reflexivity. }
    rewrite E in H. apply elem_of_singleton in H. subst name.
    eexists. vm_compute. reflexivity.
  - vm_compute. reflexivity.
  - reflexivity.
Defined.

(** The store lists the collection of customer_records after another one:
    the search finds John's e-mail address. *)
Lemma matches_concatenate_per_vector_witness :
  RowEmbeddingsQuery.on_message Situations.customer_collections
                                Situations.one_point Scenario.email_request
  = RowEmbeddingsQuery.mkResponse None
      [RowEmbeddingsQuery.mkMatch "email" ["john@example.com"]
                                  "john@example.com" 0.75%float].
Proof.
  apply (matches_concatenate_per_vector
           Situations.customer_collections Situations.one_point
           Scenario.email_request "rows_tenant_col_customer_records_2"
           (fun _ => [Situations.john_point])).
  - reflexivity.
  - discriminate.
  - intros vec _. reflexivity.
Defined.

(** The search fails: the response carries the error and no match. *)
Lemma search_failure_discards_matches_witness :
  RowEmbeddingsQuery.on_message Situations.customer_collections
                                Situations.search_down Scenario.email_request
  = RowEmbeddingsQuery.mkResponse
      (Some (Error.make "row-embeddings-query-error" "search failed")) [].
Proof.
  apply (search_failure_discards_matches
           Situations.customer_collections Situations.search_down
           Scenario.email_request "rows_tenant_col_customer_records_2"
           [] [] [0.5%float; 0.25%float] "search failed").
  - reflexivity.
  - discriminate.
  - reflexivity.
  - intros v [].
  - reflexivity.
Defined.

(** A batch of a user without collection is refused with the error, and a
    batch of a schema the writer does not hold is dropped: the writer is as
    before. *)
Lemma refused_write_changes_nothing_witness :
  let st := Scenario.fresh_writer Scenario.customer_records in
  RowsWrite.on_object Scenario.accept_all Situations.stranger st
  = (st, Raise ("Collection col does not exist. " ++
                "Create it first via collection management API.")) /\
  RowsWrite.on_object Scenario.accept_all Situations.orders_batch st
  = (st, Ok tt).
Proof.
  cbv zeta. split.
  - apply (proj1 (refused_write_changes_nothing
                    Scenario.accept_all Situations.stranger
                    (Scenario.fresh_writer Scenario.customer_records))).
    reflexivity.
  - apply (proj2 (refused_write_changes_nothing
                    Scenario.accept_all Situations.orders_batch
                    (Scenario.fresh_writer Scenario.customer_records))).
    + reflexivity.
    + reflexivity.
Defined.

(** John's row is written and its collection deleted: the deletion
    returns and the cache no longer holds (col, customer_records). *)
Lemma delete_collection_outcome_witness :
  let run := RowsDelete.delete_collection
               Situations.keyspace_present Situations.partitions_of
               Situations.delete_accepted "tenant" "col"
               (Scenario.writer_after_write Scenario.customer_records) in
  snd run = Ok tt /\
  ("col", "customer_records") ∉ RowsWrite.registered_partitions (snd (fst run)).
Proof.
  cbv zeta.
  assert (Hok : snd (RowsDelete.delete_collection
                       Situations.keyspace_present Situations.partitions_of
                       Situations.delete_accepted "tenant" "col"
                       (Scenario.writer_after_write Scenario.customer_records))
                = Ok tt).
  { vm_compute. reflexivity. }
  split; [exact Hok|].
  destruct (proj1 (delete_collection_outcome
                     Situations.keyspace_present Situations.partitions_of
                     Situations.delete_accepted "tenant" "col"
                     (Scenario.writer_after_write Scenario.customer_records))
                  Hok)
    as [(_ & Hfound & _)|(partition_list & _ & _ & _ & Hevicted)].
  - discriminate Hfound.
  - intros Hin. apply Hevicted in Hin as [_ Hne]. now apply Hne.
Defined.

(** The same for the deletion of the one schema. *)
Lemma delete_collection_schema_outcome_witness :
  let run := RowsDelete.delete_collection_schema
               Situations.schema_partitions_of Situations.delete_accepted
               "tenant" "col" "customer_records"
               (Scenario.writer_after_write Scenario.customer_records) in
  snd run = Ok tt /\
  ("col", "customer_records") ∉ RowsWrite.registered_partitions (snd (fst run)).
Proof.
  cbv zeta.
  assert (Hok : snd (RowsDelete.delete_collection_schema
                       Situations.schema_partitions_of Situations.delete_accepted
                       "tenant" "col" "customer_records"
                       (Scenario.writer_after_write Scenario.customer_records))
                = Ok tt).
  { vm_compute. reflexivity. }
  split; [exact Hok|].
  destruct (proj1 (delete_collection_schema_outcome
                     Situations.schema_partitions_of Situations.delete_accepted
                     "tenant" "col" "customer_records"
                     (Scenario.writer_after_write Scenario.customer_records))
                  Hok)
    as (partition_list & _ & _ & Hevicted).
  intros Hin. apply Hevicted in Hin as [_ Hne]. now apply Hne.
Defined.
